(** * The threaded worker of gunicorn (gthread) and its liveness beacon

    A shallow embedding of [gunicorn/workers/gthread.py] and
    [gunicorn/workers/workertmp.py].

    Python objects with identity (connections, response objects) live in
    stores indexed by a reference; methods become computations in a small
    state-and-exception monad over the worker; every call that leaves the
    worker (sockets, the selector, the executor, the logger, the hooks, the
    WSGI application) is recorded in a call log, and its outcome, where the
    source distinguishes outcomes, is read from the environment part of the
    state.  Time stamps are integers (an arbitrary fixed unit), errno values
    are the Linux ones. *)

From stdpp Require Import gmap list strings.
From Stdlib Require Import ZArith Lia Sorted Ascii.

Open Scope Z_scope.

(** ** Exceptions *)

Module Errno.
Definition EBADF : Z := 9.
Definition EAGAIN : Z := 11.
Definition EWOULDBLOCK : Z := 11.
Definition EPIPE : Z := 32.
Definition ECONNABORTED : Z := 103.
Definition ECONNRESET : Z := 104.
Definition ENOTCONN : Z := 107.
End Errno.

(** [ssl.SSL_ERROR_EOF] *)
Definition SSL_ERROR_EOF : Z := 8.

(** The subclasses of [Exception] the worker tells apart.  [NoMoreData]
    (http.errors) and [SSLError] derive from [OSError].  Only [Exception]
    and its subclasses are modelled: a [BaseException] outside it
    ([SystemExit], [KeyboardInterrupt]), which no [except Exception] of
    the worker catches, ends the thread it is raised in and is outside
    this development. *)
Inductive exn : Type :=
| OSError (errno : Z)
| NoMoreData
| SSLError (code : Z)
| KeyError
| ValueError
| IndexError
| TypeError
| StopIteration
| RuntimeError
| OtherError (tag : string).

Definition is_OSError (e : exn) : bool :=
  match e with
  | OSError _ | NoMoreData | SSLError _ => true
  | _ => false
  end.

(** [e.errno] of an [OSError] instance ([None] when it carries none). *)
Definition errno_of (e : exn) : option Z :=
  match e with
  | OSError n => Some n
  | SSLError n => Some n
  | _ => None
  end.

Definition errno_in (e : exn) (codes : list Z) : bool :=
  match errno_of e with
  | Some n => existsb (Z.eqb n) codes
  | None => false
  end.

(** ** Data model *)

(** [TConn]: one accepted connection.  [sock] is the descriptor of the
    socket object, [timeout] the keepalive deadline ([None] until
    [set_timeout]), [parser] tells whether the request parser was built. *)
Record TConn : Type := mkTConn {
  sock : nat;
  client : nat;
  server : nat;
  timeout : option Z;
  parser : bool;
  initialized : bool;
  ssl_wrapped : bool
}.

(** What a selector key carries as [data]: [partial(self.accept, server)]
    or [partial(self.on_client_socket_readable, conn)]. *)
Inductive callback : Type :=
| Acceptor (server : nat)
| Readable (conn : nat).

Inductive level : Type := Debug | Info | Warning | Error | Exception.

(** The response object built by [wsgi.create]. *)
Record Response : Type := mkResponse {
  must_close : bool;
  headers_sent : bool;
  natural_close : bool
}.

(** The call log. *)
Inductive event : Type :=
| EvAcquire
| EvRelease
| EvAccept (listener : nat)
| EvSetBlocking (fd : nat) (flag : bool)
| EvNrConns (delta : Z)
| EvRegister (fd : nat) (cb : callback)
| EvUnregister (fd : nat)
| EvKeepAppend (conn : nat)
| EvKeepAppendLeft (conn : nat)
| EvKeepPopLeft (got : option nat)
| EvKeepRemove (conn : nat) (found : bool)
| EvClose (fd : nat)
| EvSockShutdown (fd : nat)
| EvSockClose (fd : nat)
| EvSubmit (conn : nat)
| EvSelect (timeout_s : Z)
| EvWait (timeout_s : Z) (first_completed : bool)
| EvNotify
| EvLog (lvl : level) (msg : string)
| EvAccessLog (conn : nat)
| EvPreRequest (conn : nat)
| EvCreate (conn : nat)
| EvForceClose (conn : nat)
| EvApp (conn : nat)
| EvWrite (conn : nat) (data : string)
| EvWriteFile (conn : nat)
| EvRespClose (conn : nat)
| EvIterClose (conn : nat)
| EvPostRequest (conn : nat)
| EvHandleError (conn : nat)
| EvPoolShutdown (wait : bool)
| EvPollerClose
| EvListenerClose (fd : nat).

Record Cfg : Type := mkCfg {
  cfg_worker_connections : Z;
  cfg_threads : Z;
  cfg_keepalive : Z;
  cfg_is_ssl : bool;
  cfg_graceful_timeout : Z
}.

(** The environment: outcomes of the selector's system calls, per
    descriptor ([None]: the call goes through); what [listener.accept()]
    does on a listener (an exception, or a new socket and its peer); what
    [sock.getsockname()] answers. *)
Record Env : Type := mkEnv {
  register_fault : nat -> option exn;
  unregister_fault : nat -> option exn;
  accept_result : nat -> exn + nat * nat;
  sockname : nat -> nat
}.

(** A finished task handle, as [finish_request] sees it: [fs.conn], and
    what [fs.cancelled()] and [fs.result()] give. *)
Inductive fstate : Type :=
| Cancelled
| Finished (keepalive : bool) (conn : nat)
| Failed (e : exn).

Record Future : Type := mkFuture {
  fut_id : nat;
  fut_conn : nat;
  fut_state : fstate
}.

(** The worker ([ThreadWorker] with the fields it inherits from
    [base.Worker]: [alive], [nr], [max_requests], [ppid], [sockets]). *)
Record Worker : Type := mkWorker {
  cfg : Cfg;
  worker_connections : Z;
  max_keepalived : Z;
  max_requests : Z;
  alive : bool;
  nr : Z;
  nr_conns : Z;
  _keep : list nat;
  futures : list nat;
  poller : gmap nat callback;
  conns : nat -> TConn;
  next_conn : nat;
  next_future : nat;
  resps : gmap nat Response;
  sockets : list nat;
  ppid : nat;
  clock : Z;
  env : Env;
  trace : list event
}.

(** [ThreadWorker.__init__] *)
Definition init_worker (c : Cfg) (max_req : Z) (listeners : list nat)
    (parent : nat) (heap : nat -> TConn) (e : Env) : Worker :=
  {| cfg := c;
     worker_connections := cfg_worker_connections c;
     max_keepalived := cfg_worker_connections c - cfg_threads c;
     max_requests := max_req;
     alive := true; nr := 0; nr_conns := 0;
     _keep := []; futures := [];
     poller := ∅; conns := heap; next_conn := 0%nat; next_future := 0%nat;
     resps := ∅; sockets := listeners; ppid := parent; clock := 0;
     env := e; trace := [] |}.

(** Field updates. *)
Definition set_alive (b : bool) (w : Worker) : Worker :=
  mkWorker (cfg w) (worker_connections w) (max_keepalived w) (max_requests w)
    b (nr w) (nr_conns w) (_keep w) (futures w) (poller w) (conns w)
    (next_conn w) (next_future w) (resps w) (sockets w) (ppid w) (clock w)
    (env w) (trace w).
Definition set_nr (n : Z) (w : Worker) : Worker :=
  mkWorker (cfg w) (worker_connections w) (max_keepalived w) (max_requests w)
    (alive w) n (nr_conns w) (_keep w) (futures w) (poller w) (conns w)
    (next_conn w) (next_future w) (resps w) (sockets w) (ppid w) (clock w)
    (env w) (trace w).
Definition set_nr_conns (n : Z) (w : Worker) : Worker :=
  mkWorker (cfg w) (worker_connections w) (max_keepalived w) (max_requests w)
    (alive w) (nr w) n (_keep w) (futures w) (poller w) (conns w)
    (next_conn w) (next_future w) (resps w) (sockets w) (ppid w) (clock w)
    (env w) (trace w).
Definition set_keep (k : list nat) (w : Worker) : Worker :=
  mkWorker (cfg w) (worker_connections w) (max_keepalived w) (max_requests w)
    (alive w) (nr w) (nr_conns w) k (futures w) (poller w) (conns w)
    (next_conn w) (next_future w) (resps w) (sockets w) (ppid w) (clock w)
    (env w) (trace w).
Definition set_futures (f : list nat) (w : Worker) : Worker :=
  mkWorker (cfg w) (worker_connections w) (max_keepalived w) (max_requests w)
    (alive w) (nr w) (nr_conns w) (_keep w) f (poller w) (conns w)
    (next_conn w) (next_future w) (resps w) (sockets w) (ppid w) (clock w)
    (env w) (trace w).
Definition set_poller (p : gmap nat callback) (w : Worker) : Worker :=
  mkWorker (cfg w) (worker_connections w) (max_keepalived w) (max_requests w)
    (alive w) (nr w) (nr_conns w) (_keep w) (futures w) p (conns w)
    (next_conn w) (next_future w) (resps w) (sockets w) (ppid w) (clock w)
    (env w) (trace w).
Definition set_conns (h : nat -> TConn) (w : Worker) : Worker :=
  mkWorker (cfg w) (worker_connections w) (max_keepalived w) (max_requests w)
    (alive w) (nr w) (nr_conns w) (_keep w) (futures w) (poller w) h
    (next_conn w) (next_future w) (resps w) (sockets w) (ppid w) (clock w)
    (env w) (trace w).
Definition set_next_conn (n : nat) (w : Worker) : Worker :=
  mkWorker (cfg w) (worker_connections w) (max_keepalived w) (max_requests w)
    (alive w) (nr w) (nr_conns w) (_keep w) (futures w) (poller w) (conns w)
    n (next_future w) (resps w) (sockets w) (ppid w) (clock w)
    (env w) (trace w).
Definition set_next_future (n : nat) (w : Worker) : Worker :=
  mkWorker (cfg w) (worker_connections w) (max_keepalived w) (max_requests w)
    (alive w) (nr w) (nr_conns w) (_keep w) (futures w) (poller w) (conns w)
    (next_conn w) n (resps w) (sockets w) (ppid w) (clock w)
    (env w) (trace w).
Definition set_resps (r : gmap nat Response) (w : Worker) : Worker :=
  mkWorker (cfg w) (worker_connections w) (max_keepalived w) (max_requests w)
    (alive w) (nr w) (nr_conns w) (_keep w) (futures w) (poller w) (conns w)
    (next_conn w) (next_future w) r (sockets w) (ppid w) (clock w)
    (env w) (trace w).
Definition set_trace (t : list event) (w : Worker) : Worker :=
  mkWorker (cfg w) (worker_connections w) (max_keepalived w) (max_requests w)
    (alive w) (nr w) (nr_conns w) (_keep w) (futures w) (poller w) (conns w)
    (next_conn w) (next_future w) (resps w) (sockets w) (ppid w) (clock w)
    (env w) t.

(** ** The monad: worker state, Python exceptions, and fuel for loops *)

Inductive result (A : Type) : Type :=
| Ret (a : A)
| Raise (e : exn)
| OutOfFuel.
Arguments Ret {A} a.
Arguments Raise {A} e.
Arguments OutOfFuel {A}.

Definition M (A : Type) : Type := Worker -> result A * Worker.

Definition ret {A} (a : A) : M A := fun w => (Ret a, w).

Definition bind {A B} (m : M A) (k : A -> M B) : M B :=
  fun w =>
    match m w with
    | (Ret a, w') => k a w'
    | (Raise e, w') => (Raise e, w')
    | (OutOfFuel, w') => (OutOfFuel, w')
    end.

Definition raise {A} (e : exn) : M A := fun w => (Raise e, w).

Declare Scope py_scope.
Delimit Scope py_scope with py.
Notation "x <- m ;; k" := (bind m (fun x => k))
  (at level 100, m at next level, right associativity) : py_scope.
Notation "m ;; k" := (bind m (fun _ => k))
  (at level 100, right associativity) : py_scope.
Open Scope py_scope.

Definition get : M Worker := fun w => (Ret w, w).
Definition modify (f : Worker -> Worker) : M unit := fun w => (Ret tt, f w).
Definition emit (e : event) : M unit :=
  modify (fun w => set_trace (trace w ++ [e]) w).

(** [try: m except Exception as e: h e] *)
Definition try_except {A} (m : M A) (h : exn -> M A) : M A :=
  fun w =>
    match m w with
    | (Raise e, w') => h e w'
    | r => r
    end.

(** [try: m finally: f] *)
Definition try_finally {A} (m : M A) (f : M unit) : M A :=
  fun w =>
    match m w with
    | (OutOfFuel, w') => (OutOfFuel, w')
    | (r, w') =>
        match f w' with
        | (Ret _, w'') => (r, w'')
        | (Raise e, w'') => (Raise e, w'')
        | (OutOfFuel, w'') => (OutOfFuel, w'')
        end
    end.

(** [with self._lock: m] *)
Definition with_lock {A} (m : M A) : M A :=
  emit EvAcquire ;; try_finally m (emit EvRelease).

Inductive ctl : Type := Break | Continue.

(** [while True: body], [fuel] iterations at most. *)
Fixpoint while_true (fuel : nat) (body : M ctl) : M unit :=
  match fuel with
  | O => fun w => (OutOfFuel, w)
  | S k => c <- body ;;
           match c with
           | Break => ret tt
           | Continue => while_true k body
           end
  end.

(** ** Primitive operations *)

(** Storing an object at a reference. *)
Definition heap_set (c : nat) (o : TConn) (h : nat -> TConn) : nat -> TConn :=
  fun i => if Nat.eqb i c then o else h i.

(** [self.log.<lvl>(msg)] *)
Definition log (lvl : level) (msg : string) : M unit := emit (EvLog lvl msg).

Definition raise_if (o : option exn) : M unit :=
  match o with
  | Some e => raise e
  | None => ret tt
  end.

(** [for x in l: f x] *)
Fixpoint foreach {A} (l : list A) (f : A -> M unit) : M unit :=
  match l with
  | [] => ret tt
  | x :: k => f x ;; foreach k f
  end.

(** [time.time()] *)
Definition time_time : M Z := w <- get ;; ret (clock w).

(** [self.nr_conns += d] *)
Definition add_nr_conns (d : Z) : M unit :=
  emit (EvNrConns d) ;;
  modify (fun w => set_nr_conns (nr_conns w + d) w).

(** [sock.setblocking(flag)] *)
Definition setblocking (fd : nat) (flag : bool) : M unit :=
  emit (EvSetBlocking fd flag).

(** [self._keep.popleft()]: [IndexError] on an empty deque. *)
Definition keep_popleft : M nat :=
  w <- get ;;
  match _keep w with
  | [] => emit (EvKeepPopLeft None) ;; raise IndexError
  | c :: k => emit (EvKeepPopLeft (Some c)) ;; modify (set_keep k) ;; ret c
  end.

(** [self._keep.appendleft(conn)] *)
Definition keep_appendleft (c : nat) : M unit :=
  emit (EvKeepAppendLeft c) ;;
  modify (fun w => set_keep (c :: _keep w) w).

(** [self._keep.append(conn)] *)
Definition keep_append (c : nat) : M unit :=
  emit (EvKeepAppend c) ;;
  modify (fun w => set_keep (_keep w ++ [c]) w).

Fixpoint remove_first (c : nat) (l : list nat) : option (list nat) :=
  match l with
  | [] => None
  | x :: k => if Nat.eqb x c then Some k
              else match remove_first c k with
                   | Some k' => Some (x :: k')
                   | None => None
                   end
  end.

(** [self._keep.remove(conn)]: linear search by identity, [ValueError]
    when [conn] is not a member. *)
Definition keep_remove (c : nat) : M unit :=
  w <- get ;;
  match remove_first c (_keep w) with
  | Some k => emit (EvKeepRemove c true) ;; modify (set_keep k)
  | None => emit (EvKeepRemove c false) ;; raise ValueError
  end.

(** [self.poller.register(fileobj, EVENT_READ, data)]: whatever the
    selector's system call raises, else [KeyError] for a descriptor that is
    registered already. *)
Definition poller_register (fd : nat) (cb : callback) : M unit :=
  emit (EvRegister fd cb) ;;
  w <- get ;;
  match register_fault (env w) fd with
  | Some e => raise e
  | None =>
      match poller w !! fd with
      | Some _ => raise KeyError
      | None => modify (set_poller (<[fd := cb]> (poller w)))
      end
  end.

(** [self.poller.unregister(fileobj)]: [KeyError] for a descriptor that
    is not registered. *)
Definition poller_unregister (fd : nat) : M unit :=
  emit (EvUnregister fd) ;;
  w <- get ;;
  match unregister_fault (env w) fd with
  | Some e => raise e
  | None =>
      match poller w !! fd with
      | Some _ => modify (set_poller (delete fd (poller w)))
      | None => raise KeyError
      end
  end.

(** Modelled from the spec: [util.close] is not among the sources;
    "close() closes the socket, swallowing already-closed errors", so the
    call is logged and never raises. *)
Definition util_close (fd : nat) : M unit := emit (EvClose fd).

(** [TConn.close]: [util.close(self.sock)] *)
Definition conn_close (c : nat) : M unit :=
  w <- get ;; util_close (sock (conns w c)).

(** [TConn.set_timeout]: [self.timeout = time.time() + self.cfg.keepalive] *)
Definition conn_set_timeout (c : nat) : M unit :=
  now <- time_time ;;
  modify (fun w =>
    let o := conns w c in
    set_conns (heap_set c (mkTConn (sock o) (client o) (server o)
                             (Some (now + cfg_keepalive (cfg w)))
                             (parser o) (initialized o) (ssl_wrapped o))
                 (conns w)) w).

(** ** [ThreadWorker.murder_keepalived] *)

(** The handlers around [self.poller.unregister(conn.sock)]:
    [except OSError as e: if e.errno != errno.EBADF: raise],
    [except KeyError: pass], [except ValueError: pass]. *)
Definition swallow_unregister (e : exn) : M unit :=
  if is_OSError e then
    if errno_in e [Errno.EBADF] then ret tt else raise e
  else
    match e with
    | KeyError => ret tt
    | ValueError => ret tt
    | _ => raise e
    end.

(** One turn of the [while True] loop. *)
Definition murder_body (now : Z) : M ctl :=
  popped <- with_lock
              (try_except (c <- keep_popleft ;; ret (Some c))
                 (fun e => match e with
                           | IndexError => ret None
                           | _ => raise e
                           end)) ;;
  match popped with
  | None => ret Break
  | Some conn =>
      w <- get ;;
      match timeout (conns w conn) with
      | None => raise TypeError
      | Some t =>
          let delta := t - now in
          if 0 <? delta then
            with_lock (keep_appendleft conn) ;;
            ret Break
          else
            add_nr_conns (-1) ;;
            with_lock (try_except (poller_unregister (sock (conns w conn)))
                         swallow_unregister) ;;
            conn_close conn ;;
            ret Continue
      end
  end.

Definition murder_loop (fuel : nat) (now : Z) : M unit :=
  while_true fuel (murder_body now).

Definition murder_keepalived : M unit :=
  now <- time_time ;;
  w <- get ;;
  murder_loop (S (length (_keep w))) now.

(** *** Vocabulary for the statements *)

Definition deadline (w : Worker) (c : nat) : option Z := timeout (conns w c).

Definition expired (now : Z) (w : Worker) (c : nat) : bool :=
  match deadline w c with
  | Some t => t <=? now
  | None => false
  end.

(** The connections at the front of a deque whose deadline has passed. *)
Fixpoint expired_prefix (now : Z) (w : Worker) (l : list nat) : list nat :=
  match l with
  | [] => []
  | c :: k => if expired now w c then c :: expired_prefix now w k else []
  end.

Definition deadlines (w : Worker) (l : list nat) : list Z :=
  omap (deadline w) l.

Definition conn_fd (w : Worker) (c : nat) : nat := sock (conns w c).

(** Whether [murder_keepalived] swallows what [unregister] does on [fd]. *)
Definition tolerated (e : exn) : bool :=
  match e with
  | KeyError | ValueError => true
  | _ => is_OSError e && errno_in e [Errno.EBADF]
  end.

Definition unregister_tolerated (w : Worker) (fd : nat) : bool :=
  match unregister_fault (env w) fd with
  | Some e => tolerated e
  | None => true
  end.

(** Every member of the keepalive deque went through [set_timeout]. *)
Definition keep_timed (w : Worker) : Prop :=
  Forall (fun c => is_Some (deadline w c)) (_keep w).

(** What a run added to the call log. *)
Definition new_events (w w' : Worker) : list event :=
  drop (length (trace w)) (trace w').

Definition closed_fds (evs : list event) : list nat :=
  omap (fun e => match e with EvClose fd => Some fd | _ => None end) evs.

Definition unregistered_fds (evs : list event) : list nat :=
  omap (fun e => match e with EvUnregister fd => Some fd | _ => None end) evs.

Definition popped_conns (evs : list event) : list nat :=
  omap (fun e => match e with EvKeepPopLeft (Some c) => Some c | _ => None end) evs.

(** The number of [popleft] calls, one per turn of the reaper's loop. *)
Definition count_popleft (evs : list event) : nat :=
  length (omap (fun e => match e with EvKeepPopLeft g => Some g | _ => None end) evs).

(** What one reaping turn does to the selector's table. *)
Definition reap_poller (e : Env) (p : gmap nat callback) (fd : nat)
    : gmap nat callback :=
  match unregister_fault e fd with
  | Some _ => p
  | None => delete fd p
  end.

(** The calls of one reaping turn, in order. *)
Definition reap_events (c fd : nat) : list event :=
  [EvAcquire; EvKeepPopLeft (Some c); EvRelease; EvNrConns (-1);
   EvAcquire; EvUnregister fd; EvRelease; EvClose fd].

(** [w1] is [w] after the connections [d] at the front of the deque were
    reaped, [rest] being left. *)
Definition reaped_to (w : Worker) (d rest : list nat) (w1 : Worker) : Prop :=
  _keep w1 = rest /\
  nr_conns w1 = nr_conns w - Z.of_nat (length d) /\
  conns w1 = conns w /\ env w1 = env w /\ alive w1 = alive w /\
  poller w1 = foldl (reap_poller (env w)) (poller w) (map (conn_fd w) d) /\
  trace w1 = trace w ++ concat (map (fun c => reap_events c (conn_fd w c)) d).

(** The calls of the turn that ends the loop: the deque is empty, or its
    head is put back. *)
Definition stop_events (rest : list nat) : list event :=
  match rest with
  | [] => [EvAcquire; EvKeepPopLeft None; EvRelease]
  | c :: _ => [EvAcquire; EvKeepPopLeft (Some c); EvRelease;
               EvAcquire; EvKeepAppendLeft c; EvRelease]
  end.

Definition appendleft_conns (evs : list event) : list nat :=
  omap (fun e => match e with EvKeepAppendLeft c => Some c | _ => None end) evs.

(** ** Connections *)

(** [TConn.__init__]: a new connection object; the socket is set
    non-blocking. *)
Definition new_TConn (fd peer srv : nat) : M nat :=
  w <- get ;;
  let c := next_conn w in
  modify (fun w =>
    set_next_conn (S c)
      (set_conns (heap_set c (mkTConn fd peer srv None false false false)
                    (conns w)) w)) ;;
  setblocking fd false ;;
  ret c.

(** [TConn.init]: marks the connection initialized, sets the socket
    blocking, and on first use wraps the socket when TLS is configured (the
    wrapped socket has the same descriptor) and builds the parser. *)
Definition conn_init (c : nat) : M unit :=
  modify (fun w =>
    let o := conns w c in
    set_conns (heap_set c (mkTConn (sock o) (client o) (server o) (timeout o)
                             (parser o) true (ssl_wrapped o))
                 (conns w)) w) ;;
  w <- get ;;
  setblocking (sock (conns w c)) true ;;
  let o := conns w c in
  if parser o then ret tt
  else
    modify (fun w =>
      set_conns (heap_set c (mkTConn (sock o) (client o) (server o) (timeout o)
                               true (initialized o)
                               (orb (ssl_wrapped o) (cfg_is_ssl (cfg w))))
                   (conns w)) w).

(** ** The executor *)

(** [self.tpool.submit(self.handle, conn)]: a new task handle. *)
Definition tpool_submit (c : nat) : M nat :=
  emit (EvSubmit c) ;;
  w <- get ;;
  modify (set_next_future (S (next_future w))) ;;
  ret (next_future w).

(** [ThreadWorker._wrap_future]: the handle joins [self.futures];
    [finish_request] is its completion callback. *)
Definition _wrap_future (fs : nat) (c : nat) : M unit :=
  modify (fun w => set_futures (futures w ++ [fs]) w).

(** [ThreadWorker.enqueue_req] *)
Definition enqueue_req (c : nat) : M unit :=
  conn_init c ;;
  fs <- tpool_submit c ;;
  _wrap_future fs c.

(** ** [ThreadWorker.accept] *)

Definition accept (srv : nat) (listener : nat) : M unit :=
  try_except
    (emit (EvAccept listener) ;;
     w <- get ;;
     match accept_result (env w) listener with
     | inl e => raise e
     | inr (fd, peer) =>
         conn <- new_TConn fd peer srv ;;
         add_nr_conns 1 ;;
         with_lock (poller_register fd (Readable conn))
     end)
    (fun e =>
       if is_OSError e then
         if errno_in e [Errno.EAGAIN; Errno.ECONNABORTED; Errno.EWOULDBLOCK]
         then ret tt
         else raise e
       else raise e).

(** ** [ThreadWorker.on_client_socket_readable] *)

Definition on_client_socket_readable (conn : nat) (fileobj : nat) : M unit :=
  go <- with_lock
          (poller_unregister fileobj ;;
           w <- get ;;
           if initialized (conns w conn) then
             try_except (keep_remove conn ;; ret true)
               (fun e => match e with
                         | ValueError => ret false
                         | _ => raise e
                         end)
           else ret true) ;;
  if go : bool then enqueue_req conn else ret tt.

(** ** [ThreadWorker.finish_request] *)

Definition finish_request (fs : Future) : M unit :=
  match fut_state fs with
  | Cancelled =>
      add_nr_conns (-1) ;;
      conn_close (fut_conn fs)
  | st =>
      try_except
        (match st with
         | Failed e => raise e
         | Finished keepalive conn =>
             w <- get ;;
             if keepalive && alive w then
               setblocking (sock (conns w conn)) false ;;
               conn_set_timeout conn ;;
               with_lock
                 (keep_append conn ;;
                  poller_register (sock (conns w conn)) (Readable conn))
             else
               add_nr_conns (-1) ;;
               conn_close conn
         | Cancelled => ret tt
         end)
        (fun _ =>
           add_nr_conns (-1) ;;
           conn_close (fut_conn fs))
  end.

(** ** One request turn: [ThreadWorker.handle] and [handle_request] *)

(** What the response-body iterator yields: a chunk (with what
    [resp.write] does on it), or an exception of the application. *)
Inductive body_item : Type :=
| Chunk (data : string) (wr : option exn)
| IterRaise (e : exn).

(** What the application returns: an instance of the file wrapper (with
    what [resp.write_file] does), or an iterable. *)
Inductive respiter : Type :=
| FileWrapper (wr : option exn)
| Body (items : list body_item).

(** The outcomes of the calls a request turn makes outside the worker:
    [next(conn.parser)] (an exception, a request, or [None] for a falsy
    one), the [pre_request] hook, [wsgi.create] (an exception, or a response
    whose own rules ask for a close or not), the application, [resp.close],
    whether the iterator has a [close] and what it does, the [post_request]
    hook. *)
Record Turn : Type := mkTurn {
  parser_next : exn + option nat;
  pre_request_res : option exn;
  create_res : exn + bool;
  wsgi_res : exn + respiter;
  resp_close_res : option exn;
  has_close : bool;
  iter_close_res : option exn;
  post_request_res : option exn
}.

(** Modelled from the spec: the response writer ([gunicorn.http.wsgi]) is
    not among the sources.  It "exposes write(bytes), write_file(file_wrapper),
    start_response, close, force_close, should_close, and a boolean
    headers_sent": [force_close] marks the response as one that must close,
    [should_close] answers true for such a response (and otherwise what the
    response's own rules say), writing sends the headers first. *)
Definition resp_update (conn : nat) (f : Response -> Response) : M unit :=
  modify (fun w =>
    match resps w !! conn with
    | Some r => set_resps (<[conn := f r]> (resps w)) w
    | None => w
    end).

(** Modelled from the spec: [resp.force_close()]. *)
Definition resp_force_close (conn : nat) : M unit :=
  emit (EvForceClose conn) ;;
  resp_update conn (fun r => mkResponse true (headers_sent r) (natural_close r)).

(** Modelled from the spec: the headers go out with the first write. *)
Definition resp_send_headers (conn : nat) : M unit :=
  resp_update conn (fun r => mkResponse (must_close r) true (natural_close r)).

(** Modelled from the spec: [resp.write(item)]. *)
Definition resp_write (conn : nat) (data : string) (wr : option exn) : M unit :=
  emit (EvWrite conn data) ;;
  resp_send_headers conn ;;
  raise_if wr.

(** Modelled from the spec: [resp.write_file(respiter)]. *)
Definition resp_write_file (conn : nat) (wr : option exn) : M unit :=
  emit (EvWriteFile conn) ;;
  resp_send_headers conn ;;
  raise_if wr.

(** Modelled from the spec: [resp.close()]. *)
Definition resp_close (conn : nat) (res : option exn) : M unit :=
  emit (EvRespClose conn) ;;
  resp_send_headers conn ;;
  raise_if res.

(** Modelled from the spec: [resp.should_close()]; on [None] the
    attribute lookup fails. *)
Definition resp_should_close (conn : nat) : M bool :=
  w <- get ;;
  match resps w !! conn with
  | Some r => ret (must_close r || natural_close r)
  | None => raise TypeError
  end.

(** [for item in respiter: resp.write(item)] *)
Fixpoint write_items (conn : nat) (items : list body_item) : M unit :=
  match items with
  | [] => ret tt
  | Chunk data wr :: k => resp_write conn data wr ;; write_items conn k
  | IterRaise e :: _ => raise e
  end.

(** Modelled from the spec: [base.Worker.handle_error] is not among the
    sources; it "writes a protocol-level response if possible" and does not
    raise. *)
Definition handle_error (conn : nat) : M unit := emit (EvHandleError conn).

(** The steps of [handle_request] inside its outer [try], up to the call
    of the application. *)
Definition begin_request (t : Turn) (conn : nat) : M respiter :=
  emit (EvPreRequest conn) ;;
  raise_if (pre_request_res t) ;;
  emit (EvCreate conn) ;;
  match create_res t with
  | inl e => raise e
  | inr nc =>
      modify (fun w => set_resps (<[conn := mkResponse false false nc]> (resps w)) w) ;;
      modify (fun w => set_nr (nr w + 1) w) ;;
      w <- get ;;
      (if max_requests w <=? nr w then
         (if alive w then
            log Info "Autorestarting worker after current request." ;;
            modify (set_alive false)
          else ret tt) ;;
         resp_force_close conn
       else ret tt) ;;
      w <- get ;;
      (if negb (alive w) || (cfg_keepalive (cfg w) =? 0) then
         resp_force_close conn
       else if max_keepalived w <=? Z.of_nat (length (_keep w)) then
         resp_force_close conn
       else ret tt) ;;
      emit (EvApp conn) ;;
      match wsgi_res t with
      | inl e => raise e
      | inr it => ret it
      end
  end.

(** The inner [try ... finally]: the body is written and the response
    closed; on the way out the access record is logged and the iterator
    closed when it has a [close]. *)
Definition send_response (t : Turn) (conn : nat) (it : respiter) : M unit :=
  try_finally
    (match it with
     | FileWrapper wr => resp_write_file conn wr
     | Body items => write_items conn items
     end ;;
     resp_close conn (resp_close_res t))
    (emit (EvAccessLog conn) ;;
     if has_close t then
       emit (EvIterClose conn) ;; raise_if (iter_close_res t)
     else ret tt).

(** The [except OSError] and [except Exception] clauses of
    [handle_request]. *)
Definition request_failed (conn : nat) (e : exn) : M bool :=
  if is_OSError e then raise e
  else
    w <- get ;;
    match resps w !! conn with
    | Some r =>
        if headers_sent r then
          log Exception "Error handling request" ;;
          emit (EvSockShutdown (sock (conns w conn))) ;;
          emit (EvSockClose (sock (conns w conn))) ;;
          raise StopIteration
        else raise e
    | None => raise e
    end.

(** The [finally] clause of [handle_request]. *)
Definition call_post_request (t : Turn) (conn : nat) : M unit :=
  try_except
    (emit (EvPostRequest conn) ;; raise_if (post_request_res t))
    (fun _ => log Exception "Exception in post_request hook").

(** The outer [try] of [handle_request] with its [except] clauses. *)
Definition request_body (t : Turn) (conn : nat) : M bool :=
  try_except
    (it <- begin_request t conn ;;
     send_response t conn it ;;
     sc <- resp_should_close conn ;;
     if sc : bool then
       log Debug "Closing connection." ;;
       ret false
     else ret true)
    (request_failed conn).

Definition handle_request (t : Turn) (req : nat) (conn : nat) : M bool :=
  modify (fun w => set_resps (delete conn (resps w)) w) ;;
  try_finally (request_body t conn) (call_post_request t conn).

(** The [except] clauses of [handle]. *)
Definition turn_failed (conn : nat) (e : exn) : M unit :=
  match e with
  | NoMoreData => log Debug "Ignored premature client disconnection. %s"
  | StopIteration => log Debug "Closing connection. %s"
  | SSLError code =>
      if code =? SSL_ERROR_EOF then
        log Debug "ssl connection closed" ;;
        w <- get ;;
        emit (EvSockClose (sock (conns w conn)))
      else
        log Debug "Error processing SSL request." ;;
        handle_error conn
  | OSError n =>
      if negb (existsb (Z.eqb n) [Errno.EPIPE; Errno.ECONNRESET; Errno.ENOTCONN]) then
        log Exception "Socket error processing request."
      else if n =? Errno.ECONNRESET then
        log Debug "Ignoring connection reset"
      else if n =? Errno.ENOTCONN then
        log Debug "Ignoring socket not connected"
      else
        log Debug "Ignoring connection epipe"
  | _ => handle_error conn
  end.

Definition handle (t : Turn) (conn : nat) : M (bool * nat) :=
  try_except
    (w <- get ;;
     (if parser (conns w conn) then ret tt else raise TypeError) ;;
     match parser_next t with
     | inl e => raise e
     | inr None => ret (false, conn)
     | inr (Some req) =>
         keepalive <- handle_request t req conn ;;
         if keepalive : bool then ret (true, conn) else ret (false, conn)
     end)
    (fun e => turn_failed conn e ;; ret (false, conn)).

(** ** The dispatch loop: [ThreadWorker.run] *)

(** What the world does during one turn of the loop: the environment and
    the clock it leaves, the descriptors [poller.select] reports ready, the
    task handles [futures.wait] reports done, and [os.getppid()]. *)
Record Tick : Type := mkTick {
  tick_env : Env;
  tick_clock : Z;
  ready : list nat;
  completed : list nat;
  getppid : nat
}.

Definition set_world (e : Env) (now : Z) (w : Worker) : Worker :=
  mkWorker (cfg w) (worker_connections w) (max_keepalived w) (max_requests w)
    (alive w) (nr w) (nr_conns w) (_keep w) (futures w) (poller w) (conns w)
    (next_conn w) (next_future w) (resps w) (sockets w) (ppid w) now
    e (trace w).

(** [callback = key.data; callback(key.fileobj)] *)
Definition dispatch (key : nat * callback) : M unit :=
  match snd key with
  | Acceptor srv => accept srv (fst key)
  | Readable conn => on_client_socket_readable conn (fst key)
  end.

(** [self.poller.select(timeout)]: the keys of the ready descriptors
    that are registered. *)
Definition poller_select (timeout_s : Z) (fds : list nat) : M (list (nat * callback)) :=
  emit (EvSelect timeout_s) ;;
  w <- get ;;
  ret (omap (fun fd => match poller w !! fd with
                       | Some cb => Some (fd, cb)
                       | None => None
                       end) fds).

(** [futures.wait(self.futures, timeout, return_when)]: the handles of
    [self.futures] that are done. *)
Definition futures_wait (timeout_s : Z) (first_completed : bool)
    (finished : list nat) : M (list nat) :=
  emit (EvWait timeout_s first_completed) ;;
  w <- get ;;
  ret (List.filter (fun f => existsb (Nat.eqb f) finished) (futures w)).

(** [self.futures.remove(fut)] *)
Definition futures_remove (fut : nat) : M unit :=
  w <- get ;;
  match remove_first fut (futures w) with
  | Some k => modify (set_futures k)
  | None => raise ValueError
  end.

(** [ThreadWorker.is_parent_alive] *)
Definition is_parent_alive (t : Tick) : M bool :=
  w <- get ;;
  if negb (Nat.eqb (ppid w) (getppid t)) then
    log Info "Parent changed, shutting down: %s" ;;
    ret false
  else ret true.

(** One turn of [while self.alive]. *)
Definition run_iteration (t : Tick) : M ctl :=
  modify (set_world (tick_env t) (tick_clock t)) ;;
  emit EvNotify ;;
  w <- get ;;
  result <- (if nr_conns w <? worker_connections w then
               events <- poller_select 1 (ready t) ;;
               foreach events dispatch ;;
               futures_wait 0 true (completed t)
             else
               futures_wait 1 true (completed t)) ;;
  foreach result futures_remove ;;
  parent <- is_parent_alive t ;;
  if negb parent then ret Break
  else
    murder_keepalived ;;
    ret Continue.

(** [while self.alive: ...], one [Tick] for each turn. *)
Fixpoint run_loop (ticks : list Tick) : M unit :=
  fun w =>
    if alive w then
      match ticks with
      | [] => (OutOfFuel, w)
      | t :: ts =>
          (c <- run_iteration t ;;
           match c with
           | Break => ret tt
           | Continue => run_loop ts
           end) w
      end
    else (Ret tt, w).

Definition run (ticks : list Tick) : M unit :=
  w <- get ;;
  foreach (sockets w)
    (fun s =>
       setblocking s false ;;
       w <- get ;;
       poller_register s (Acceptor (sockname (env w) s))) ;;
  run_loop ticks ;;
  emit (EvPoolShutdown false) ;;
  emit EvPollerClose ;;
  w <- get ;;
  foreach (sockets w) (fun s => emit (EvListenerClose s)) ;;
  emit (EvWait (cfg_graceful_timeout (cfg w)) false).

Definition submitted_conns (evs : list event) : list nat :=
  omap (fun e => match e with EvSubmit c => Some c | _ => None end) evs.

Definition logged (evs : list event) : list (level * string) :=
  omap (fun e => match e with EvLog l m => Some (l, m) | _ => None end) evs.

(** *** Vocabulary for the request turn *)

(** [w] with the response of [conn] replaced by [r] and [evs] added to
    the log. *)
Definition resp_world (conn : nat) (r : Response) (evs : list event)
    (w : Worker) : Worker :=
  set_trace (trace w ++ evs) (set_resps (<[conn := r]> (resps w)) w).

Definition sent (r : Response) : Response :=
  mkResponse (must_close r) true (natural_close r).

(** Whether the turn that starts in [w] retires the worker (step 4), and
    whether it force-closes its response (steps 4 and 5). *)
Definition retires (w : Worker) : bool := max_requests w <=? nr w + 1.

Definition keepalive_refused (w : Worker) : bool :=
  negb (alive w && negb (retires w))
  || (cfg_keepalive (cfg w) =? 0)
  || (max_keepalived w <=? Z.of_nat (length (_keep w))).

Definition force_closes (w : Worker) : bool :=
  retires w || keepalive_refused w.

(** The calls of [handle_request] up to and including the call of the
    application, when the hook and [wsgi.create] go through. *)
Definition begin_events (w : Worker) (conn : nat) : list event :=
  [EvPreRequest conn; EvCreate conn]
  ++ (if retires w then
        (if alive w
         then [EvLog Info "Autorestarting worker after current request."]
         else [])
        ++ [EvForceClose conn]
      else [])
  ++ (if keepalive_refused w then [EvForceClose conn] else [])
  ++ [EvApp conn].

(** The worker when the application is called. *)
Definition began (w : Worker) (conn : nat) (nc : bool) : Worker :=
  set_trace (trace w ++ begin_events w conn)
    (set_resps (<[conn := mkResponse (force_closes w) false nc]> (resps w))
       (set_alive (alive w && negb (retires w))
          (set_nr (nr w + 1) w))).

Definition is_write (e : event) : bool :=
  match e with
  | EvWrite _ _ | EvWriteFile _ | EvRespClose _ => true
  | _ => false
  end.

(** What the [finally] clause of [handle_request] adds to the log after
    the call of the hook. *)
Definition post_log (t : Turn) : list event :=
  match post_request_res t with
  | Some _ => [EvLog Exception "Exception in post_request hook"]
  | None => []
  end.

(** The calls between the inner [finally] and the outer one: logging and
    the abrupt close of the socket. *)
Definition is_aftermath (e : event) : bool :=
  match e with
  | EvLog _ _ | EvSockShutdown _ | EvSockClose _ => true
  | _ => false
  end.

(** The same turn with another outcome of the [post_request] hook. *)
Definition set_post_request (o : option exn) (t : Turn) : Turn :=
  mkTurn (parser_next t) (pre_request_res t) (create_res t) (wsgi_res t)
    (resp_close_res t) (has_close t) (iter_close_res t) o.

(** What a request turn leaves alone: the configuration, the limits, the
    connections, the keepalive deque, the selector, the task handles and
    [nr_conns]; [alive] is never set back to true and [nr] grows by one at
    most. *)
Definition turn_frame (w w' : Worker) : Prop :=
  cfg w' = cfg w /\ worker_connections w' = worker_connections w /\
  max_keepalived w' = max_keepalived w /\ max_requests w' = max_requests w /\
  nr_conns w' = nr_conns w /\ _keep w' = _keep w /\ futures w' = futures w /\
  poller w' = poller w /\ conns w' = conns w /\ env w' = env w /\
  (alive w' = true -> alive w = true) /\
  (nr w <= nr w' <= nr w + 1).

(** The calls of [handle_request] before the call of the application. *)
Definition gate_events (w : Worker) (conn : nat) : list event :=
  [EvPreRequest conn; EvCreate conn]
  ++ (if retires w then
        (if alive w
         then [EvLog Info "Autorestarting worker after current request."]
         else [])
        ++ [EvForceClose conn]
      else [])
  ++ (if keepalive_refused w then [EvForceClose conn] else []).



(** The calls by which the dispatcher polls the network and takes
    sockets in: [poller.select], [listener.accept], [poller.register]. *)
Definition admits (e : event) : bool :=
  match e with
  | EvSelect _ | EvAccept _ | EvRegister _ _ => true
  | _ => false
  end.

Definition quiet (evs : list event) : bool :=
  forallb (fun e => negb (admits e)) evs.

(** * The liveness beacon: [gunicorn/workers/workertmp.py] *)

Module WorkerTmp.

(** What [WorkerTmp.__init__] reads of the configuration. *)
Record TmpCfg : Type := mkTmpCfg {
  umask : Z;
  worker_tmp_dir : option string;
  uid : Z;
  gid : Z
}.

(** A directory entry: permission bits and owner. *)
Record Inode : Type := mkInode {
  i_mode : Z;
  i_uid : Z;
  i_gid : Z
}.

(** The calls the constructor makes, in order. *)
Inductive syscall : Type :=
| SysUmask (mask : Z)
| SysIsdir (dir : string)
| SysMkstemp (dir : string) (name : string) (mode : Z)
| SysChown (path : string) (u g : Z)
| SysUnlink (path : string)
| SysFdopen (fd : nat) (mode : string) (buffering : Z)
| SysClose (fd : nat).

(** The process and the file system: the process umask and effective
    ids, the directory entries by path, the open descriptors. *)
Record OS : Type := mkOS {
  os_umask : Z;
  os_euid : Z;
  os_egid : Z;
  os_files : gmap string Inode;
  os_fds : list nat;
  os_calls : list syscall
}.

(** The platform and the outcomes of the calls: [IS_CYGWIN],
    [os.path.isdir], [tempfile.gettempdir()], [os.path.abspath] (which
    reads the current directory), what [tempfile.mkstemp] does (an
    exception, or a descriptor and the random part of the name), and what
    [util.chown], [util.unlink] and [os.fdopen] raise, if anything. *)
Record TmpEnv : Type := mkTmpEnv {
  IS_CYGWIN : bool;
  isdir : string -> bool;
  gettempdir : string;
  abspath : string -> string;
  mkstemp_res : exn + nat * string;
  chown_res : option exn;
  unlink_res : option exn;
  fdopen_res : option exn
}.

(** The file object kept in [self._tmp]. *)
Record FileObj : Type := mkFileObj {
  fileno : nat;
  fmode : string;
  buffering : Z
}.

Record WorkerTmp : Type := mkWorkerTmp { _tmp : FileObj }.

Definition T (A : Type) : Type := OS -> result A * OS.

Definition tbind {A B} (m : T A) (k : A -> T B) : T B :=
  fun s =>
    match m s with
    | (Ret a, s') => k a s'
    | (Raise e, s') => (Raise e, s')
    | (OutOfFuel, s') => (OutOfFuel, s')
    end.

Definition tret {A} (a : A) : T A := fun s => (Ret a, s).
Definition traise {A} (e : exn) : T A := fun s => (Raise e, s).

Definition call (c : syscall) : T unit :=
  fun s => (Ret tt, mkOS (os_umask s) (os_euid s) (os_egid s) (os_files s)
                      (os_fds s) (os_calls s ++ [c])).

Definition traise_if (o : option exn) : T unit :=
  match o with
  | Some e => traise e
  | None => tret tt
  end.

(** [os.umask(mask)]: sets the process umask (nine permission bits) and
    returns the previous one. *)
Definition os_umask_set (mask : Z) : T Z :=
  fun s => (Ret (os_umask s),
            mkOS (Z.land mask 511) (os_euid s) (os_egid s) (os_files s)
              (os_fds s) (os_calls s ++ [SysUmask mask])).

Definition starts_with_slash (p : string) : bool :=
  match p with
  | String c _ => Ascii.eqb c "/"%char
  | EmptyString => false
  end.

Fixpoint ends_with_slash (p : string) : bool :=
  match p with
  | EmptyString => false
  | String c EmptyString => Ascii.eqb c "/"%char
  | String _ rest => ends_with_slash rest
  end.

(** [os.path.join(dir, name)] (posixpath): [name] alone when it is
    absolute; no separator is added after an empty [dir] or one that ends
    with a separator. *)
Definition path_join (dir name : string) : string :=
  if starts_with_slash name then name
  else if String.eqb dir "" || ends_with_slash dir then (dir ++ name)%string
  else (dir ++ "/" ++ name)%string.

(** [tempfile.mkstemp(prefix="wgunicorn-", dir=fdir)]: a new file, mode
    0o600 less the bits of the process umask, in [os.path.abspath] of
    [fdir] or, for [None], of the default directory; an empty [fdir] is the
    current directory.  It returns the descriptor and the path of the file,
    [os.path.join] of that directory and the name. *)
Definition mkstemp (env : TmpEnv) (fdir : option string) : T (nat * string) :=
  fun s =>
    match mkstemp_res env with
    | inl e => (Raise e, s)
    | inr (fd, rnd) =>
        let dir := match fdir with Some d => d | None => gettempdir env end in
        let name := ("wgunicorn-" ++ rnd)%string in
        let path := path_join (abspath env dir) name in
        let mode := Z.ldiff 384 (os_umask s) in
        (Ret (fd, path),
         mkOS (os_umask s) (os_euid s) (os_egid s)
           (<[path := mkInode mode (os_euid s) (os_egid s)]> (os_files s))
           (fd :: os_fds s)
           (os_calls s ++ [SysMkstemp dir name mode]))
    end.

(** Modelled from the spec: [util.chown] and [util.unlink] are not among
    the sources.  The constructor "optionally chowns to the worker uid/gid"
    and "unlinks the path ... so that no directory entry leaks": [chown]
    sets the owner of the entry, [unlink] removes the entry; either may
    raise. *)
Definition util_chown (env : TmpEnv) (path : string) (u g : Z) : T unit :=
  tbind (call (SysChown path u g)) (fun _ =>
  tbind (traise_if (chown_res env)) (fun _ =>
  fun s => (Ret tt,
            mkOS (os_umask s) (os_euid s) (os_egid s)
              (alter (fun i => mkInode (i_mode i) u g) path (os_files s))
              (os_fds s) (os_calls s)))).

(** Modelled from the spec: [util.unlink], see [util_chown]. *)
Definition util_unlink (env : TmpEnv) (path : string) : T unit :=
  tbind (call (SysUnlink path)) (fun _ =>
  tbind (traise_if (unlink_res env)) (fun _ =>
  fun s => (Ret tt,
            mkOS (os_umask s) (os_euid s) (os_egid s)
              (delete path (os_files s)) (os_fds s) (os_calls s)))).

(** [os.fdopen(fd, 'w+b', 0)] *)
Definition os_fdopen (env : TmpEnv) (fd : nat) (mode : string) (buf : Z)
    : T FileObj :=
  tbind (call (SysFdopen fd mode buf)) (fun _ =>
  tbind (traise_if (fdopen_res env)) (fun _ =>
  tret (mkFileObj fd mode buf))).

(** [os.close(fd)] *)
Definition os_close (fd : nat) : T unit :=
  fun s => (Ret tt,
            mkOS (os_umask s) (os_euid s) (os_egid s) (os_files s)
              (List.filter (fun x => negb (Nat.eqb x fd)) (os_fds s))
              (os_calls s ++ [SysClose fd])).

(** Truth value of [fdir]: neither [None] nor the empty string. *)
Definition truthy (fdir : option string) : bool :=
  match fdir with
  | Some d => negb (String.eqb d "")
  | None => false
  end.

(** The second half of [WorkerTmp.__init__], once the file exists and
    the umask is back: the change of owner when the worker runs under other
    ids, then the [try] block (unlink unless on Cygwin, open the descriptor
    unbuffered; on an exception the descriptor is closed and the exception
    raised again). *)
Definition open_beacon (cfg : TmpCfg) (env : TmpEnv) (fd : nat)
    (name : string) : T WorkerTmp :=
  tbind (fun s =>
           if negb (uid cfg =? os_euid s) || negb (gid cfg =? os_egid s)
           then util_chown env name (uid cfg) (gid cfg) s
           else (Ret tt, s)) (fun _ =>
  fun s =>
    match tbind (if IS_CYGWIN env then tret tt else util_unlink env name)
            (fun _ => os_fdopen env fd "w+b" 0) s with
    | (Raise e, s') =>
        match os_close fd s' with
        | (_, s'') => (Raise e, s'')
        end
    | (Ret f, s') => (Ret (mkWorkerTmp f), s')
    | (OutOfFuel, s') => (OutOfFuel, s')
    end).

(** [WorkerTmp.__init__] *)
Definition __init__ (cfg : TmpCfg) (env : TmpEnv) : T WorkerTmp :=
  tbind (os_umask_set (umask cfg)) (fun old_umask =>
  let fdir := worker_tmp_dir cfg in
  tbind (match fdir with
         | Some d =>
             if truthy fdir then
               tbind (call (SysIsdir d)) (fun _ =>
               if isdir env d then tret tt else traise RuntimeError)
             else tret tt
         | None => tret tt
         end) (fun _ =>
  tbind (mkstemp env fdir) (fun '(fd, name) =>
  tbind (os_umask_set old_umask) (fun _ =>
  open_beacon cfg env fd name)))).

(** *** Vocabulary for the statements *)

Definition tmp_dir (cfg : TmpCfg) (env : TmpEnv) : string :=
  match worker_tmp_dir cfg with
  | Some d => d
  | None => gettempdir env
  end.

Definition tmp_path (cfg : TmpCfg) (env : TmpEnv) (rnd : string) : string :=
  path_join (abspath env (tmp_dir cfg env)) ("wgunicorn-" ++ rnd)%string.

(** The mode of a file that [mkstemp] creates under the configured
    umask. *)
Definition tmp_mode (cfg : TmpCfg) : Z := Z.ldiff 384 (Z.land (umask cfg) 511).

Definition needs_chown (cfg : TmpCfg) (s : OS) : bool :=
  negb (uid cfg =? os_euid s) || negb (gid cfg =? os_egid s).

Definition isdir_calls (cfg : TmpCfg) : list syscall :=
  match worker_tmp_dir cfg with
  | Some d => if truthy (Some d) then [SysIsdir d] else []
  | None => []
  end.

Definition chown_calls (cfg : TmpCfg) (s : OS) (path : string) : list syscall :=
  if needs_chown cfg s then [SysChown path (uid cfg) (gid cfg)] else [].

(** The process and the file system once [mkstemp] has made the file
    with descriptor [fd] and the umask is restored. *)
Definition created (cfg : TmpCfg) (env : TmpEnv) (fd : nat) (rnd : string)
    (s : OS) : OS :=
  mkOS (os_umask s) (os_euid s) (os_egid s)
    (<[tmp_path cfg env rnd := mkInode (tmp_mode cfg) (os_euid s) (os_egid s)]>
       (os_files s))
    (fd :: os_fds s)
    (os_calls s ++ [SysUmask (umask cfg)] ++ isdir_calls cfg
     ++ [SysMkstemp (tmp_dir cfg env) ("wgunicorn-" ++ rnd)%string (tmp_mode cfg);
         SysUmask (os_umask s)]).

(** The configured directory, when one is given, exists. *)
Definition dir_ok (cfg : TmpCfg) (env : TmpEnv) : Prop :=
  forall d, worker_tmp_dir cfg = Some d -> truthy (Some d) = true ->
            isdir env d = true.

End WorkerTmp.

(** * Sample inputs *)

(** threads=4, worker_connections=8, keepalive=5. *)
Definition sample_cfg : Cfg := mkCfg 8 4 5 false 30.

Definition sample_env : Env :=
  mkEnv (fun _ => None) (fun _ => None)
    (fun _ => inl (OSError Errno.EAGAIN)) (fun fd => fd).

(** Connection [c] has socket [100 + c] and deadline [10 * c]; all were
    initialized by an earlier turn. *)
Definition sample_heap : nat -> TConn :=
  fun c => mkTConn (100 + c) c 5 (Some (10 * Z.of_nat c)) true true false.

(** A worker with three idle keepalive connections, at time 25. *)
Definition sample_worker : Worker :=
  {| cfg := sample_cfg;
     worker_connections := 8; max_keepalived := 4; max_requests := 1000;
     alive := true; nr := 0; nr_conns := 3;
     _keep := [1; 2; 3]%nat; futures := [];
     poller := <[5%nat := Acceptor 5]>
                 (<[101%nat := Readable 1]>
                    (<[102%nat := Readable 2]>
                       (<[103%nat := Readable 3]> ∅)));
     conns := sample_heap; next_conn := 4%nat; next_future := 0%nat;
     resps := ∅; sockets := [5%nat]; ppid := 1%nat; clock := 25;
     env := sample_env; trace := [] |}.

(** The same worker with [worker_connections] connections. *)
Definition saturated_worker : Worker := set_nr_conns 8 sample_worker.


Definition sample_tick : Tick := mkTick sample_env 25 [5%nat] [] 1%nat.


(** A turn whose iterator raises after the first chunk, with a
    [post_request] hook that raises too. *)
Definition turn_broken : Turn :=
  mkTurn (inr (Some 0%nat)) None (inr false)
    (inr (Body [Chunk "he" None; IterRaise (OtherError "boom")]))
    None true None (Some (OtherError "hook")).

Definition failed_future : Future := mkFuture 0 2 (Failed (OtherError "boom")).

Definition beacon_cfg : WorkerTmp.TmpCfg :=
  WorkerTmp.mkTmpCfg 18 (Some "/run/gunicorn") 33 33.

Definition beacon_env : WorkerTmp.TmpEnv :=
  WorkerTmp.mkTmpEnv false (fun _ => true) "/tmp" (fun p => p)
    (inr (7%nat, "k3x9")) None None None.

Definition beacon_os : WorkerTmp.OS := WorkerTmp.mkOS 2 0 0 ∅ [] [].

(** An empty [worker_tmp_dir], the worker running under the process's
    own ids, in the current directory [/srv/app]. *)
Definition beacon_cfg_cwd : WorkerTmp.TmpCfg :=
  WorkerTmp.mkTmpCfg 18 (Some ""%string) 0 0.

Definition beacon_env_cwd : WorkerTmp.TmpEnv :=
  WorkerTmp.mkTmpEnv false (fun _ => false) "/tmp"
    (fun p => if String.eqb p "" then "/srv/app"%string else p)
    (inr (7%nat, "k3x9")) None None None.

(** The same platform, where the configured directory does not exist. *)
Definition beacon_env_missing : WorkerTmp.TmpEnv :=
  WorkerTmp.mkTmpEnv false (fun _ => false) "/tmp" (fun p => p)
    (inr (7%nat, "k3x9")) None None None.

(** * Further vocabulary: the keepalive deque and the selector together *)

(** The keepalive deque and the selector's table agree: no connection is
    twice in the deque; every member has a deadline, was initialized, and
    its socket is registered with its own readable callback; and a readable
    callback in the table sits at the socket of its connection, which is one
    the worker has built. *)
Definition coherent (w : Worker) : Prop :=
  NoDup (_keep w) /\
  (forall c, c ∈ _keep w ->
     is_Some (deadline w c) /\ initialized (conns w c) = true /\
     poller w !! conn_fd w c = Some (Readable c)) /\
  (forall fd c, poller w !! fd = Some (Readable c) ->
     conn_fd w c = fd /\ (c < next_conn w)%nat).

(** The calls of the shutdown sequence of [run]. *)
Definition is_shutdown (e : event) : bool :=
  match e with
  | EvPoolShutdown _ | EvPollerClose | EvListenerClose _ => true
  | _ => false
  end.

Definition calm (evs : list event) : bool :=
  forallb (fun e => negb (is_shutdown e)) evs.

(** What a turn of the dispatch loop leaves alone; it only adds [evs] to
    the log, none of it a call of the shutdown sequence. *)
Definition loop_frame (w w' : Worker) (evs : list event) : Prop :=
  cfg w' = cfg w /\ worker_connections w' = worker_connections w /\
  sockets w' = sockets w /\ ppid w' = ppid w /\ alive w' = alive w /\
  (next_conn w <= next_conn w')%nat /\
  trace w' = trace w ++ evs /\ calm evs = true.

(** The same for one operation of the dispatcher, which also leaves the
    environment and the clock as they are. *)
Definition dispatcher_frame (w w' : Worker) (evs : list event) : Prop :=
  loop_frame w w' evs /\ env w' = env w /\ clock w' = clock w.

(** Calls of the reaper: [popleft] on the deque, closing a connection. *)
Definition is_reap (e : event) : bool :=
  match e with
  | EvKeepPopLeft _ | EvKeepAppendLeft _ | EvClose _ => true
  | _ => false
  end.

Definition reapless (evs : list event) : bool :=
  forallb (fun e => negb (is_reap e)) evs.

(** The fields of a connection the agreement looks at. *)
Definition same_conn (o o' : TConn) : Prop :=
  sock o' = sock o /\ timeout o' = timeout o /\
  (initialized o = true -> initialized o' = true).

(** The keys [poller.select] hands to the loop. *)
Definition selected (w : Worker) (fds : list nat) : list (nat * callback) :=
  omap (fun fd => match poller w !! fd with
                  | Some cb => Some (fd, cb)
                  | None => None
                  end) fds.

Definition is_acceptor (key : nat * callback) : bool :=
  match snd key with
  | Acceptor _ => true
  | Readable _ => false
  end.

(** The number of ready listeners. *)
Definition ready_listeners (w : Worker) (fds : list nat) : nat :=
  length (List.filter is_acceptor (selected w fds)).

(** The shutdown sequence of [run]. *)
Definition shutdown_events (w : Worker) : list event :=
  [EvPoolShutdown false; EvPollerClose]
  ++ map EvListenerClose (sockets w)
  ++ [EvWait (cfg_graceful_timeout (cfg w)) false].


(** Deadlines in the order of the deque, none later than a keepalive
    interval from now. *)
Definition timeline (w : Worker) : Prop :=
  keep_timed w /\
  Sorted Z.le (deadlines w (_keep w)) /\
  Forall (fun d => d <= clock w + cfg_keepalive (cfg w)) (deadlines w (_keep w)).

(** *** Further sample inputs and vocabulary *)

(** A task whose turn asked to keep connection 0 alive. *)
Definition keepalive_future : Future := mkFuture 0 0 (Finished true 0%nat).

(** A turn of the loop in which the parent process has changed. *)
Definition orphan_tick : Tick := mkTick sample_env 25 [5%nat] [] 2%nat.

(** A platform on which [poller.register] fails. *)
Definition faulty_env : Env :=
  mkEnv (fun _ => Some (OSError Errno.EBADF)) (fun _ => None)
    (fun _ => inl (OSError Errno.EAGAIN)) (fun fd => fd).

(** A worker whose selector cannot take a registration, with an empty
    keepalive deque. *)
Definition faulty_worker : Worker :=
  mkWorker sample_cfg 8 4 1000 true 0 1 [] [] ∅ sample_heap 4%nat 0%nat ∅
    [5%nat] 1%nat 25 faulty_env [].


(** A worker as [__init__] leaves it. *)
Definition fresh_worker : Worker :=
  init_worker sample_cfg 1000 [5%nat] 1%nat sample_heap sample_env.

(** [w'] is [w] after calls that took connections out of the keepalive
    deque at most, made new connection objects at most, and left the
    socket and the deadline of every connection the worker had. *)
Definition settled (w w' : Worker) : Prop :=
  sublist (_keep w') (_keep w) /\
  (next_conn w <= next_conn w')%nat /\
  (forall c, (c < next_conn w)%nat -> same_conn (conns w c) (conns w' c)) /\
  cfg w' = cfg w /\ clock w' = clock w.

(** A computation that leaves every worker settled. *)
Definition keeps {A} (m : M A) : Prop := forall w, settled w (snd (m w)).

(** Platforms on which one call of the constructor fails: [mkstemp],
    [util.chown], [util.unlink], [os.fdopen]. *)
Definition beacon_env_nofile : WorkerTmp.TmpEnv :=
  WorkerTmp.mkTmpEnv false (fun _ => true) "/tmp" (fun p => p)
    (inl (OSError 13)) None None None.

Definition beacon_env_chown : WorkerTmp.TmpEnv :=
  WorkerTmp.mkTmpEnv false (fun _ => true) "/tmp" (fun p => p) (inr (7%nat, "k3x9"))
    (Some (OSError 1)) None None.

Definition beacon_env_unlink : WorkerTmp.TmpEnv :=
  WorkerTmp.mkTmpEnv false (fun _ => true) "/tmp" (fun p => p) (inr (7%nat, "k3x9"))
    None (Some (OSError 13)) None.

(* ================================================================== *)
(** * Theorems *)

Ltac run :=
  unfold with_lock, try_except, try_finally, bind, get, emit, modify, ret,
    raise, time_time, add_nr_conns, setblocking, keep_popleft,
    keep_appendleft, keep_append, conn_close, util_close, poller_register,
    poller_unregister;
  cbn -[delete insert lookup Z.add Z.sub Z.ltb Z.leb].

Lemma worker_ext (a b : Worker) :
  cfg a = cfg b -> worker_connections a = worker_connections b ->
  max_keepalived a = max_keepalived b -> max_requests a = max_requests b ->
  alive a = alive b -> nr a = nr b -> nr_conns a = nr_conns b ->
  _keep a = _keep b -> futures a = futures b -> poller a = poller b ->
  conns a = conns b -> next_conn a = next_conn b ->
  next_future a = next_future b -> resps a = resps b ->
  sockets a = sockets b -> ppid a = ppid b -> clock a = clock b ->
  env a = env b -> trace a = trace b -> a = b.
Proof. destruct a, b; cbn; intros; subst; reflexivity. Qed.

Lemma delete_absent (p : gmap nat callback) (fd : nat) :
  p !! fd = None -> delete fd p = p.
Proof. intros H. apply map_eq. intros i. rewrite lookup_delete. case_decide; subst; auto. Qed.

Lemma murder_body_empty now w :
  _keep w = [] ->
  murder_body now w =
    (Ret Break, set_trace (trace w ++ [EvAcquire; EvKeepPopLeft None; EvRelease]) w).
Proof.
  intros Hk. unfold murder_body. run. rewrite Hk. run.
  rewrite <- !app_assoc. reflexivity.
Qed.

Lemma murder_body_stop now w c k t :
  _keep w = c :: k -> timeout (conns w c) = Some t -> now < t ->
  murder_body now w =
    (Ret Break,
     set_trace (trace w ++ [EvAcquire; EvKeepPopLeft (Some c); EvRelease;
                            EvAcquire; EvKeepAppendLeft c; EvRelease]) w).
Proof.
  intros Hk Ht Hlt. unfold murder_body. run. rewrite Hk. run. rewrite Ht.
  replace (0 <? t - now) with true by (symmetry; apply Z.ltb_lt; lia).
  run. rewrite <- !app_assoc. cbn. rewrite <- Hk. destruct w; reflexivity.
Qed.

Lemma murder_body_reap now w c k t :
  _keep w = c :: k -> timeout (conns w c) = Some t -> t <= now ->
  unregister_tolerated w (conn_fd w c) = true ->
  murder_body now w =
    (Ret Continue,
     set_trace (trace w ++ reap_events c (conn_fd w c))
       (set_poller (reap_poller (env w) (poller w) (conn_fd w c))
          (set_nr_conns (nr_conns w + -1) (set_keep k w)))).
Proof.
  intros Hk Ht Hle Htol. unfold murder_body. run. rewrite Hk. run. rewrite Ht.
  replace (0 <? t - now) with false by (symmetry; apply Z.ltb_ge; lia).
  run. unfold unregister_tolerated, conn_fd in Htol.
  unfold reap_poller, reap_events, conn_fd.
  destruct (unregister_fault (env w) (sock (conns w c))) as [e|] eqn:Hf.
  - unfold swallow_unregister.
    destruct e; cbn in Htol; try discriminate; cbn;
      try (unfold errno_in in *; cbn in *; rewrite Htol);
      run; rewrite <- !app_assoc; reflexivity.
  - destruct (poller w !! sock (conns w c)) eqn:Hp; run.
    + rewrite <- !app_assoc. reflexivity.
    + rewrite delete_absent by exact Hp. rewrite <- !app_assoc. reflexivity.
Qed.

Lemma murder_body_fatal now w c k t e :
  _keep w = c :: k -> timeout (conns w c) = Some t -> t <= now ->
  unregister_fault (env w) (conn_fd w c) = Some e -> tolerated e = false ->
  murder_body now w =
    (Raise e,
     set_trace (trace w ++ [EvAcquire; EvKeepPopLeft (Some c); EvRelease;
                            EvNrConns (-1); EvAcquire;
                            EvUnregister (conn_fd w c); EvRelease])
       (set_nr_conns (nr_conns w + -1) (set_keep k w))).
Proof.
  intros Hk Ht Hle Hf Htol. unfold murder_body. run. rewrite Hk. run. rewrite Ht.
  replace (0 <? t - now) with false by (symmetry; apply Z.ltb_ge; lia).
  run. unfold conn_fd in *. rewrite Hf. unfold swallow_unregister.
  destruct e; cbn in Htol; try discriminate; cbn;
    try (unfold errno_in in *; cbn in *; rewrite Htol);
    run; rewrite <- !app_assoc; reflexivity.
Qed.

Lemma expired_deadline now w c :
  expired now w c = true -> exists t, timeout (conns w c) = Some t /\ t <= now.
Proof.
  unfold expired, deadline. destruct (timeout (conns w c)) as [t|]; [|discriminate].
  intros H. exists t. split; [reflexivity|]. apply Z.leb_le. exact H.
Qed.

Lemma murder_loop_prefix now (d : list nat) :
  forall (w : Worker) (rest : list nat) (fuel : nat),
    _keep w = d ++ rest ->
    Forall (fun c => expired now w c = true) d ->
    Forall (fun c => unregister_tolerated w (conn_fd w c) = true) d ->
    exists w1, murder_loop (length d + fuel) now w = murder_loop fuel now w1
               /\ reaped_to w d rest w1.
Proof.
  induction d as [|c d IH]; intros w rest fuel Hk Hexp Htol.
  - exists w. split; [reflexivity|].
    unfold reaped_to. cbn. rewrite app_nil_r. repeat split; auto. lia.
  - inversion Hexp as [|? ? Hc Hexp']; subst.
    inversion Htol as [|? ? Htc Htol']; subst.
    destruct (expired_deadline _ _ _ Hc) as (t & Ht & Hle).
    set (w0 := set_trace (trace w ++ reap_events c (conn_fd w c))
                 (set_poller (reap_poller (env w) (poller w) (conn_fd w c))
                    (set_nr_conns (nr_conns w + -1) (set_keep (d ++ rest) w)))).
    destruct (IH w0 rest fuel) as (w1 & Hrun & Hr); [reflexivity|exact Hexp'|exact Htol'|].
    exists w1. split.
    + cbn [length Nat.add]. unfold murder_loop in *. cbn [while_true].
      unfold bind at 1. rewrite (murder_body_reap now w c (d ++ rest) t Hk Ht Hle Htc).
      exact Hrun.
    + destruct Hr as (H1 & H2 & H3 & H4 & H5 & H6 & H7).
      unfold reaped_to.
      split; [exact H1|]. split; [rewrite H2; cbn; lia|].
      split; [exact H3|]. split; [exact H4|]. split; [exact H5|].
      split; [rewrite H6; reflexivity|].
      rewrite H7. cbn [map concat]. subst w0. cbn [trace set_trace].
      rewrite <- app_assoc. reflexivity.
Qed.

Lemma expired_prefix_split now w (l : list nat) :
  l = expired_prefix now w l ++ drop (length (expired_prefix now w l)) l /\
  Forall (fun c => expired now w c = true) (expired_prefix now w l) /\
  match drop (length (expired_prefix now w l)) l with
  | [] => True
  | c :: _ => expired now w c = false
  end.
Proof.
  induction l as [|c l IH]; cbn.
  - repeat split; constructor.
  - destruct (expired now w c) eqn:Hc; cbn.
    + destruct IH as (H1 & H2 & H3). repeat split; auto. congruence.
    + repeat split; auto.
Qed.

Lemma closed_fds_reap (f : nat -> nat) (d : list nat) :
  closed_fds (concat (map (fun c => reap_events c (f c)) d)) = map f d.
Proof. induction d as [|c d IH]; cbn; [reflexivity|]. f_equal. exact IH. Qed.

Lemma unregistered_fds_reap (f : nat -> nat) (d : list nat) :
  unregistered_fds (concat (map (fun c => reap_events c (f c)) d)) = map f d.
Proof. induction d as [|c d IH]; cbn; [reflexivity|]. f_equal. exact IH. Qed.

Lemma popped_conns_reap (f : nat -> nat) (d : list nat) :
  popped_conns (concat (map (fun c => reap_events c (f c)) d)) = d.
Proof. induction d as [|c d IH]; cbn; [reflexivity|]. f_equal. exact IH. Qed.

Lemma count_popleft_reap (f : nat -> nat) (d : list nat) :
  count_popleft (concat (map (fun c => reap_events c (f c)) d)) = length d.
Proof.
  unfold count_popleft.
  induction d as [|c d IH]; cbn; [reflexivity|]. f_equal. exact IH.
Qed.

Lemma reap_poller_other e (fds : list nat) :
  forall (p : gmap nat callback) (fd : nat),
    fd ∉ fds -> foldl (reap_poller e) p fds !! fd = p !! fd.
Proof.
  induction fds as [|x fds IH]; intros p fd Hn; cbn; [reflexivity|].
  rewrite IH by (intros Hin; apply Hn; right; exact Hin).
  unfold reap_poller. destruct (unregister_fault e x); [reflexivity|].
  apply lookup_delete_ne. intros ->. apply Hn. left.
Qed.

Lemma reap_poller_absent e (fds : list nat) :
  forall (p : gmap nat callback) (fd : nat),
    p !! fd = None -> foldl (reap_poller e) p fds !! fd = None.
Proof.
  induction fds as [|x fds IH]; intros p fd Hp; cbn; [exact Hp|].
  apply IH. unfold reap_poller. destruct (unregister_fault e x); [exact Hp|].
  rewrite lookup_delete. case_decide; auto.
Qed.

Lemma reap_poller_gone e (fds : list nat) :
  forall (p : gmap nat callback) (fd : nat),
    fd ∈ fds -> unregister_fault e fd = None ->
    foldl (reap_poller e) p fds !! fd = None.
Proof.
  induction fds as [|x fds IH]; intros p fd Hin Hf; cbn.
  - inversion Hin.
  - destruct (decide (x = fd)) as [->|Hne].
    + apply reap_poller_absent. unfold reap_poller. rewrite Hf.
      apply lookup_delete_eq.
    + apply IH; [|exact Hf]. inversion Hin; subst; [congruence|assumption].
Qed.

Lemma Sorted_app_l (l1 l2 : list Z) : Sorted Z.le (l1 ++ l2) -> Sorted Z.le l1.
Proof.
  induction l1 as [|a l1 IH]; cbn; intros H; [constructor|].
  inversion H as [|? ? Hs Hh]; subst. constructor; [apply IH; exact Hs|].
  destruct l1; cbn in *; [constructor|]. inversion Hh; subst. constructor. assumption.
Qed.

Lemma Sorted_app_r (l1 l2 : list Z) : Sorted Z.le (l1 ++ l2) -> Sorted Z.le l2.
Proof.
  induction l1 as [|a l1 IH]; cbn; intros H; [exact H|].
  apply IH. inversion H; assumption.
Qed.

Lemma tolerated_spec (e : exn) :
  tolerated e = true <->
  e = KeyError \/ e = ValueError \/
  (is_OSError e = true /\ errno_of e = Some Errno.EBADF).
Proof.
  split.
  - destruct e; cbn; try discriminate; auto; unfold errno_in; cbn;
      rewrite orb_false_r; intros H; apply Z.eqb_eq in H; subst; auto.
  - intros [->|[->|[H1 H2]]]; [reflexivity|reflexivity|].
    destruct e; cbn in *; try discriminate; inversion H2; reflexivity.
Qed.

Lemma new_events_app (w w' : Worker) (evs : list event) :
  trace w' = trace w ++ evs -> new_events w w' = evs.
Proof. intros H. unfold new_events. rewrite H. apply drop_app_length. Qed.

Lemma murder_keepalived_unfold (w : Worker) :
  murder_keepalived w = murder_loop (S (length (_keep w))) (clock w) w.
Proof. reflexivity. Qed.

Lemma murder_keepalived_ok (w : Worker) (dead rest : list nat) :
  _keep w = dead ++ rest ->
  Forall (fun c => expired (clock w) w c = true) dead ->
  Forall (fun c => unregister_tolerated w (conn_fd w c) = true) dead ->
  match rest with
  | [] => True
  | c :: _ => exists t, timeout (conns w c) = Some t /\ clock w < t
  end ->
  exists w',
    murder_keepalived w = (Ret tt, w') /\
    _keep w' = rest /\
    nr_conns w' = nr_conns w - Z.of_nat (length dead) /\
    poller w' = foldl (reap_poller (env w)) (poller w) (map (conn_fd w) dead) /\
    new_events w w' =
      concat (map (fun c => reap_events c (conn_fd w c)) dead) ++ stop_events rest.
Proof.
  intros Hk Hexp Htol Hrest.
  destruct (murder_loop_prefix (clock w) dead w rest (S (length rest)) Hk Hexp Htol)
    as (w1 & Hrun & (H1 & H2 & H3 & H4 & H5 & H6 & H7)).
  assert (Hfuel : S (length (_keep w)) = (length dead + S (length rest))%nat)
    by (rewrite Hk, length_app; lia).
  rewrite murder_keepalived_unfold, Hfuel, Hrun.
  unfold murder_loop. cbn [while_true]. unfold bind at 1.
  destruct rest as [|c rest].
  - rewrite (murder_body_empty _ _ H1). cbn [ret].
    eexists. split; [reflexivity|]. cbn -[new_events reap_events].
    split; [exact H1|]. split; [exact H2|]. split; [exact H6|].
    apply new_events_app. cbn [trace set_trace]. rewrite H7, <- app_assoc. reflexivity.
  - destruct Hrest as (t & Ht & Hlt).
    rewrite (murder_body_stop _ w1 c rest t H1); [|rewrite H3; exact Ht|exact Hlt].
    cbn [ret]. eexists. split; [reflexivity|]. cbn -[new_events reap_events].
    split; [exact H1|]. split; [exact H2|]. split; [exact H6|].
    apply new_events_app. cbn [trace set_trace]. rewrite H7, <- app_assoc. reflexivity.
Qed.

Lemma murder_keepalived_fatal (w : Worker) (d1 : list nat) (c : nat)
    (rest : list nat) (e : exn) :
  _keep w = d1 ++ c :: rest ->
  Forall (fun c => expired (clock w) w c = true) (d1 ++ [c]) ->
  Forall (fun c => unregister_tolerated w (conn_fd w c) = true) d1 ->
  unregister_fault (env w) (conn_fd w c) = Some e -> tolerated e = false ->
  exists w',
    murder_keepalived w = (Raise e, w') /\
    _keep w' = rest /\
    nr_conns w' = nr_conns w - Z.of_nat (length d1) - 1 /\
    closed_fds (new_events w w') = map (conn_fd w) d1 /\
    unregistered_fds (new_events w w') = map (conn_fd w) (d1 ++ [c]).
Proof.
  intros Hk Hexp Htol Hf He.
  apply Forall_app in Hexp. destruct Hexp as [Hexp Hc].
  inversion Hc as [|? ? Hc' _]; subst.
  destruct (expired_deadline _ _ _ Hc') as (t & Ht & Hle).
  destruct (murder_loop_prefix (clock w) d1 w (c :: rest) (S (length rest)) Hk Hexp Htol)
    as (w1 & Hrun & (H1 & H2 & H3 & H4 & H5 & H6 & H7)).
  assert (Hfuel : S (length (_keep w)) = (length d1 + S (S (length rest)))%nat)
    by (rewrite Hk, length_app; cbn; lia).
  rewrite murder_keepalived_unfold, Hfuel.
  destruct (murder_loop_prefix (clock w) d1 w (c :: rest) (S (S (length rest))) Hk Hexp Htol)
    as (w2 & Hrun2 & (G1 & G2 & G3 & G4 & G5 & G6 & G7)).
  rewrite Hrun2. unfold murder_loop. cbn [while_true]. unfold bind at 1.
  rewrite (murder_body_fatal _ w2 c rest t e G1);
    [|rewrite G3; exact Ht|exact Hle|unfold conn_fd; rewrite G4, G3; exact Hf|exact He].
  eexists. split; [reflexivity|]. cbn -[new_events reap_events closed_fds unregistered_fds].
  split; [reflexivity|]. split; [rewrite G2; lia|].
  erewrite new_events_app;
    [|cbn [trace set_trace]; rewrite G7, <- app_assoc; reflexivity].
  unfold closed_fds, unregistered_fds. rewrite !omap_app.
  fold (closed_fds (concat (map (fun c => reap_events c (conn_fd w c)) d1))).
  fold (unregistered_fds (concat (map (fun c => reap_events c (conn_fd w c)) d1))).
  rewrite closed_fds_reap, unregistered_fds_reap. cbn.
  rewrite app_nil_r, map_app. unfold conn_fd. rewrite G3. split; reflexivity.
Qed.

Lemma sorted_rest_unexpired now w (rest : list nat) :
  Forall (fun c => is_Some (deadline w c)) rest ->
  Sorted Z.le (deadlines w rest) ->
  match rest with [] => True | c :: _ => expired now w c = false end ->
  Forall (fun c => expired now w c = false) rest.
Proof.
  induction rest as [|c r IH]; intros Ht Hs Hh; [constructor|].
  inversion Ht as [|? ? [t Hc] Ht']; subst.
  constructor; [exact Hh|]. apply IH; [exact Ht'| |].
  - unfold deadlines in *. cbn in Hs. rewrite Hc in Hs. cbn in Hs.
    inversion Hs; assumption.
  - destruct r as [|c2 r]; [exact I|].
    inversion Ht' as [|? ? [t2 Hc2] _]; subst.
    unfold deadlines in Hs. cbn in Hs. rewrite Hc, Hc2 in Hs. cbn in Hs.
    inversion Hs as [|? ? _ Hrel]; subst. inversion Hrel; subst.
    unfold expired in *. rewrite Hc in Hh. rewrite Hc2.
    apply Z.leb_gt. apply Z.leb_gt in Hh. lia.
Qed.

(** C1.  [murder_keepalived] reaps the front of the keepalive deque: with
    [dead] the connections at the front whose deadline is at most [now]
    and [rest] what follows (its head, if any, has a later deadline), and
    as long as [unregister] only raises what the reaper swallows (EBADF,
    KeyError, ValueError), it returns with the deque equal to [rest] (the
    unexpired head was popped and put back at the front), [nr_conns]
    lowered by the number of reaped connections, each of them
    unregistered and closed, in deque order; an [unregister] error that is
    not swallowed leaves the reaper as that exception; and when the deque
    is ordered by deadline the reaped deadlines are non-decreasing and
    nothing expired is left. *)
Theorem murder_keepalived_reaps (w : Worker) :
  keep_timed w ->
  let now := clock w in
  let dead := expired_prefix now w (_keep w) in
  let rest := drop (length dead) (_keep w) in
  _keep w = dead ++ rest /\
  Forall (fun c => exists t, deadline w c = Some t /\ t <= now) dead /\
  match rest with
  | [] => True
  | c :: _ => exists t, deadline w c = Some t /\ now < t
  end /\
  (forall e, tolerated e = true <->
             e = KeyError \/ e = ValueError \/
             (is_OSError e = true /\ errno_of e = Some Errno.EBADF)) /\
  (Forall (fun c => unregister_tolerated w (conn_fd w c) = true) dead ->
   exists w',
     murder_keepalived w = (Ret tt, w') /\
     _keep w' = rest /\
     nr_conns w' = nr_conns w - Z.of_nat (length dead) /\
     popped_conns (new_events w w') = dead ++ take 1 rest /\
     appendleft_conns (new_events w w') = take 1 rest /\
     unregistered_fds (new_events w w') = map (conn_fd w) dead /\
     closed_fds (new_events w w') = map (conn_fd w) dead /\
     (forall c, c ∈ dead -> unregister_fault (env w) (conn_fd w c) = None ->
                poller w' !! conn_fd w c = None) /\
     (forall fd, fd ∉ map (conn_fd w) dead -> poller w' !! fd = poller w !! fd)) /\
  (forall d1 c d2 e,
     dead = d1 ++ c :: d2 ->
     Forall (fun c => unregister_tolerated w (conn_fd w c) = true) d1 ->
     unregister_fault (env w) (conn_fd w c) = Some e -> tolerated e = false ->
     exists w',
       murder_keepalived w = (Raise e, w') /\
       _keep w' = d2 ++ rest /\
       nr_conns w' = nr_conns w - Z.of_nat (length d1) - 1 /\
       closed_fds (new_events w w') = map (conn_fd w) d1) /\
  (Sorted Z.le (deadlines w (_keep w)) ->
   Sorted Z.le (deadlines w dead) /\
   Forall (fun c => expired now w c = false) rest).
Proof.
  intros Htimed now dead rest.
  destruct (expired_prefix_split now w (_keep w)) as (Hsplit & Hexp & Hhead).
  fold dead in Hsplit, Hexp, Hhead. fold rest in Hsplit, Hhead.
  assert (Hrest_timed : Forall (fun c => is_Some (deadline w c)) rest).
  { unfold keep_timed in Htimed. rewrite Hsplit in Htimed.
    apply Forall_app in Htimed. tauto. }
  assert (Hrest : match rest with
                  | [] => True
                  | c :: _ => exists t, timeout (conns w c) = Some t /\ now < t
                  end).
  { destruct rest as [|c r]; [exact I|].
    inversion Hrest_timed as [|? ? [t Hc] _]; subst. exists t. split; [exact Hc|].
    unfold expired in Hhead. rewrite Hc in Hhead. apply Z.leb_gt in Hhead. lia. }
  split; [exact Hsplit|].
  split.
  { eapply Forall_impl; [exact Hexp|]. intros c Hc. apply expired_deadline. exact Hc. }
  split; [exact Hrest|].
  split; [exact tolerated_spec|].
  split; [|split].
  - intros Htol.
    destruct (murder_keepalived_ok w dead rest Hsplit Hexp Htol Hrest)
      as (w' & Hrun & Hk & Hn & Hp & Hev).
    exists w'. split; [exact Hrun|]. split; [exact Hk|]. split; [exact Hn|].
    rewrite Hev.
    unfold popped_conns, appendleft_conns, unregistered_fds, closed_fds.
    rewrite !omap_app.
    fold (popped_conns (concat (map (fun c => reap_events c (conn_fd w c)) dead))).
    fold (unregistered_fds (concat (map (fun c => reap_events c (conn_fd w c)) dead))).
    fold (closed_fds (concat (map (fun c => reap_events c (conn_fd w c)) dead))).
    rewrite popped_conns_reap, unregistered_fds_reap, closed_fds_reap.
    assert (Hal : omap (fun e => match e with EvKeepAppendLeft c => Some c | _ => None end)
                    (concat (map (fun c => reap_events c (conn_fd w c)) dead)) = []).
    { clear. induction dead as [|c d IH]; [reflexivity|exact IH]. }
    rewrite Hal.
    split; [destruct rest; reflexivity|].
    split; [destruct rest; reflexivity|].
    split; [destruct rest; cbn; rewrite app_nil_r; reflexivity|].
    split; [destruct rest; cbn; rewrite app_nil_r; reflexivity|].
    rewrite Hp. split.
    + intros c Hin Hf. apply reap_poller_gone; [|exact Hf].
      apply list_elem_of_fmap. exists c. split; [reflexivity|exact Hin].
    + intros fd Hfd. apply reap_poller_other. exact Hfd.
  - intros d1 c d2 e Hd Htol Hf He.
    assert (Hk : _keep w = d1 ++ c :: (d2 ++ rest)).
    { rewrite Hsplit at 1. rewrite Hd, <- app_assoc. reflexivity. }
    assert (Hexp1 : Forall (fun c => expired (clock w) w c = true) (d1 ++ [c])).
    { rewrite Hd in Hexp. apply Forall_app in Hexp. destruct Hexp as [H1 H2].
      apply Forall_app. split; [exact H1|]. inversion H2; subst. repeat constructor. assumption. }
    destruct (murder_keepalived_fatal w d1 c (d2 ++ rest) e Hk Hexp1 Htol Hf He)
      as (w' & Hrun & Hk' & Hn & Hc & _).
    exists w'. auto.
  - intros Hs. rewrite Hsplit in Hs. unfold deadlines in Hs. rewrite omap_app in Hs.
    split; [exact (Sorted_app_l _ _ Hs)|].
    apply sorted_rest_unexpired; [exact Hrest_timed|exact (Sorted_app_r _ _ Hs)|exact Hhead].
Qed.

(** *** Termination of the reaper *)

Lemma murder_body_untimed now w c k :
  _keep w = c :: k -> timeout (conns w c) = None ->
  murder_body now w =
    (Raise TypeError,
     set_trace (trace w ++ [EvAcquire; EvKeepPopLeft (Some c); EvRelease])
       (set_keep k w)).
Proof.
  intros Hk Ht. unfold murder_body. run. rewrite Hk. run. rewrite Ht.
  rewrite <- !app_assoc. reflexivity.
Qed.

Lemma murder_body_cases now w :
  exists r w1 evs,
    murder_body now w = (r, w1) /\ trace w1 = trace w ++ evs /\
    count_popleft evs = 1%nat /\
    match r with
    | Ret Continue => exists c, _keep w = c :: _keep w1
    | Ret Break => _keep w1 = _keep w
    | Raise _ => (length (_keep w1) <= length (_keep w))%nat
    | OutOfFuel => False
    end.
Proof.
  destruct (_keep w) as [|c k] eqn:Hk.
  - rewrite (murder_body_empty now w Hk). do 3 eexists.
    split; [reflexivity|]. cbn. rewrite Hk. auto.
  - destruct (timeout (conns w c)) as [t|] eqn:Ht.
    + destruct (Z_lt_le_dec now t) as [Hlt|Hle].
      * rewrite (murder_body_stop now w c k t Hk Ht Hlt). do 3 eexists.
        split; [reflexivity|]. cbn. rewrite Hk. auto.
      * destruct (unregister_tolerated w (conn_fd w c)) eqn:Htol.
        -- rewrite (murder_body_reap now w c k t Hk Ht Hle Htol). do 3 eexists.
           split; [reflexivity|]. cbn. split; [reflexivity|]. split; [reflexivity|].
           exists c. reflexivity.
        -- unfold unregister_tolerated in Htol.
           destruct (unregister_fault (env w) (conn_fd w c)) as [e|] eqn:Hf; [|discriminate].
           rewrite (murder_body_fatal now w c k t e Hk Ht Hle Hf Htol). do 3 eexists.
           split; [reflexivity|]. cbn. split; [reflexivity|]. split; [reflexivity|]. lia.
    + rewrite (murder_body_untimed now w c k Hk Ht). do 3 eexists.
      split; [reflexivity|]. cbn. split; [reflexivity|]. split; [reflexivity|]. lia.
Qed.

Lemma murder_loop_total now (fuel : nat) :
  forall w : Worker,
    (length (_keep w) < fuel)%nat ->
    exists r w' evs,
      murder_loop fuel now w = (r, w') /\ r <> OutOfFuel /\
      trace w' = trace w ++ evs /\
      (count_popleft evs <= length (_keep w) + 1)%nat /\
      forall fuel', (length (_keep w) < fuel')%nat ->
                    murder_loop fuel' now w = (r, w').
Proof.
  induction fuel as [|k IH]; intros w Hlen; [lia|].
  destruct (murder_body_cases now w) as (r1 & w1 & evs1 & Hstep & Htr & Hcnt & Hcase).
  destruct r1 as [[|]|e|].
  - (* Break *)
    exists (Ret tt), w1, evs1. unfold murder_loop. cbn [while_true].
    unfold bind at 1. rewrite Hstep. split; [reflexivity|].
    split; [discriminate|]. split; [exact Htr|]. split; [lia|].
    intros [|k'] Hk'; [lia|]. cbn [while_true]. unfold bind at 1. rewrite Hstep. reflexivity.
  - (* Continue *)
    destruct Hcase as [c Hc].
    assert (Hlen1 : (length (_keep w1) < k)%nat) by (rewrite Hc in Hlen; cbn in Hlen; lia).
    destruct (IH w1 Hlen1) as (r & w' & evs & Hrun & Hr & Htr' & Hcnt' & Hany).
    exists r, w', (evs1 ++ evs). unfold murder_loop in *. cbn [while_true].
    unfold bind at 1. rewrite Hstep. split; [exact Hrun|]. split; [exact Hr|].
    split; [rewrite Htr', Htr, <- app_assoc; reflexivity|].
    split.
    + unfold count_popleft in *. rewrite omap_app, length_app, Hcnt, Hc. cbn. lia.
    + intros [|k'] Hk'; [lia|]. cbn [while_true]. unfold bind at 1. rewrite Hstep.
      apply Hany. rewrite Hc in Hk'. cbn in Hk'. lia.
  - exists (Raise e), w1, evs1. unfold murder_loop. cbn [while_true].
    unfold bind at 1. rewrite Hstep. split; [reflexivity|].
    split; [discriminate|]. split; [exact Htr|]. split; [lia|].
    intros [|k'] Hk'; [lia|]. cbn [while_true]. unfold bind at 1. rewrite Hstep. reflexivity.
  - destruct Hcase.
Qed.

(** C10.  [murder_keepalived] terminates on every worker: a turn of its
    loop either ends the loop (the deque is empty or its head is put back,
    so the deque is as before, or an exception leaves) or takes the head off
    the deque for good; the loop therefore never runs out of turns within
    [length _keep + 1] of them, more turns change nothing, and the number
    of turns made (one [popleft] each) is at most the initial size of the
    deque plus one. *)
Theorem murder_keepalived_terminates (w : Worker) :
  (forall now w0,
     match murder_body now w0 with
     | (Ret Continue, w1) => exists c, _keep w0 = c :: _keep w1
     | (Ret Break, w1) => _keep w1 = _keep w0
     | (Raise _, w1) => (length (_keep w1) <= length (_keep w0))%nat
     | (OutOfFuel, _) => False
     end) /\
  fst (murder_keepalived w) <> OutOfFuel /\
  (count_popleft (new_events w (snd (murder_keepalived w)))
   <= length (_keep w) + 1)%nat /\
  (forall fuel, (length (_keep w) < fuel)%nat ->
                murder_loop fuel (clock w) w = murder_keepalived w).
Proof.
  split.
  { intros now w0.
    destruct (murder_body_cases now w0) as (r1 & w1 & evs1 & Hstep & _ & _ & Hcase).
    rewrite Hstep. destruct r1 as [[|]|e|]; exact Hcase. }
  destruct (murder_loop_total (clock w) (S (length (_keep w))) w)
    as (r & w' & evs & Hrun & Hr & Htr & Hcnt & Hany); [lia|].
  rewrite murder_keepalived_unfold, Hrun. cbn [fst snd].
  split; [exact Hr|]. split.
  - rewrite (new_events_app _ _ _ Htr). exact Hcnt.
  - exact Hany.
Qed.

(** ** The acceptor *)

(** C7.  One call of the acceptor.  When [listener.accept()] returns a
    socket, a connection object is built for it, [nr_conns] goes up by one,
    and then, under the lock, [poller.register] is called on the socket for
    reading with the readable callback of that connection: the log shows the
    increment before the registration; when the selector takes the
    registration the acceptor returns with the socket in the selector's
    table.  When the accept fails with EAGAIN, EWOULDBLOCK or ECONNABORTED
    the acceptor returns and nothing but the log changed: [nr_conns] is as
    before and nothing was registered.  Any other error of the accept leaves
    the acceptor as it came. *)
Theorem accept_spec (w : Worker) (srv listener : nat) :
  (forall fd peer,
     accept_result (env w) listener = inr (fd, peer) ->
     exists r w',
       accept srv listener w = (r, w') /\ r <> OutOfFuel /\
       conns w' (next_conn w) = mkTConn fd peer srv None false false false /\
       nr_conns w' = nr_conns w + 1 /\
       _keep w' = _keep w /\
       new_events w w' =
         [EvAccept listener; EvSetBlocking fd false; EvNrConns 1;
          EvAcquire; EvRegister fd (Readable (next_conn w)); EvRelease] /\
       (register_fault (env w) fd = None -> poller w !! fd = None ->
        r = Ret tt /\
        poller w' = <[fd := Readable (next_conn w)]> (poller w))) /\
  (forall n,
     accept_result (env w) listener = inl (OSError n) ->
     n = Errno.EAGAIN \/ n = Errno.EWOULDBLOCK \/ n = Errno.ECONNABORTED ->
     exists w',
       accept srv listener w = (Ret tt, w') /\
       w' = set_trace (trace w ++ [EvAccept listener]) w /\
       nr_conns w' = nr_conns w /\ poller w' = poller w /\
       new_events w w' = [EvAccept listener]) /\
  (forall e,
     accept_result (env w) listener = inl e ->
     is_OSError e && errno_in e [Errno.EAGAIN; Errno.ECONNABORTED; Errno.EWOULDBLOCK]
       = false ->
     exists w',
       accept srv listener w = (Raise e, w') /\
       nr_conns w' = nr_conns w /\ poller w' = poller w /\
       new_events w w' = [EvAccept listener]).
Proof.
  split; [|split].
  - intros fd peer Hacc. unfold accept, new_TConn. run. rewrite Hacc. run.
    destruct (register_fault (env w) fd) as [e|] eqn:Hf.
    + run.
      destruct (is_OSError e);
        [destruct (errno_in e [Errno.EAGAIN; Errno.ECONNABORTED; Errno.EWOULDBLOCK])|];
        run; do 2 eexists; (split; [reflexivity|]); (split; [discriminate|]);
        cbn -[new_events insert]; unfold heap_set; rewrite Nat.eqb_refl;
        repeat (split; [reflexivity|]);
        (split; [apply new_events_app; cbn; rewrite <- !app_assoc; reflexivity|]);
        intros Hnone; discriminate.
    + destruct (poller w !! fd) as [cb|] eqn:Hp; run;
        do 2 eexists; (split; [reflexivity|]); (split; [discriminate|]);
        cbn -[new_events insert]; unfold heap_set; rewrite Nat.eqb_refl;
        repeat (split; [reflexivity|]);
        (split; [apply new_events_app; cbn; rewrite <- !app_assoc; reflexivity|]);
        intros _ Hnone; [discriminate|split; reflexivity].
  - intros n Hacc Hn. unfold accept. run. rewrite Hacc.
    destruct Hn as [Hn|[Hn|Hn]]; subst n; run;
      (eexists; split; [reflexivity|];
       split; [reflexivity|]; cbn -[new_events]; repeat (split; [reflexivity|]);
       apply new_events_app; reflexivity).
  - intros e Hacc He. unfold accept. run. rewrite Hacc. run.
    destruct (is_OSError e) eqn:Hos; cbn in He.
    + unfold errno_in in *. cbn in He. cbn. rewrite He. run. eexists.
      split; [reflexivity|]. cbn -[new_events].
      repeat (split; [reflexivity|]). apply new_events_app. reflexivity.
    + run. eexists. split; [reflexivity|]. cbn -[new_events].
      repeat (split; [reflexivity|]). apply new_events_app. reflexivity.
Qed.

(** ** The wake-up path of a keepalive connection *)

Lemma remove_first_None (c : nat) (l : list nat) :
  remove_first c l = None <-> c ∉ l.
Proof.
  induction l as [|x l IH]; cbn.
  - split; [intros _ H; inversion H|reflexivity].
  - destruct (Nat.eqb_spec x c) as [Heq|Hne].
    + subst x. split; [discriminate|]. intros H. exfalso. apply H. left.
    + destruct (remove_first c l) as [k|].
      * split; [discriminate|]. intros H. exfalso.
        assert (Hl : c ∉ l) by (intros Hin; apply H; right; exact Hin).
        apply IH in Hl. discriminate.
      * split; [|reflexivity]. intros _ Hin.
        inversion Hin; subst; [congruence|]. apply (proj1 IH); auto.
Qed.

Lemma remove_first_Some (c : nat) (l k : list nat) :
  remove_first c l = Some k ->
  exists l1 l2, l = l1 ++ c :: l2 /\ (c ∉ l1) /\ k = l1 ++ l2.
Proof.
  revert k. induction l as [|x l IH]; cbn; intros k H; [discriminate|].
  destruct (Nat.eqb_spec x c) as [Heq|Hne].
  - subst x. inversion H; subst. exists [], k. repeat split. intros Hin; inversion Hin.
  - destruct (remove_first c l) as [k'|]; [|discriminate]. inversion H; subst.
    destruct (IH k' eq_refl) as (l1 & l2 & Hl & Hn & Hk). subst l k'.
    exists (x :: l1), l2. repeat split.
    intros Hin. inversion Hin; subst; [congruence|contradiction].
Qed.

(** C3.  The wake-up path for an initialized connection [conn] whose
    socket [fileobj] the selector reported.  Once the socket is
    unregistered, the path tries to take [conn] out of the keepalive deque.
    When [conn] is not a member the path returns at once: nothing is
    submitted to the executor and the worker's task handles are as before.
    When it is a member, its first occurrence is removed and [conn] is
    submitted to the executor exactly once, the new handle joining the
    worker's handles.  (When the socket is no longer registered, the
    [KeyError] of [unregister] leaves the path and nothing is submitted
    either.) *)
Theorem readable_handoff (w : Worker) (conn fileobj : nat) :
  initialized (conns w conn) = true ->
  (unregister_fault (env w) fileobj = None -> is_Some (poller w !! fileobj) ->
   conn ∉ _keep w ->
   exists w',
     on_client_socket_readable conn fileobj w = (Ret tt, w') /\
     new_events w w' =
       [EvAcquire; EvUnregister fileobj; EvKeepRemove conn false; EvRelease] /\
     submitted_conns (new_events w w') = [] /\
     futures w' = futures w /\ _keep w' = _keep w /\
     poller w' = delete fileobj (poller w)) /\
  (unregister_fault (env w) fileobj = None -> is_Some (poller w !! fileobj) ->
   conn ∈ _keep w ->
   exists w' l1 l2,
     on_client_socket_readable conn fileobj w = (Ret tt, w') /\
     _keep w = l1 ++ conn :: l2 /\ (conn ∉ l1) /\ _keep w' = l1 ++ l2 /\
     new_events w w' =
       [EvAcquire; EvUnregister fileobj; EvKeepRemove conn true; EvRelease;
        EvSetBlocking (conn_fd w conn) true; EvSubmit conn] /\
     submitted_conns (new_events w w') = [conn] /\
     futures w' = futures w ++ [next_future w] /\
     poller w' = delete fileobj (poller w)) /\
  (unregister_fault (env w) fileobj = None -> poller w !! fileobj = None ->
   exists w',
     on_client_socket_readable conn fileobj w = (Raise KeyError, w') /\
     submitted_conns (new_events w w') = [] /\
     futures w' = futures w /\ _keep w' = _keep w).
Proof.
  intros Hinit. split; [|split].
  - intros Hf [cb Hp] Hnot. apply remove_first_None in Hnot.
    unfold on_client_socket_readable, keep_remove. run.
    rewrite Hf, Hp. run. rewrite Hinit. run. rewrite Hnot. run.
    eexists. split; [reflexivity|]. cbn -[new_events delete].
    erewrite new_events_app; [|cbn; rewrite <- !app_assoc; reflexivity].
    repeat (split; [reflexivity|]). reflexivity.
  - intros Hf [cb Hp] Hin.
    destruct (remove_first conn (_keep w)) as [k|] eqn:Hrm;
      [|apply remove_first_None in Hrm; contradiction].
    destruct (remove_first_Some _ _ _ Hrm) as (l1 & l2 & Hk & Hn & Hk'). subst k.
    unfold on_client_socket_readable, keep_remove, enqueue_req, conn_init,
      tpool_submit, _wrap_future. run.
    rewrite Hf, Hp. run. rewrite Hinit. run. rewrite Hrm. run.
    unfold heap_set. rewrite Nat.eqb_refl. cbn.
    destruct (parser (conns w conn)); run;
      (eexists; exists l1, l2; split; [reflexivity|];
       cbn -[new_events delete];
       split; [exact Hk|]; split; [exact Hn|]; split; [reflexivity|];
       erewrite new_events_app; [|cbn; rewrite <- !app_assoc; reflexivity];
       repeat (split; [reflexivity|]); reflexivity).
  - intros Hf Hp. unfold on_client_socket_readable. run. rewrite Hf, Hp. run.
    eexists. split; [reflexivity|]. cbn -[new_events].
    erewrite new_events_app; [|cbn; rewrite <- !app_assoc; reflexivity].
    repeat (split; [reflexivity|]). reflexivity.
Qed.

(** ** The completion callback *)

(** C2.  [finish_request] on a finished task handle.  A cancelled handle:
    [nr_conns] goes down by one, the handle's connection is closed, and the
    callback returns.  A result [(True, C)] while the worker is alive: [C]'s
    socket is set non-blocking, [C]'s deadline becomes now plus the keepalive
    interval, and between acquiring and releasing the lock [C] is appended
    to the keepalive deque and [poller.register] is called on its socket for
    reading; when the selector takes the registration nothing else happens
    and [nr_conns] stays.  Any other result: [nr_conns] goes down by one and
    [C] is closed.  A task that failed with an exception: [nr_conns] goes
    down by one and the handle's connection is closed; these two calls are
    all that happens, the logger is not called. *)
Theorem finish_request_spec (w : Worker) (fs : Future) :
  (fut_state fs = Cancelled ->
   exists w',
     finish_request fs w = (Ret tt, w') /\
     nr_conns w' = nr_conns w - 1 /\
     _keep w' = _keep w /\ poller w' = poller w /\
     new_events w w' = [EvNrConns (-1); EvClose (conn_fd w (fut_conn fs))]) /\
  (forall C,
     fut_state fs = Finished true C -> alive w = true ->
     exists w' extra,
       finish_request fs w = (Ret tt, w') /\
       deadline w' C = Some (clock w + cfg_keepalive (cfg w)) /\
       _keep w' = _keep w ++ [C] /\
       new_events w w' =
         [EvSetBlocking (conn_fd w C) false; EvAcquire; EvKeepAppend C;
          EvRegister (conn_fd w C) (Readable C); EvRelease] ++ extra /\
       (register_fault (env w) (conn_fd w C) = None ->
        poller w !! conn_fd w C = None ->
        extra = [] /\
        poller w' = <[conn_fd w C := Readable C]> (poller w) /\
        nr_conns w' = nr_conns w)) /\
  (forall k C,
     fut_state fs = Finished k C -> k && alive w = false ->
     exists w',
       finish_request fs w = (Ret tt, w') /\
       nr_conns w' = nr_conns w - 1 /\
       _keep w' = _keep w /\ poller w' = poller w /\
       new_events w w' = [EvNrConns (-1); EvClose (conn_fd w C)]) /\
  (forall e,
     fut_state fs = Failed e ->
     exists w',
       finish_request fs w = (Ret tt, w') /\
       nr_conns w' = nr_conns w - 1 /\
       _keep w' = _keep w /\ poller w' = poller w /\
       new_events w w' = [EvNrConns (-1); EvClose (conn_fd w (fut_conn fs))] /\
       logged (new_events w w') = []).
Proof.
  split; [|split; [|split]].
  - intros Hst. unfold finish_request. rewrite Hst. run.
    eexists. split; [reflexivity|]. cbn -[new_events].
    split; [lia|]. repeat (split; [reflexivity|]).
    apply new_events_app. cbn. rewrite <- !app_assoc. reflexivity.
  - intros C Hst Hal. unfold finish_request, conn_set_timeout. rewrite Hst. run.
    rewrite Hal. run. unfold conn_fd in *.
    destruct (register_fault (env w) (sock (conns w C))) as [e|] eqn:Hf;
      [|destruct (poller w !! sock (conns w C)) as [cb|] eqn:Hp];
      run; do 2 eexists; (split; [reflexivity|]);
      cbn -[new_events insert]; unfold deadline, heap_set; cbn;
      rewrite Nat.eqb_refl; cbn;
      repeat (split; [reflexivity|]);
      (split;
       [apply new_events_app; cbn; rewrite <- !app_assoc; reflexivity|]).
    + intros Hnone. discriminate.
    + intros _ Hnone. discriminate.
    + intros _ _. repeat split; reflexivity.
  - intros k C Hst Hk. unfold finish_request. rewrite Hst. run. rewrite Hk. run.
    eexists. split; [reflexivity|]. cbn -[new_events].
    split; [lia|]. repeat (split; [reflexivity|]).
    apply new_events_app. cbn. rewrite <- !app_assoc. reflexivity.
  - intros e Hst. unfold finish_request. rewrite Hst. run.
    eexists. split; [reflexivity|]. cbn -[new_events].
    split; [lia|]. do 2 (split; [reflexivity|]).
    erewrite new_events_app; [|cbn; rewrite <- !app_assoc; reflexivity].
    split; reflexivity.
Qed.

(** ** The request turn *)

Lemma resp_world_twice conn r1 r2 evs1 evs2 w :
  resp_world conn r2 evs2 (resp_world conn r1 evs1 w)
  = resp_world conn r2 (evs1 ++ evs2) w.
Proof.
  unfold resp_world. cbn -[insert]. rewrite insert_insert_eq, <- app_assoc.
  reflexivity.
Qed.

Lemma resp_world_id conn r w :
  resps w !! conn = Some r -> resp_world conn r [] w = w.
Proof.
  intros H. unfold resp_world. rewrite insert_id by exact H.
  rewrite app_nil_r. destruct w; reflexivity.
Qed.

Lemma resp_world_lookup conn r evs w :
  resps (resp_world conn r evs w) !! conn = Some r.
Proof. unfold resp_world. cbn -[insert]. apply lookup_insert_eq. Qed.

Lemma resp_send_headers_eq conn r w :
  resps w !! conn = Some r ->
  resp_send_headers conn w = (Ret tt, resp_world conn (sent r) [] w).
Proof.
  intros H. unfold resp_send_headers, resp_update, resp_world. run. rewrite H.
  rewrite app_nil_r. destruct w; reflexivity.
Qed.

Lemma emit_then {A} (e : event) (m : M A) (w : Worker) :
  (emit e ;; m) w = m (set_trace (trace w ++ [e]) w).
Proof. reflexivity. Qed.

Lemma resp_write_eq conn data wr r w :
  resps w !! conn = Some r ->
  resp_write conn data wr w =
    (match wr with Some e => Raise e | None => Ret tt end,
     resp_world conn (sent r) [EvWrite conn data] w).
Proof.
  intros H. unfold resp_write. rewrite emit_then. unfold bind.
  rewrite (resp_send_headers_eq conn r) by exact H.
  unfold resp_world. cbn -[insert]. rewrite app_nil_r. destruct wr; reflexivity.
Qed.

Lemma resp_write_file_eq conn wr r w :
  resps w !! conn = Some r ->
  resp_write_file conn wr w =
    (match wr with Some e => Raise e | None => Ret tt end,
     resp_world conn (sent r) [EvWriteFile conn] w).
Proof.
  intros H. unfold resp_write_file. rewrite emit_then. unfold bind.
  rewrite (resp_send_headers_eq conn r) by exact H.
  unfold resp_world. cbn -[insert]. rewrite app_nil_r. destruct wr; reflexivity.
Qed.

Lemma resp_close_eq conn res r w :
  resps w !! conn = Some r ->
  resp_close conn res w =
    (match res with Some e => Raise e | None => Ret tt end,
     resp_world conn (sent r) [EvRespClose conn] w).
Proof.
  intros H. unfold resp_close. rewrite emit_then. unfold bind.
  rewrite (resp_send_headers_eq conn r) by exact H.
  unfold resp_world. cbn -[insert]. rewrite app_nil_r. destruct res; reflexivity.
Qed.

Lemma write_items_eq conn (items : list body_item) :
  forall (w : Worker) (r : Response),
    resps w !! conn = Some r ->
    exists res evs r',
      write_items conn items w = (res, resp_world conn r' evs w) /\
      res <> OutOfFuel /\
      must_close r' = must_close r /\ natural_close r' = natural_close r /\
      forallb is_write evs = true.
Proof.
  induction items as [|[data wr|e] items IH]; intros w r Hr.
  - exists (Ret tt), [], r. cbn. rewrite (resp_world_id conn r w Hr).
    repeat split; auto; discriminate.
  - cbn [write_items]. unfold bind at 1.
    rewrite (resp_write_eq conn data wr r w Hr).
    destruct wr as [e|].
    + exists (Raise e), [EvWrite conn data], (sent r). repeat split; auto; discriminate.
    + destruct (IH (resp_world conn (sent r) [EvWrite conn data] w) (sent r))
        as (res & evs & r' & Hrun & Hres & Hm & Hn & Hw);
        [apply resp_world_lookup|].
      exists res, ([EvWrite conn data] ++ evs), r'.
      rewrite Hrun, resp_world_twice. repeat split; auto.
  - exists (Raise e), [], r. cbn. rewrite (resp_world_id conn r w Hr).
    repeat split; auto; discriminate.
Qed.

Lemma send_response_eq (t : Turn) conn (it : respiter) (w : Worker) (r : Response) :
  resps w !! conn = Some r ->
  exists res evs r',
    send_response t conn it w =
      (res, resp_world conn r'
              (evs ++ EvAccessLog conn ::
                 (if has_close t then [EvIterClose conn] else [])) w) /\
    res <> OutOfFuel /\
    must_close r' = must_close r /\ natural_close r' = natural_close r /\
    forallb is_write evs = true.
Proof.
  intros Hr.
  assert (Hbody : exists res evs r',
             (match it with
              | FileWrapper wr => resp_write_file conn wr
              | Body items => write_items conn items
              end ;; resp_close conn (resp_close_res t)) w
             = (res, resp_world conn r' evs w) /\
             res <> OutOfFuel /\
             must_close r' = must_close r /\ natural_close r' = natural_close r /\
             forallb is_write evs = true).
  { assert (Hfirst : exists res evs r',
               match it with
               | FileWrapper wr => resp_write_file conn wr
               | Body items => write_items conn items
               end w = (res, resp_world conn r' evs w) /\
               res <> OutOfFuel /\
               must_close r' = must_close r /\ natural_close r' = natural_close r /\
               forallb is_write evs = true).
    { destruct it as [wr|items].
      - rewrite (resp_write_file_eq conn wr r w Hr).
        do 3 eexists. split; [reflexivity|]. repeat split; auto.
        destruct wr; discriminate.
      - apply write_items_eq. exact Hr. }
    destruct Hfirst as (res & evs & r' & Hrun & Hres & Hm & Hn & Hw).
    unfold bind at 1. rewrite Hrun. destruct res as [[]|e|].
    - rewrite (resp_close_eq conn (resp_close_res t) r') by apply resp_world_lookup.
      rewrite resp_world_twice. do 3 eexists. split; [reflexivity|].
      split; [destruct (resp_close_res t); discriminate|].
      split; [exact Hm|]. split; [exact Hn|].
      rewrite forallb_app, Hw. reflexivity.
    - exists (Raise e), evs, r'. repeat split; auto.
    - contradiction. }
  destruct Hbody as (res & evs & r' & Hrun & Hres & Hm & Hn & Hw).
  unfold send_response, try_finally. rewrite Hrun.
  exists (match res with
          | OutOfFuel => OutOfFuel
          | _ => if has_close t
                 then match iter_close_res t with
                      | Some e => Raise e
                      | None => res
                      end
                 else res
          end), evs, r'.
  split.
  - destruct res as [[]|e|]; [| |contradiction];
      destruct (has_close t); [destruct (iter_close_res t)| |destruct (iter_close_res t)|];
      unfold resp_world; run; rewrite <- !app_assoc; reflexivity.
  - split; [|auto].
    destruct res as [[]|e|]; [| |contradiction];
      destruct (has_close t); try destruct (iter_close_res t); discriminate.
Qed.

Lemma begin_request_eq (t : Turn) (conn : nat) (w : Worker) (nc : bool) :
  pre_request_res t = None -> create_res t = inr nc ->
  begin_request t conn w =
    (match wsgi_res t with inl e => Raise e | inr it => Ret it end,
     began w conn nc).
Proof.
  intros Hpre Hcr. unfold begin_request, resp_force_close, resp_update, log.
  rewrite Hpre, Hcr.
  unfold began, begin_events, force_closes, keepalive_refused, retires.
  destruct (max_requests w <=? nr w + 1) eqn:Hret;
    destruct (alive w) eqn:Hal;
    destruct (cfg_keepalive (cfg w) =? 0) eqn:Hka;
    destruct (max_keepalived w <=? Z.of_nat (length (_keep w))) eqn:Hkm;
    run;
    repeat (first [rewrite Hret | rewrite Hal | rewrite Hka | rewrite Hkm
                  | rewrite lookup_insert_eq]; run);
    rewrite ?insert_insert_eq, <- ?app_assoc;
    (destruct (wsgi_res t);
     (f_equal; apply worker_ext; cbn -[insert delete Z.add];
      rewrite ?Hal; reflexivity)).
Qed.

Lemma call_post_request_eq (t : Turn) (conn : nat) (w : Worker) :
  call_post_request t conn w =
    (Ret tt, set_trace (trace w ++ EvPostRequest conn :: post_log t) w).
Proof.
  unfold call_post_request, post_log, log. run.
  destruct (post_request_res t); run; rewrite <- ?app_assoc; reflexivity.
Qed.

Lemma finally_post_request {A} (t : Turn) (conn : nat) (m : M A)
    (w w1 : Worker) (r : result A) :
  m w = (r, w1) -> r <> OutOfFuel ->
  try_finally m (call_post_request t conn) w =
    (r, set_trace (trace w1 ++ EvPostRequest conn :: post_log t) w1).
Proof.
  intros Hm Hr. unfold try_finally. rewrite Hm, call_post_request_eq.
  destruct r; [reflexivity|reflexivity|contradiction].
Qed.

Lemma begin_request_pre_fail (t : Turn) (conn : nat) (w : Worker) (e : exn) :
  pre_request_res t = Some e ->
  begin_request t conn w =
    (Raise e, set_trace (trace w ++ [EvPreRequest conn]) w).
Proof. intros H. unfold begin_request. rewrite H. reflexivity. Qed.

Lemma begin_request_create_fail (t : Turn) (conn : nat) (w : Worker) (e : exn) :
  pre_request_res t = None -> create_res t = inl e ->
  begin_request t conn w =
    (Raise e, set_trace (trace w ++ [EvPreRequest conn; EvCreate conn]) w).
Proof.
  intros H1 H2. unfold begin_request. rewrite H1, H2. run.
  rewrite <- app_assoc. reflexivity.
Qed.

Lemma request_failed_os (conn : nat) (e : exn) (w : Worker) :
  is_OSError e = true -> request_failed conn e w = (Raise e, w).
Proof. intros H. unfold request_failed. rewrite H. reflexivity. Qed.

Lemma request_failed_no_resp (conn : nat) (e : exn) (w : Worker) :
  resps w !! conn = None -> request_failed conn e w = (Raise e, w).
Proof.
  intros H. unfold request_failed. destruct (is_OSError e); [reflexivity|].
  run. rewrite H. reflexivity.
Qed.

Lemma request_failed_unsent (conn : nat) (e : exn) (w : Worker) (r : Response) :
  resps w !! conn = Some r -> headers_sent r = false ->
  request_failed conn e w = (Raise e, w).
Proof.
  intros H Hs. unfold request_failed. destruct (is_OSError e); [reflexivity|].
  run. rewrite H, Hs. reflexivity.
Qed.

Lemma request_failed_sent (conn : nat) (e : exn) (w : Worker) (r : Response) :
  resps w !! conn = Some r -> headers_sent r = true -> is_OSError e = false ->
  request_failed conn e w =
    (Raise StopIteration,
     set_trace (trace w ++ [EvLog Exception "Error handling request";
                            EvSockShutdown (conn_fd w conn);
                            EvSockClose (conn_fd w conn)]) w).
Proof.
  intros H Hs He. unfold request_failed, log. rewrite He. run. rewrite H, Hs. run.
  rewrite <- !app_assoc. reflexivity.
Qed.

(** Every exception [request_failed] is given leaves it as an exception. *)
Lemma request_failed_cases (conn : nat) (e : exn) (w : Worker) :
  exists e' tail,
    request_failed conn e w = (Raise e', set_trace (trace w ++ tail) w) /\
    forallb is_aftermath tail = true.
Proof.
  destruct (is_OSError e) eqn:He.
  - exists e, []. rewrite request_failed_os by exact He.
    rewrite app_nil_r. split; [destruct w; reflexivity|reflexivity].
  - destruct (resps w !! conn) as [r|] eqn:Hr.
    + destruct (headers_sent r) eqn:Hs.
      * do 2 eexists. rewrite (request_failed_sent conn e w r Hr Hs He).
        split; reflexivity.
      * exists e, []. rewrite (request_failed_unsent conn e w r Hr Hs).
        rewrite app_nil_r. split; [destruct w; reflexivity|reflexivity].
    + exists e, []. rewrite (request_failed_no_resp conn e w Hr).
      rewrite app_nil_r. split; [destruct w; reflexivity|reflexivity].
Qed.

Lemma resp_world_more conn r evs more w :
  set_trace (trace (resp_world conn r evs w) ++ more) (resp_world conn r evs w)
  = resp_world conn r (evs ++ more) w.
Proof. unfold resp_world. cbn -[insert]. rewrite <- app_assoc. reflexivity. Qed.

(** A turn that gets to the response body. *)
Lemma handle_request_reached (t : Turn) (req conn : nat) (w : Worker)
    (nc : bool) (it : respiter) :
  pre_request_res t = None -> create_res t = inr nc -> wsgi_res t = inr it ->
  exists res evs tail r',
    handle_request t req conn w =
      (res,
       resp_world conn r'
         (evs ++ (EvAccessLog conn ::
                    (if has_close t then [EvIterClose conn] else []))
              ++ tail ++ EvPostRequest conn :: post_log t)
         (began (set_resps (delete conn (resps w)) w) conn nc)) /\
    res <> OutOfFuel /\
    must_close r' = force_closes w /\ natural_close r' = nc /\
    forallb is_write evs = true /\ forallb is_aftermath tail = true /\
    (res = Ret true -> force_closes w = false).
Proof.
  intros Hpre Hcr Hws.
  set (w0 := set_resps (delete conn (resps w)) w).
  set (B := began w0 conn nc).
  assert (HB : resps B !! conn = Some (mkResponse (force_closes w) false nc)).
  { subst B. unfold began. cbn -[insert]. apply lookup_insert_eq. }
  destruct (send_response_eq t conn it B _ HB) as (res2 & evs & r' & Hsend & Hres2 & Hm & Hn & Hw).
  cbn in Hm, Hn.
  set (E := evs ++ EvAccessLog conn :: (if has_close t then [EvIterClose conn] else [])) in *.
  assert (Hbody : exists res tail,
             request_body t conn w0
             = (res, resp_world conn r' (E ++ tail) B) /\
             res <> OutOfFuel /\ forallb is_aftermath tail = true /\
             (res = Ret true -> force_closes w = false)).
  { unfold request_body, try_except. unfold bind at 1.
    rewrite (begin_request_eq t conn w0 nc Hpre Hcr), Hws. fold B.
    unfold bind at 1. rewrite Hsend.
    destruct res2 as [[]|e|]; [| |contradiction].
    - unfold bind at 1. unfold resp_should_close at 1. unfold bind at 1. unfold get at 1.
      rewrite resp_world_lookup. cbn [ret]. rewrite Hm, Hn.
      destruct (force_closes w || nc) eqn:Hsc.
      + exists (Ret false), [EvLog Debug "Closing connection."].
        unfold log. rewrite emit_then. cbn [ret]. rewrite resp_world_more.
        repeat split; auto; discriminate.
      + exists (Ret true), []. cbn [ret]. rewrite app_nil_r.
        repeat split; auto; try discriminate.
        intros _. apply orb_false_iff in Hsc. tauto.
    - destruct (request_failed_cases conn e (resp_world conn r' E B))
        as (e' & tail & Hrf & Htail).
      exists (Raise e'), tail. rewrite Hrf, resp_world_more.
      repeat split; auto; discriminate. }
  destruct Hbody as (res & tail & Hbody & Hres & Htail & Htrue).
  exists res, evs, tail, r'.
  unfold handle_request. unfold bind at 1. unfold modify at 1. fold w0.
  rewrite (finally_post_request t conn _ w0 _ res Hbody Hres).
  rewrite resp_world_more. subst E. rewrite <- !app_assoc. cbn [app].
  repeat split; auto.
Qed.

Lemma turn_frame_refl (w : Worker) : turn_frame w w.
Proof. unfold turn_frame. repeat split; auto; lia. Qed.

Lemma turn_frame_trace (w w' : Worker) (tr : list event) :
  turn_frame w w' -> turn_frame w (set_trace tr w').
Proof. intros H. exact H. Qed.

Lemma turn_frame_began (w : Worker) (conn : nat) (nc : bool) :
  turn_frame w (began (set_resps (delete conn (resps w)) w) conn nc).
Proof.
  unfold turn_frame, began. cbn -[insert delete].
  repeat split; auto; try lia.
  intros H. apply andb_true_iff in H. tauto.
Qed.

Lemma turn_frame_resp_world (w w' : Worker) conn r evs :
  turn_frame w w' -> turn_frame w (resp_world conn r evs w').
Proof. intros H. exact H. Qed.

Lemma handle_request_total (t : Turn) (req conn : nat) (w : Worker) :
  exists res w',
    handle_request t req conn w = (res, w') /\ res <> OutOfFuel /\
    turn_frame w w' /\ (res = Ret true -> force_closes w = false).
Proof.
  set (w0 := set_resps (delete conn (resps w)) w).
  assert (H0 : resps w0 !! conn = None) by apply lookup_delete_eq.
  assert (Hfail : forall e evs,
             begin_request t conn w0 = (Raise e, set_trace (trace w0 ++ evs) w0) ->
             exists res w',
               handle_request t req conn w = (res, w') /\ res <> OutOfFuel /\
               turn_frame w w' /\ (res = Ret true -> force_closes w = false)).
  { intros e evs Hb.
    eexists. eexists. split.
    - unfold handle_request. unfold bind at 1. unfold modify at 1. fold w0.
      eapply finally_post_request;
        [unfold request_body, try_except; unfold bind at 1; rewrite Hb;
         apply request_failed_no_resp; exact H0
        |discriminate].
    - split; [discriminate|]. split; [|discriminate].
      apply turn_frame_trace, turn_frame_trace. subst w0.
      unfold turn_frame. cbn. repeat split; auto; lia. }
  destruct (pre_request_res t) as [e|] eqn:Hpre.
  { eapply Hfail. apply begin_request_pre_fail. exact Hpre. }
  destruct (create_res t) as [e|nc] eqn:Hcr.
  { eapply Hfail. apply begin_request_create_fail; [exact Hpre|exact Hcr]. }
  destruct (wsgi_res t) as [e|it] eqn:Hws.
  - eexists. eexists. split.
    + unfold handle_request. unfold bind at 1. unfold modify at 1. fold w0.
      eapply finally_post_request;
        [unfold request_body, try_except; unfold bind at 1;
         rewrite (begin_request_eq t conn w0 nc Hpre Hcr), Hws;
         eapply request_failed_unsent;
         [unfold began; cbn -[insert]; apply lookup_insert_eq|reflexivity]
        |discriminate].
    + split; [discriminate|]. split; [|discriminate].
      apply turn_frame_trace, turn_frame_began.
  - destruct (handle_request_reached t req conn w nc it Hpre Hcr Hws)
      as (res & evs & tail & r' & Hrun & Hres & _ & _ & _ & _ & Htrue).
    eexists. eexists. split; [exact Hrun|]. split; [exact Hres|].
    split; [|exact Htrue].
    apply turn_frame_resp_world, turn_frame_began.
Qed.

Lemma turn_failed_eq (conn : nat) (e : exn) (w : Worker) :
  exists evs, turn_failed conn e w = (Ret tt, set_trace (trace w ++ evs) w).
Proof.
  unfold turn_failed, handle_error, log.
  destruct e as [n| |code| | | | | | |tag];
    try (eexists; reflexivity).
  - destruct (negb (existsb (Z.eqb n) [Errno.EPIPE; Errno.ECONNRESET; Errno.ENOTCONN]));
      [eexists; reflexivity|].
    destruct (n =? Errno.ECONNRESET); [eexists; reflexivity|].
    destruct (n =? Errno.ENOTCONN); eexists; reflexivity.
  - destruct (code =? SSL_ERROR_EOF); run; eexists;
      rewrite <- app_assoc; reflexivity.
Qed.

Lemma handle_total (t : Turn) (conn : nat) (w : Worker) :
  exists b w',
    handle t conn w = (Ret (b, conn), w') /\ turn_frame w w' /\
    (b = true -> force_closes w = false).
Proof.
  assert (Hfail : forall e w1,
             turn_frame w w1 ->
             exists b w',
               (turn_failed conn e ;; ret (false, conn)) w1 = (Ret (b, conn), w') /\
               turn_frame w w' /\ (b = true -> force_closes w = false)).
  { intros e w1 Hfr. destruct (turn_failed_eq conn e w1) as [evs Hev].
    exists false. eexists. unfold bind. rewrite Hev. split; [reflexivity|].
    split; [apply turn_frame_trace; exact Hfr|discriminate]. }
  unfold handle, try_except. unfold bind at 1. unfold get at 1.
  destruct (parser (conns w conn)).
  - unfold bind at 1. cbn [ret].
    destruct (parser_next t) as [e|[req|]].
    + cbn [raise]. apply Hfail. apply turn_frame_refl.
    + unfold bind at 1.
      destruct (handle_request_total t req conn w) as (res & w1 & Hrun & Hres & Hfr & Htrue).
      rewrite Hrun. destruct res as [[|]|e|]; [| | |contradiction].
      * exists true, w1. cbn. auto.
      * exists false, w1. cbn. split; [reflexivity|]. split; [exact Hfr|discriminate].
      * apply Hfail. exact Hfr.
    + exists false, w. cbn. split; [reflexivity|].
      split; [apply turn_frame_refl|discriminate].
  - unfold bind at 1. cbn [raise]. apply Hfail. apply turn_frame_refl.
Qed.

Lemma begin_events_split (w : Worker) (conn : nat) :
  begin_events w conn = gate_events w conn ++ [EvApp conn].
Proof.
  unfold begin_events, gate_events.
  destruct (retires w), (alive w), (keepalive_refused w); reflexivity.
Qed.

Lemma gate_events_force (w : Worker) (conn : nat) :
  force_closes w = true ->
  exists pre mid, gate_events w conn = pre ++ EvForceClose conn :: mid.
Proof.
  unfold force_closes, gate_events. intros H.
  destruct (retires w).
  - destruct (alive w).
    + eexists [_; _; _], _. reflexivity.
    + eexists [_; _], _. reflexivity.
  - cbn in H. rewrite H. exists [EvPreRequest conn; EvCreate conn], []. reflexivity.
Qed.

Lemma trace_began_raw (w : Worker) conn nc :
  trace (began (set_resps (delete conn (resps w)) w) conn nc)
  = trace w ++ begin_events w conn.
Proof. reflexivity. Qed.

Lemma trace_began (w : Worker) conn nc r evs :
  trace (resp_world conn r evs
           (began (set_resps (delete conn (resps w)) w) conn nc))
  = trace w ++ gate_events w conn ++ EvApp conn :: evs.
Proof.
  change (trace (resp_world conn r evs
                   (began (set_resps (delete conn (resps w)) w) conn nc)))
    with ((trace w ++ begin_events w conn) ++ evs).
  rewrite begin_events_split, <- !app_assoc. reflexivity.
Qed.

Lemma new_events_began (w : Worker) conn nc r evs :
  new_events w (resp_world conn r evs
                  (began (set_resps (delete conn (resps w)) w) conn nc))
  = gate_events w conn ++ EvApp conn :: evs.
Proof. apply new_events_app, trace_began. Qed.

(** A turn that gets to step 4. *)
Lemma handle_request_created (t : Turn) (req conn : nat) (w : Worker) (nc : bool) :
  pre_request_res t = None -> create_res t = inr nc ->
  exists res w' r' more,
    handle_request t req conn w = (res, w') /\ res <> OutOfFuel /\
    turn_frame w w' /\
    nr w' = nr w + 1 /\ alive w' = alive w && negb (retires w) /\
    resps w' !! conn = Some r' /\ must_close r' = force_closes w /\
    trace w' = trace w ++ gate_events w conn ++ EvApp conn :: more /\
    (res = Ret true -> force_closes w = false).
Proof.
  intros Hpre Hcr.
  set (w0 := set_resps (delete conn (resps w)) w).
  destruct (wsgi_res t) as [e|it] eqn:Hws.
  - exists (Raise e). eexists. exists (mkResponse (force_closes w) false nc). eexists.
    split.
    + unfold handle_request. unfold bind at 1. unfold modify at 1. fold w0.
      eapply finally_post_request;
        [unfold request_body, try_except; unfold bind at 1;
         rewrite (begin_request_eq t conn w0 nc Hpre Hcr), Hws;
         eapply request_failed_unsent;
         [unfold began; cbn -[insert]; apply lookup_insert_eq|reflexivity]
        |discriminate].
    + split; [discriminate|].
      split; [apply turn_frame_trace, turn_frame_began|].
      split; [reflexivity|]. split; [reflexivity|].
      split; [unfold began; cbn -[insert]; apply lookup_insert_eq|].
      split; [reflexivity|]. split; [|discriminate].
      cbn [trace set_trace]. subst w0. rewrite (trace_began_raw w conn nc).
      rewrite begin_events_split, <- !app_assoc. reflexivity.
  - destruct (handle_request_reached t req conn w nc it Hpre Hcr Hws)
      as (res & evs & tail & r' & Hrun & Hres & Hm & Hn & _ & _ & Htrue).
    exists res. eexists. exists r'. eexists.
    split; [exact Hrun|]. split; [exact Hres|].
    split; [apply turn_frame_resp_world, turn_frame_began|].
    split; [reflexivity|]. split; [reflexivity|].
    split; [apply resp_world_lookup|]. split; [exact Hm|].
    split; [apply trace_began|exact Htrue].
Qed.

Lemma gate_closed (w : Worker) :
  alive w = false \/ cfg_keepalive (cfg w) = 0 \/
  max_keepalived w <= Z.of_nat (length (_keep w)) ->
  force_closes w = true.
Proof.
  unfold force_closes, keepalive_refused. intros [H|[H|H]].
  - rewrite H. cbn. apply orb_true_r.
  - rewrite H. cbn. rewrite orb_true_r. apply orb_true_r.
  - apply Z.leb_le in H. rewrite H. rewrite !orb_true_r. reflexivity.
Qed.

Lemma handle_closes (w : Worker) (t : Turn) (conn : nat) :
  force_closes w = true ->
  exists w', handle t conn w = (Ret (false, conn), w') /\ turn_frame w w'.
Proof.
  intros Hfc. destruct (handle_total t conn w) as (b & w' & Hrun & Hfr & Htrue).
  destruct b.
  - rewrite Htrue in Hfc by reflexivity. discriminate.
  - exists w'. split; assumption.
Qed.

Lemma finish_request_closes (w : Worker) (k : bool) (C : nat) :
  k && alive w = false ->
  exists w',
    (forall f, finish_request (mkFuture f C (Finished k C)) w = (Ret tt, w')) /\
    nr_conns w' = nr_conns w - 1 /\
    closed_fds (new_events w w') = [conn_fd w C].
Proof.
  intros Hk. unfold finish_request. run. rewrite Hk. run.
  eexists. split; [intros f; reflexivity|]. cbn -[new_events].
  split; [lia|].
  erewrite new_events_app; [|cbn; rewrite <- !app_assoc; reflexivity].
  reflexivity.
Qed.


(** C4.  The keepalive gate of a request turn.  [__init__] sets
    [max_keepalived] to [worker_connections - threads]; with [threads = 1]
    and [worker_connections = 1] it is 0, which the size of the keepalive
    deque always reaches, and every call of [handle] returns [(False, conn)]
    (leaving the configuration and [max_keepalived] as they are, so this
    holds turn after turn), on which [finish_request] closes the connection
    and lowers [nr_conns].  In general, when the worker is not alive, or
    keepalive is disabled, or the keepalive deque holds [max_keepalived]
    connections or more, [handle] returns [(False, conn)], and a turn that
    builds its response force-closes it before the application is called:
    [handle_request] does not return [True] and leaves the response marked
    as one that must close. *)
Theorem keepalive_gate (w : Worker) (t : Turn) (req conn : nat) :
  (forall c mr ls pp h e,
     max_keepalived (init_worker c mr ls pp h e)
     = cfg_worker_connections c - cfg_threads c) /\
  (cfg_threads (cfg w) = 1 -> cfg_worker_connections (cfg w) = 1 ->
   max_keepalived w = cfg_worker_connections (cfg w) - cfg_threads (cfg w) ->
   max_keepalived w = 0 /\
   max_keepalived w <= Z.of_nat (length (_keep w)) /\
   exists w' w'',
     handle t conn w = (Ret (false, conn), w') /\
     cfg w' = cfg w /\ max_keepalived w' = max_keepalived w /\
     (forall f, finish_request (mkFuture f conn (Finished false conn)) w'
                = (Ret tt, w'')) /\
     nr_conns w'' = nr_conns w - 1 /\
     closed_fds (new_events w' w'') = [conn_fd w conn]) /\
  (alive w = false \/ cfg_keepalive (cfg w) = 0 \/
   max_keepalived w <= Z.of_nat (length (_keep w)) ->
   (exists w', handle t conn w = (Ret (false, conn), w')) /\
   (forall nc,
      pre_request_res t = None -> create_res t = inr nc ->
      exists res w' r' before mid more,
        handle_request t req conn w = (res, w') /\
        res <> Ret true /\
        resps w' !! conn = Some r' /\ must_close r' = true /\
        new_events w w' =
          before ++ EvForceClose conn :: mid ++ EvApp conn :: more)).
Proof.
  split; [reflexivity|]. split.
  - intros Ht Hc Hk. rewrite Ht, Hc in Hk. cbn in Hk.
    split; [exact Hk|]. split; [lia|].
    destruct (handle_closes w t conn) as (w' & Hrun & Hfr).
    { apply gate_closed. right. right. lia. }
    destruct (finish_request_closes w' false conn eq_refl) as (w'' & Hfin & Hn & Hcl).
    exists w', w''. split; [exact Hrun|].
    unfold turn_frame in Hfr.
    destruct Hfr as (Hcfg & _ & Hmk & _ & Hnc & _ & _ & _ & Hconns & _).
    split; [exact Hcfg|]. split; [exact Hmk|]. split; [exact Hfin|].
    split; [rewrite Hn, Hnc; reflexivity|].
    rewrite Hcl. unfold conn_fd. rewrite Hconns. reflexivity.
  - intros Hgate. pose proof (gate_closed w Hgate) as Hfc. split.
    + destruct (handle_closes w t conn Hfc) as (w' & Hrun & _). exists w'. exact Hrun.
    + intros nc Hpre Hcr.
      destruct (handle_request_created t req conn w nc Hpre Hcr)
        as (res & w' & r' & more & Hrun & _ & _ & _ & _ & Hr & Hm & Hev & Htrue).
      destruct (gate_events_force w conn Hfc) as (before & mid & Hg).
      exists res, w', r', before, mid, more.
      split; [exact Hrun|]. split.
      { intros ->. rewrite Htrue in Hfc by reflexivity. discriminate. }
      split; [exact Hr|]. split; [rewrite Hm; exact Hfc|].
      rewrite (new_events_app _ _ _ Hev), Hg, <- app_assoc. reflexivity.
Qed.

Lemma handle_request_unfold (t : Turn) (req conn : nat) (w : Worker) :
  handle_request t req conn w =
    try_finally (request_body t conn) (call_post_request t conn)
      (set_resps (delete conn (resps w)) w).
Proof. reflexivity. Qed.

Lemma fst_finally_post {A} (t : Turn) (conn : nat) (m : M A) (w : Worker) :
  fst (try_finally m (call_post_request t conn) w) = fst (m w).
Proof.
  unfold try_finally. destruct (m w) as [r w1]. rewrite call_post_request_eq.
  destruct r; reflexivity.
Qed.

Lemma handle_request_post_indep (t : Turn) (o : option exn) (req conn : nat)
    (w : Worker) :
  fst (handle_request (set_post_request o t) req conn w)
  = fst (handle_request t req conn w).
Proof.
  rewrite !handle_request_unfold, !fst_finally_post.
  destruct t; reflexivity.
Qed.

(** C8.  A run of [handle_request] that gets to the response body (the
    hook and [wsgi.create] went through and the application returned its
    iterator): whatever the iteration does, also when the iterator or a
    write raises, the access record is logged right after the writes, then
    the iterator's [close] is called when it has one, and on the way out the
    [post_request] hook is called; when the hook raises, the exception is
    logged and goes no further: the outcome of [handle_request] is the one
    it has with a hook that returns. *)
Theorem access_log_and_post_request (w : Worker) (t : Turn) (req conn : nat)
    (nc : bool) (it : respiter) :
  pre_request_res t = None -> create_res t = inr nc -> wsgi_res t = inr it ->
  exists res w' writes tail,
    handle_request t req conn w = (res, w') /\ res <> OutOfFuel /\
    new_events w w' =
      gate_events w conn ++ EvApp conn :: writes
      ++ (EvAccessLog conn :: (if has_close t then [EvIterClose conn] else []))
      ++ tail ++ EvPostRequest conn :: post_log t /\
    forallb is_write writes = true /\ forallb is_aftermath tail = true /\
    (forall e, post_request_res t = Some e ->
               post_log t = [EvLog Exception "Exception in post_request hook"]) /\
    (forall o, fst (handle_request (set_post_request o t) req conn w) = res).
Proof.
  intros Hpre Hcr Hws.
  destruct (handle_request_reached t req conn w nc it Hpre Hcr Hws)
    as (res & evs & tail & r' & Hrun & Hres & _ & _ & Hw & Htail & _).
  exists res. eexists. exists evs, tail.
  split; [exact Hrun|]. split; [exact Hres|].
  split; [apply new_events_began|].
  split; [exact Hw|]. split; [exact Htail|]. split.
  - intros e He. unfold post_log. rewrite He. reflexivity.
  - intros o. rewrite handle_request_post_indep, Hrun. reflexivity.
Qed.

(** ** Retirement after [max_requests] *)








(** ** The dispatch loop under saturation *)

Lemma quiet_app (l1 l2 : list event) :
  quiet l1 = true -> quiet l2 = true -> quiet (l1 ++ l2) = true.
Proof. unfold quiet. intros H1 H2. rewrite forallb_app, H1, H2. reflexivity. Qed.

Lemma reap_poller_subseteq (e : Env) (p : gmap nat callback) (fd : nat) :
  reap_poller e p fd ⊆ p.
Proof.
  unfold reap_poller. destruct (unregister_fault e fd); [reflexivity|].
  apply delete_subseteq.
Qed.

Lemma murder_body_quiet now w :
  exists r w1 evs,
    murder_body now w = (r, w1) /\ trace w1 = trace w ++ evs /\
    quiet evs = true /\ poller w1 ⊆ poller w.
Proof.
  destruct (_keep w) as [|c k] eqn:Hk.
  - rewrite (murder_body_empty now w Hk). do 3 eexists.
    split; [reflexivity|]. cbn. auto.
  - destruct (timeout (conns w c)) as [t|] eqn:Ht.
    + destruct (Z_lt_le_dec now t) as [Hlt|Hle].
      * rewrite (murder_body_stop now w c k t Hk Ht Hlt). do 3 eexists.
        split; [reflexivity|]. cbn. auto.
      * destruct (unregister_tolerated w (conn_fd w c)) eqn:Htol.
        -- rewrite (murder_body_reap now w c k t Hk Ht Hle Htol). do 3 eexists.
           split; [reflexivity|]. cbn -[reap_poller].
           split; [reflexivity|]. split; [reflexivity|]. apply reap_poller_subseteq.
        -- unfold unregister_tolerated in Htol.
           destruct (unregister_fault (env w) (conn_fd w c)) as [e|] eqn:Hf; [|discriminate].
           rewrite (murder_body_fatal now w c k t e Hk Ht Hle Hf Htol). do 3 eexists.
           split; [reflexivity|]. cbn. auto.
    + rewrite (murder_body_untimed now w c k Hk Ht). do 3 eexists.
      split; [reflexivity|]. cbn. auto.
Qed.

Lemma murder_loop_quiet now (fuel : nat) :
  forall w : Worker,
    exists r w' evs,
      murder_loop fuel now w = (r, w') /\ trace w' = trace w ++ evs /\
      quiet evs = true /\ poller w' ⊆ poller w.
Proof.
  induction fuel as [|k IH]; intros w.
  - exists OutOfFuel, w, []. cbn. rewrite app_nil_r. auto.
  - destruct (murder_body_quiet now w) as (r1 & w1 & evs1 & Hstep & Htr & Hq & Hp).
    unfold murder_loop in *. cbn [while_true]. unfold bind at 1. rewrite Hstep.
    destruct r1 as [[|]|e|].
    + exists (Ret tt), w1, evs1. auto.
    + destruct (IH w1) as (r & w' & evs & Hrun & Htr' & Hq' & Hp').
      exists r, w', (evs1 ++ evs). split; [exact Hrun|].
      split; [rewrite Htr', Htr, <- app_assoc; reflexivity|].
      split; [apply quiet_app; assumption|]. etrans; eassumption.
    + exists (Raise e), w1, evs1. auto.
    + exists OutOfFuel, w1, evs1. auto.
Qed.

Lemma murder_keepalived_quiet (w : Worker) :
  exists r w' evs,
    murder_keepalived w = (r, w') /\ r <> OutOfFuel /\
    trace w' = trace w ++ evs /\ quiet evs = true /\ poller w' ⊆ poller w.
Proof.
  destruct (murder_loop_quiet (clock w) (S (length (_keep w))) w)
    as (r & w' & evs & Hrun & Htr & Hq & Hp).
  destruct (murder_loop_total (clock w) (S (length (_keep w))) w)
    as (r2 & w2 & evs2 & Hrun2 & Hr2 & _); [lia|].
  rewrite murder_keepalived_unfold. exists r, w', evs.
  split; [exact Hrun|]. split; [|auto].
  rewrite Hrun in Hrun2. inversion Hrun2; subst. exact Hr2.
Qed.

Lemma foreach_futures_remove (l : list nat) :
  forall w : Worker,
    exists r w',
      foreach l futures_remove w = (r, w') /\ r <> OutOfFuel /\
      trace w' = trace w /\ poller w' = poller w /\
      nr_conns w' = nr_conns w /\ worker_connections w' = worker_connections w.
Proof.
  induction l as [|f l IH]; intros w.
  - exists (Ret tt), w. cbn. repeat split; auto; discriminate.
  - cbn [foreach]. unfold bind at 1. unfold futures_remove at 1.
    unfold bind at 1. unfold get at 1.
    destruct (remove_first f (futures w)) as [k|].
    + cbn [modify]. destruct (IH (set_futures k w)) as (r & w' & Hrun & Hr & H1 & H2 & H3 & H4).
      exists r, w'. split; [exact Hrun|]. auto.
    + exists (Raise ValueError), w. cbn. repeat split; auto; discriminate.
Qed.

Lemma quiet_In (evs : list event) (e : event) :
  quiet evs = true -> In e evs -> admits e = false.
Proof.
  unfold quiet. intros H Hin.
  rewrite forallb_forall in H. apply H in Hin.
  destruct (admits e); [discriminate|reflexivity].
Qed.

(** C6.  A turn of the dispatch loop that finds the worker saturated
    ([nr_conns] equal to [worker_connections], or above): after notifying
    the arbiter its first call is [futures.wait] on the task handles with a
    timeout of one second, returning at the first completion; in the whole
    turn there is no call of [poller.select], no [accept] on a listener and
    no [poller.register], and the selector's table only loses entries (those
    of the connections the reaper closes). *)
Theorem saturated_iteration (w : Worker) (t : Tick) :
  worker_connections w <= nr_conns w ->
  exists r w' rest,
    run_iteration t w = (r, w') /\ r <> OutOfFuel /\
    new_events w w' = EvNotify :: EvWait 1 true :: rest /\
    (forall timeout_s, ~ In (EvSelect timeout_s) (new_events w w')) /\
    (forall listener, ~ In (EvAccept listener) (new_events w w')) /\
    (forall fd cb, ~ In (EvRegister fd cb) (new_events w w')) /\
    poller w' ⊆ poller w.
Proof.
  intros Hsat.
  assert (Hgoal : exists r w' rest,
             run_iteration t w = (r, w') /\ r <> OutOfFuel /\
             trace w' = trace w ++ EvNotify :: EvWait 1 true :: rest /\
             quiet rest = true /\ poller w' ⊆ poller w).
  { unfold run_iteration. unfold bind at 1. unfold modify at 1.
    rewrite emit_then. unfold bind at 1. unfold get at 1.
    cbn [nr_conns worker_connections set_trace set_world].
    replace (nr_conns w <? worker_connections w) with false
      by (symmetry; apply Z.ltb_ge; exact Hsat).
    unfold bind at 1. unfold futures_wait. rewrite emit_then.
    unfold bind at 1. unfold get at 1. cbn [ret].
    unfold bind at 1.
    match goal with
    | |- context [foreach ?l futures_remove ?x] =>
        destruct (foreach_futures_remove l x) as (r3 & w3 & Hrm & Hr3 & Htr3 & Hp3 & _)
    end.
    rewrite Hrm.
    cbn [trace poller set_trace set_world] in Htr3, Hp3.
    destruct r3 as [[]|e|]; [| |contradiction].
    - unfold bind at 1. unfold is_parent_alive. unfold bind at 1. unfold get at 1.
      destruct (negb (ppid w3 =? getppid t)%nat).
      + unfold log. rewrite emit_then. cbn [ret negb].
        do 3 eexists. split; [reflexivity|]. split; [discriminate|].
        cbn [trace poller set_trace]. rewrite Htr3, Hp3, <- !app_assoc.
        split; [reflexivity|]. split; [reflexivity|reflexivity].
      + cbn [ret negb].
        destruct (murder_keepalived_quiet w3) as (r & w' & evs & Hrun & Hr & Htr & Hq & Hp).
        unfold bind at 1. rewrite Hrun.
        exists (match r with Ret _ => Ret Continue | Raise e => Raise e
                        | OutOfFuel => OutOfFuel end), w', evs.
        split; [destruct r as [[]|e|]; reflexivity|].
        split; [destruct r as [[]|e|]; [discriminate|discriminate|contradiction]|].
        split; [rewrite Htr, Htr3, <- !app_assoc; reflexivity|].
        split; [exact Hq|]. rewrite <- Hp3. exact Hp.
    - exists (Raise e), w3, []. split; [reflexivity|]. split; [discriminate|].
      split; [rewrite Htr3, <- !app_assoc; reflexivity|].
      split; [reflexivity|]. rewrite Hp3. reflexivity. }
  destruct Hgoal as (r & w' & rest & Hrun & Hr & Htr & Hq & Hp).
  exists r, w', rest. split; [exact Hrun|]. split; [exact Hr|].
  rewrite (new_events_app _ _ _ Htr). split; [reflexivity|].
  assert (Hall : quiet (EvNotify :: EvWait 1 true :: rest) = true) by exact Hq.
  split; [|split; [|split; [|exact Hp]]].
  - intros to Hin. apply (quiet_In _ _ Hall) in Hin. discriminate.
  - intros l Hin. apply (quiet_In _ _ Hall) in Hin. discriminate.
  - intros fd cb Hin. apply (quiet_In _ _ Hall) in Hin. discriminate.
Qed.

(** ** The liveness beacon *)

Section Beacon.
Import WorkerTmp.

Lemma umask_restored (m : Z) : 0 <= m <= 511 -> Z.land m 511 = m.
Proof.
  intros H. change 511 with (Z.ones 9). rewrite Z.land_ones by lia.
  apply Z.mod_small. change (2 ^ 9) with 512. lia.
Qed.

Lemma init_created (cfg : TmpCfg) (env : TmpEnv) (s : OS) (fd : nat)
    (rnd : string) :
  0 <= os_umask s <= 511 -> dir_ok cfg env -> mkstemp_res env = inr (fd, rnd) ->
  __init__ cfg env s =
    open_beacon cfg env fd (tmp_path cfg env rnd) (created cfg env fd rnd s).
Proof.
  intros Hum Hdir Hmk.
  unfold __init__, created, dir_ok, tmp_path, tmp_dir, tmp_mode, isdir_calls in *.
  unfold tbind at 1. unfold os_umask_set at 1. unfold tbind at 1.
  destruct (worker_tmp_dir cfg) as [d|] eqn:Hd.
  - destruct (truthy (Some d)) eqn:Htr.
    + unfold tbind at 1. unfold call at 1. rewrite (Hdir d eq_refl Htr).
      unfold tret at 1. unfold tbind at 1. unfold mkstemp. rewrite Hmk.
      cbn [os_umask os_euid os_egid os_files os_fds os_calls].
      unfold tbind at 1. unfold os_umask_set.
      cbn [os_umask os_euid os_egid os_files os_fds os_calls].
      rewrite (umask_restored _ Hum), <- !app_assoc. reflexivity.
    + unfold tret at 1. unfold tbind at 1. unfold mkstemp. rewrite Hmk.
      cbn [os_umask os_euid os_egid os_files os_fds os_calls].
      unfold tbind at 1. unfold os_umask_set.
      cbn [os_umask os_euid os_egid os_files os_fds os_calls].
      rewrite (umask_restored _ Hum), <- !app_assoc. reflexivity.
  - unfold tret at 1. unfold tbind at 1. unfold mkstemp. rewrite Hmk.
    cbn [os_umask os_euid os_egid os_files os_fds os_calls].
    unfold tbind at 1. unfold os_umask_set.
    cbn [os_umask os_euid os_egid os_files os_fds os_calls].
    rewrite (umask_restored _ Hum), <- !app_assoc. reflexivity.
Qed.

Ltac trun :=
  unfold open_beacon, util_chown, util_unlink, os_fdopen, os_close, call,
    traise_if, tbind, tret, traise;
  cbn [os_umask os_euid os_egid os_files os_fds os_calls].

Lemma open_beacon_total (cfg : TmpCfg) (env : TmpEnv) (fd : nat)
    (name : string) (x : OS) :
  exists r x' post,
    open_beacon cfg env fd name x = (r, x') /\ r <> OutOfFuel /\
    os_umask x' = os_umask x /\
    os_calls x' = os_calls x ++ chown_calls cfg x name ++ post /\
    (IS_CYGWIN env = false ->
     (needs_chown cfg x = true -> chown_res env = None) ->
     exists post', post = SysUnlink name :: post') /\
    (IS_CYGWIN env = true -> forall p, ~ In (SysUnlink p) post).
Proof.
  unfold chown_calls, needs_chown. trun.
  destruct (negb (uid cfg =? os_euid x) || negb (gid cfg =? os_egid x));
    destruct (chown_res env) as [ec|]; destruct (IS_CYGWIN env);
    destruct (unlink_res env) as [eu|]; destruct (fdopen_res env) as [ef|];
    trun; do 3 eexists;
    (split; [reflexivity|]); (split; [discriminate|]);
    cbn [os_umask os_calls]; (split; [reflexivity|]);
    rewrite <- ?app_assoc;
    (split; [cbn [app]; reflexivity|]);
    (split;
     [intros H1 H2; try discriminate;
      try (specialize (H2 eq_refl); discriminate);
      eexists; reflexivity
     |intros H1 p Hin; try discriminate;
      repeat (destruct Hin as [Hin|Hin]; [discriminate|]); destruct Hin]).
Qed.

Lemma open_beacon_ok (cfg : TmpCfg) (env : TmpEnv) (fd : nat)
    (name : string) (x : OS) :
  IS_CYGWIN env = false ->
  (needs_chown cfg x = true -> chown_res env = None) ->
  unlink_res env = None -> fdopen_res env = None ->
  exists x',
    open_beacon cfg env fd name x
    = (Ret (mkWorkerTmp (mkFileObj fd "w+b" 0)), x') /\
    os_umask x' = os_umask x /\ os_fds x' = os_fds x /\
    os_files x' !! name = None /\
    os_calls x' = os_calls x ++ chown_calls cfg x name
                  ++ [SysUnlink name; SysFdopen fd "w+b" 0].
Proof.
  intros Hcyg Hch Hun Hfd. unfold chown_calls, needs_chown in *. trun.
  rewrite Hcyg, Hun, Hfd.
  destruct (negb (uid cfg =? os_euid x) || negb (gid cfg =? os_egid x)).
  - rewrite (Hch eq_refl). trun. eexists. split; [reflexivity|].
    cbn [os_umask os_fds os_files os_calls]. rewrite <- !app_assoc.
    repeat split; auto. apply lookup_delete_eq.
  - trun. eexists. split; [reflexivity|].
    cbn [os_umask os_fds os_files os_calls]. rewrite <- !app_assoc.
    repeat split; auto. apply lookup_delete_eq.
Qed.

(** An empty [worker_tmp_dir] is falsy: no directory test is made, and
    [mkstemp(dir="")] makes the file in the current directory, which is
    what [os.path.abspath] answers for the empty path. *)
Lemma tmp_path_current_dir (cfg : TmpCfg) (env : TmpEnv) (rnd : string) :
  worker_tmp_dir cfg = Some ""%string ->
  isdir_calls cfg = [] /\
  tmp_path cfg env rnd
  = path_join (abspath env ""%string) ("wgunicorn-" ++ rnd)%string.
Proof.
  intros Hd. unfold isdir_calls, tmp_path, tmp_dir. rewrite Hd. split; reflexivity.
Qed.

(** C9.  Building the beacon.  When the configured directory (if one is
    given) exists and [mkstemp] makes the file: the file is made in the
    configured directory (the default one without it), its name starts with
    [wgunicorn-], and its mode is 0o600 less the bits of the configured
    umask: the process umask is set to the configured one before [mkstemp]
    and set back right after it, and it has its old value when the
    constructor is left, whatever the later calls do.  Off Cygwin, and
    unless a change of owner raises, the next call after the optional
    change of owner is the unlink of the new path (on Cygwin there is no
    unlink); when, besides, unlink and [fdopen] do not raise, the
    constructor returns the file object of the descriptor, opened [w+b]
    with buffering 0, the path is gone from the directory and the
    descriptor is still open.  When the configured directory does not exist
    the constructor raises [RuntimeError] right after the directory test:
    [mkstemp] is not called, no file is made and no descriptor opened. *)
Theorem beacon_init (cfg : TmpCfg) (env : TmpEnv) (s : OS) :
  0 <= os_umask s <= 511 ->
  (forall fd rnd,
     dir_ok cfg env -> mkstemp_res env = inr (fd, rnd) ->
     let path := tmp_path cfg env rnd in
     let made :=
       [SysUmask (umask cfg)] ++ isdir_calls cfg
       ++ [SysMkstemp (tmp_dir cfg env) ("wgunicorn-" ++ rnd)%string (tmp_mode cfg);
           SysUmask (os_umask s)]
       ++ chown_calls cfg s path in
     (exists r s' post,
        __init__ cfg env s = (r, s') /\ r <> OutOfFuel /\
        os_umask s' = os_umask s /\
        os_calls s' = os_calls s ++ made ++ post /\
        (IS_CYGWIN env = false ->
         (needs_chown cfg s = true -> chown_res env = None) ->
         exists post', post = SysUnlink path :: post') /\
        (IS_CYGWIN env = true -> forall p, ~ In (SysUnlink p) post)) /\
     (IS_CYGWIN env = false ->
      (needs_chown cfg s = true -> chown_res env = None) ->
      unlink_res env = None -> fdopen_res env = None ->
      exists s',
        __init__ cfg env s = (Ret (mkWorkerTmp (mkFileObj fd "w+b" 0)), s') /\
        os_umask s' = os_umask s /\
        os_files s' !! path = None /\
        os_fds s' = fd :: os_fds s /\
        os_calls s' = os_calls s ++ made ++ [SysUnlink path; SysFdopen fd "w+b" 0])) /\
  (forall d,
     worker_tmp_dir cfg = Some d -> truthy (Some d) = true ->
     isdir env d = false ->
     exists s',
       __init__ cfg env s = (Raise RuntimeError, s') /\
       os_files s' = os_files s /\ os_fds s' = os_fds s /\
       os_calls s' = os_calls s ++ [SysUmask (umask cfg); SysIsdir d]).
Proof.
  intros Hum. split.
  - intros fd rnd Hdir Hmk path made.
    rewrite (init_created cfg env s fd rnd Hum Hdir Hmk). fold path.
    split.
    + destruct (open_beacon_total cfg env fd path (created cfg env fd rnd s))
        as (r & s' & post & Hrun & Hr & Hu & Hc & Hnc & Hcy).
      exists r, s', post. split; [exact Hrun|]. split; [exact Hr|].
      split; [exact Hu|]. split; [|split; [exact Hnc|exact Hcy]].
      rewrite Hc. subst made. unfold created. cbn [os_calls].
      rewrite <- !app_assoc. reflexivity.
    + intros Hcyg Hch Hun Hfd.
      destruct (open_beacon_ok cfg env fd path (created cfg env fd rnd s) Hcyg Hch Hun Hfd)
        as (s' & Hrun & Hu & Hf & Hp & Hc).
      exists s'. split; [exact Hrun|]. split; [exact Hu|]. split; [exact Hp|].
      split; [exact Hf|].
      rewrite Hc. subst made. unfold created. cbn [os_calls].
      rewrite <- !app_assoc. reflexivity.
  - intros d Hd Htr Hdir. unfold __init__.
    unfold tbind at 1. unfold os_umask_set at 1.
    unfold tbind at 1. rewrite Hd, Htr.
    unfold tbind at 1. unfold call at 1. rewrite Hdir.
    eexists. split; [reflexivity|]. cbn. rewrite <- app_assoc. auto.
Qed.

End Beacon.

(** * The theorems at the sample inputs *)

Lemma murder_keepalived_reaps_witness :
  keep_timed sample_worker /\
  exists w',
    murder_keepalived sample_worker = (Ret tt, w') /\
    _keep w' = [3%nat] /\ nr_conns w' = 1 /\
    closed_fds (new_events sample_worker w') = [101%nat; 102%nat].
Proof.
  assert (H : keep_timed sample_worker).
  { unfold keep_timed. cbn. repeat constructor; eexists; reflexivity. }
  split; [exact H|].
  destruct (murder_keepalived_reaps sample_worker H)
    as (_ & _ & _ & _ & Hok & _).
  destruct Hok as (w' & Hrun & Hk & Hn & _ & _ & _ & Hc & _).
  { cbn. repeat constructor. }
  exists w'. split; [exact Hrun|]. split; [exact Hk|].
  split; [exact Hn|exact Hc].
Defined.

Lemma readable_handoff_witness :
  initialized (conns sample_worker 2%nat) = true /\
  exists w',
    on_client_socket_readable 2 102 sample_worker = (Ret tt, w') /\
    _keep w' = [1%nat; 3%nat] /\
    submitted_conns (new_events sample_worker w') = [2%nat].
Proof.
  assert (H : initialized (conns sample_worker 2%nat) = true) by reflexivity.
  split; [exact H|].
  destruct (readable_handoff sample_worker 2 102 H) as (_ & Hhit & _).
  destruct Hhit as (w' & l1 & l2 & Hrun & Hk & Hn & Hk' & _ & Hs & _).
  { reflexivity. }
  { eexists. vm_compute. reflexivity. }
  { apply list_elem_of_In. cbn. auto. }
  exists w'. split; [exact Hrun|]. split; [|exact Hs].
  assert (Hw : w' = snd (on_client_socket_readable 2 102 sample_worker))
    by (rewrite Hrun; reflexivity).
  rewrite Hw. vm_compute. reflexivity.
Defined.

Lemma saturated_iteration_witness :
  worker_connections saturated_worker <= nr_conns saturated_worker /\
  exists r w' rest,
    run_iteration sample_tick saturated_worker = (r, w') /\
    new_events saturated_worker w' = EvNotify :: EvWait 1 true :: rest /\
    (forall fd cb, ~ In (EvRegister fd cb) (new_events saturated_worker w')).
Proof.
  assert (H : worker_connections saturated_worker <= nr_conns saturated_worker)
    by (cbn; lia).
  split; [exact H|].
  destruct (saturated_iteration saturated_worker sample_tick H)
    as (r & w' & rest & Hrun & _ & Hev & _ & _ & Hreg & _).
  exists r, w', rest. split; [exact Hrun|]. split; [exact Hev|exact Hreg].
Defined.

Lemma access_log_and_post_request_witness :
  pre_request_res turn_broken = None /\
  create_res turn_broken = inr false /\
  wsgi_res turn_broken
    = inr (Body [Chunk "he" None; IterRaise (OtherError "boom")]) /\
  exists res w' writes tail,
    handle_request turn_broken 0 2 sample_worker = (res, w') /\
    new_events sample_worker w' =
      gate_events sample_worker 2 ++ EvApp 2%nat :: writes
      ++ [EvAccessLog 2%nat; EvIterClose 2%nat]
      ++ tail ++ [EvPostRequest 2%nat;
                  EvLog Exception "Exception in post_request hook"] /\
    fst (handle_request (set_post_request None turn_broken) 0 2 sample_worker)
    = res.
Proof.
  split; [reflexivity|]. split; [reflexivity|]. split; [reflexivity|].
  destruct (access_log_and_post_request sample_worker turn_broken 0 2 false
              (Body [Chunk "he" None; IterRaise (OtherError "boom")])
              eq_refl eq_refl eq_refl)
    as (res & w' & writes & tail & Hrun & _ & Hev & _ & _ & _ & Hpost).
  exists res, w', writes, tail. split; [exact Hrun|].
  split; [exact Hev|apply Hpost].
Defined.

Lemma beacon_init_witness :
  0 <= WorkerTmp.os_umask beacon_os <= 511 /\
  WorkerTmp.dir_ok beacon_cfg beacon_env /\
  WorkerTmp.mkstemp_res beacon_env = inr (7%nat, "k3x9") /\
  exists s',
    WorkerTmp.__init__ beacon_cfg beacon_env beacon_os
    = (Ret (WorkerTmp.mkWorkerTmp (WorkerTmp.mkFileObj 7 "w+b" 0)), s') /\
    WorkerTmp.os_umask s' = 2 /\
    WorkerTmp.os_files s' !! "/run/gunicorn/wgunicorn-k3x9" = None /\
    WorkerTmp.os_fds s' = [7%nat] /\
    WorkerTmp.os_calls s' =
      [WorkerTmp.SysUmask 18; WorkerTmp.SysIsdir "/run/gunicorn";
       WorkerTmp.SysMkstemp "/run/gunicorn" "wgunicorn-k3x9" 384;
       WorkerTmp.SysUmask 2;
       WorkerTmp.SysChown "/run/gunicorn/wgunicorn-k3x9" 33 33;
       WorkerTmp.SysUnlink "/run/gunicorn/wgunicorn-k3x9";
       WorkerTmp.SysFdopen 7 "w+b" 0].
Proof.
  assert (H1 : 0 <= WorkerTmp.os_umask beacon_os <= 511) by (cbn; lia).
  assert (H2 : WorkerTmp.dir_ok beacon_cfg beacon_env) by (intros d _ _; reflexivity).
  split; [exact H1|]. split; [exact H2|]. split; [reflexivity|].
  destruct (beacon_init beacon_cfg beacon_env beacon_os H1) as [Hmade _].
  destruct (Hmade 7%nat "k3x9"%string H2 eq_refl) as (_ & Hok).
  destruct (Hok eq_refl (fun _ => eq_refl) eq_refl eq_refl)
    as (s' & Hrun & Hu & Hp & Hf & Hc).
  exists s'. split; [exact Hrun|]. split; [exact Hu|]. split; [exact Hp|].
  split; [exact Hf|exact Hc].
Defined.

(** With an empty [worker_tmp_dir] no directory test is made and the
    file is made, and unlinked, in the current directory. *)
Lemma beacon_init_current_dir :
  exists s',
    WorkerTmp.__init__ beacon_cfg_cwd beacon_env_cwd beacon_os
    = (Ret (WorkerTmp.mkWorkerTmp (WorkerTmp.mkFileObj 7 "w+b" 0)), s') /\
    WorkerTmp.os_calls s' =
      [WorkerTmp.SysUmask 18;
       WorkerTmp.SysMkstemp "" "wgunicorn-k3x9" 384;
       WorkerTmp.SysUmask 2;
       WorkerTmp.SysUnlink "/srv/app/wgunicorn-k3x9";
       WorkerTmp.SysFdopen 7 "w+b" 0] /\
    WorkerTmp.os_files s' = ∅ /\ WorkerTmp.os_fds s' = [7%nat].
Proof.
  eexists. split; [vm_compute; reflexivity|]. vm_compute. auto.
Qed.

(** * Where the code departs from the specification *)

(** [finish_request] on a task that failed with an exception lowers
    [nr_conns] and closes the connection, and that is all: no call of the
    logger is made. *)
Lemma finish_request_failure_not_logged :
  fst (finish_request failed_future sample_worker) = Ret tt /\
  new_events sample_worker (snd (finish_request failed_future sample_worker))
  = [EvNrConns (-1); EvClose 102%nat] /\
  logged (new_events sample_worker
            (snd (finish_request failed_future sample_worker))) = [] /\
  ~ (exists lvl msg,
       In (EvLog lvl msg)
          (new_events sample_worker
             (snd (finish_request failed_future sample_worker)))).
Proof.
  vm_compute. repeat (split; [reflexivity|]).
  intros (lvl & msg & [H|[H|[]]]); discriminate.
Qed.


(** When the configured directory does not exist the constructor raises
    [RuntimeError] before [mkstemp]; the process umask is then the
    configured one. *)
Lemma beacon_init_missing_dir (cfg : WorkerTmp.TmpCfg) (env : WorkerTmp.TmpEnv)
    (s : WorkerTmp.OS) (d : string) :
  WorkerTmp.worker_tmp_dir cfg = Some d ->
  WorkerTmp.truthy (Some d) = true -> WorkerTmp.isdir env d = false ->
  exists s',
    WorkerTmp.__init__ cfg env s = (Raise RuntimeError, s') /\
    WorkerTmp.os_umask s' = Z.land (WorkerTmp.umask cfg) 511 /\
    WorkerTmp.os_files s' = WorkerTmp.os_files s /\
    WorkerTmp.os_calls s' =
      WorkerTmp.os_calls s
      ++ [WorkerTmp.SysUmask (WorkerTmp.umask cfg); WorkerTmp.SysIsdir d].
Proof.
  intros Hd Htr Hdir. unfold WorkerTmp.__init__.
  unfold WorkerTmp.tbind at 1. unfold WorkerTmp.os_umask_set at 1.
  unfold WorkerTmp.tbind at 1. rewrite Hd, Htr.
  unfold WorkerTmp.tbind at 1. unfold WorkerTmp.call at 1. rewrite Hdir.
  eexists. split; [reflexivity|]. cbn. rewrite <- app_assoc. auto.
Qed.

(** With a configured directory that does not exist the constructor
    raises [RuntimeError] right after the directory test: [mkstemp] is not
    called, no file is made, and the process umask, 2 before, is the
    configured 18. *)
Lemma beacon_missing_directory :
  fst (WorkerTmp.__init__ beacon_cfg beacon_env_missing beacon_os)
  = Raise RuntimeError /\
  WorkerTmp.os_calls (snd (WorkerTmp.__init__ beacon_cfg beacon_env_missing beacon_os))
  = [WorkerTmp.SysUmask 18; WorkerTmp.SysIsdir "/run/gunicorn"] /\
  WorkerTmp.os_files (snd (WorkerTmp.__init__ beacon_cfg beacon_env_missing beacon_os))
  = WorkerTmp.os_files beacon_os /\
  WorkerTmp.os_fds (snd (WorkerTmp.__init__ beacon_cfg beacon_env_missing beacon_os))
  = [] /\
  WorkerTmp.os_umask beacon_os = 2 /\
  WorkerTmp.os_umask (snd (WorkerTmp.__init__ beacon_cfg beacon_env_missing beacon_os))
  = 18.
Proof. repeat split; reflexivity. Qed.

(** * Further properties of the worker *)

(** ** The keepalive deque and the selector stay in agreement *)

Lemma coherent_keep_timed (w : Worker) : coherent w -> keep_timed w.
Proof.
  intros (_ & Hmem & _). unfold keep_timed. apply Forall_forall.
  intros c Hc. apply Hmem. exact Hc.
Qed.

(** Members of the deque have distinct sockets. *)
Lemma coherent_fd_inj (w : Worker) (c c' : nat) :
  coherent w -> c ∈ _keep w -> c' ∈ _keep w ->
  conn_fd w c = conn_fd w c' -> c = c'.
Proof.
  intros (_ & Hmem & _) Hc Hc' Hfd.
  destruct (Hmem c Hc) as (_ & _ & Hp). destruct (Hmem c' Hc') as (_ & _ & Hp').
  rewrite Hfd in Hp. rewrite Hp in Hp'. congruence.
Qed.

(** Taking the head off the deque, with or without its registration. *)
Lemma coherent_pop (w w' : Worker) (c : nat) (k : list nat) :
  coherent w -> _keep w = c :: k -> _keep w' = k ->
  (poller w' = poller w \/ poller w' = delete (conn_fd w c) (poller w)) ->
  conns w' = conns w -> next_conn w' = next_conn w ->
  coherent w'.
Proof.
  intros Hco Hk Hk' Hp Hc Hn. pose proof Hco as (Hnd & Hmem & Hreg).
  rewrite Hk in Hnd. apply NoDup_cons in Hnd. destruct Hnd as [Hnotin Hnd].
  unfold coherent, deadline, conn_fd in *. rewrite Hk', Hc, Hn.
  split; [exact Hnd|]. split.
  - intros c' Hc'.
    assert (Hin : c' ∈ _keep w) by (rewrite Hk; right; exact Hc').
    destruct (Hmem c' Hin) as (Hd & Hi & Hpc). split; [exact Hd|]. split; [exact Hi|].
    destruct Hp as [-> | ->]; [exact Hpc|].
    rewrite lookup_delete_ne; [exact Hpc|].
    intros Heq.
    assert (Hcin : c ∈ _keep w) by (rewrite Hk; left).
    destruct (Hmem c Hcin) as (_ & _ & Hpc0).
    rewrite Heq in Hpc0. rewrite Hpc0 in Hpc. inversion Hpc; subst. contradiction.
  - intros fd c' Hl. apply Hreg.
    destruct Hp as [Hp | Hp]; rewrite Hp in Hl; [exact Hl|].
    rewrite lookup_delete in Hl. case_decide; [discriminate|exact Hl].
Qed.

(** Only the log changed. *)
Lemma coherent_same (w w' : Worker) :
  coherent w -> _keep w' = _keep w -> poller w' = poller w ->
  conns w' = conns w -> next_conn w' = next_conn w -> coherent w'.
Proof.
  unfold coherent, deadline, conn_fd. intros H -> -> -> ->. exact H.
Qed.

Lemma murder_body_coherent now w :
  coherent w -> coherent (snd (murder_body now w)).
Proof.
  intros Hco.
  destruct (_keep w) as [|c k] eqn:Hk.
  - rewrite (murder_body_empty now w Hk). cbn [snd].
    apply (coherent_same w); auto.
  - destruct (timeout (conns w c)) as [t|] eqn:Ht.
    + destruct (Z_lt_le_dec now t) as [Hlt|Hle].
      * rewrite (murder_body_stop now w c k t Hk Ht Hlt). cbn [snd].
        apply (coherent_same w); auto.
      * destruct (unregister_tolerated w (conn_fd w c)) eqn:Htol.
        -- rewrite (murder_body_reap now w c k t Hk Ht Hle Htol). cbn [snd].
           apply (coherent_pop w _ c k Hco Hk); try reflexivity.
           cbn [poller set_trace set_poller]. unfold reap_poller.
           destruct (unregister_fault (env w) (conn_fd w c)); auto.
        -- unfold unregister_tolerated in Htol.
           destruct (unregister_fault (env w) (conn_fd w c)) as [e|] eqn:Hf; [|discriminate].
           rewrite (murder_body_fatal now w c k t e Hk Ht Hle Hf Htol). cbn [snd].
           apply (coherent_pop w _ c k Hco Hk); try reflexivity. left. reflexivity.
    + rewrite (murder_body_untimed now w c k Hk Ht). cbn [snd].
      apply (coherent_pop w _ c k Hco Hk); try reflexivity. left. reflexivity.
Qed.

Lemma murder_loop_coherent now (fuel : nat) :
  forall w : Worker, coherent w -> coherent (snd (murder_loop fuel now w)).
Proof.
  induction fuel as [|k IH]; intros w Hco; [exact Hco|].
  unfold murder_loop in *. cbn [while_true]. unfold bind at 1.
  pose proof (murder_body_coherent now w Hco) as Hstep.
  destruct (murder_body now w) as [[[|]|e|] w1]; cbn [snd] in *; auto.
Qed.

(** A new connection object, registered or not. *)
Lemma coherent_accepted (w w' : Worker) (o : TConn) :
  coherent w -> _keep w' = _keep w ->
  conns w' = heap_set (next_conn w) o (conns w) ->
  next_conn w' = S (next_conn w) ->
  (poller w' = poller w \/
   (poller w !! sock o = None /\
    poller w' = <[sock o := Readable (next_conn w)]> (poller w))) ->
  coherent w'.
Proof.
  intros (Hnd & Hmem & Hreg) Hk Hc Hn Hp.
  assert (Hold : forall c, (c < next_conn w)%nat -> conns w' c = conns w c).
  { intros c Hlt. rewrite Hc. unfold heap_set.
    destruct (Nat.eqb_spec c (next_conn w)); [lia|reflexivity]. }
  assert (Hlt : forall c, c ∈ _keep w -> (c < next_conn w)%nat).
  { intros c Hin. destruct (Hmem c Hin) as (_ & _ & Hpc). apply (Hreg _ _ Hpc). }
  unfold coherent, deadline, conn_fd in *. rewrite Hk, Hn.
  split; [exact Hnd|]. split.
  - intros c Hin. rewrite (Hold c (Hlt c Hin)).
    destruct (Hmem c Hin) as (Hd & Hi & Hpc). split; [exact Hd|]. split; [exact Hi|].
    destruct Hp as [-> | [Hfree ->]]; [exact Hpc|].
    rewrite lookup_insert_ne; [exact Hpc|]. intros Heq. rewrite <- Heq, Hfree in Hpc.
    discriminate.
  - intros fd c Hl.
    destruct Hp as [Hp | [Hfree Hp]]; rewrite Hp in Hl.
    + destruct (Hreg fd c Hl) as [Hfd Hc']. rewrite (Hold c Hc'). split; [exact Hfd|lia].
    + rewrite lookup_insert in Hl. case_decide as Hd.
      * inversion Hl; subst c. split; [|lia]. rewrite Hc. unfold heap_set.
        rewrite Nat.eqb_refl. exact Hd.
      * destruct (Hreg fd c Hl) as [Hfd Hc']. rewrite (Hold c Hc'). split; [exact Hfd|lia].
Qed.


(** A registered connection leaves the selector, and the deque if it was
    in it. *)
Lemma coherent_taken (w w' : Worker) (conn fd : nat) :
  coherent w -> poller w !! fd = Some (Readable conn) ->
  NoDup (_keep w') ->
  (forall c, c ∈ _keep w' -> c ∈ _keep w /\ c <> conn) ->
  poller w' = delete fd (poller w) ->
  (forall c, same_conn (conns w c) (conns w' c)) ->
  next_conn w' = next_conn w ->
  coherent w'.
Proof.
  intros (Hnd & Hmem & Hreg) Hkey Hnd' Hsub Hp Hc Hn.
  unfold coherent, deadline, conn_fd in *. rewrite Hn.
  split; [exact Hnd'|]. split.
  - intros c Hin. destruct (Hsub c Hin) as [Hin0 Hne].
    destruct (Hmem c Hin0) as (Hd & Hi & Hpc).
    destruct (Hc c) as (Hs & Ht & Hini). rewrite Hs, Ht.
    split; [exact Hd|]. split; [apply Hini; exact Hi|].
    rewrite Hp, lookup_delete_ne; [exact Hpc|].
    intros Heq. rewrite <- Heq, Hkey in Hpc. congruence.
  - intros fd' c Hl. rewrite Hp in Hl. rewrite lookup_delete in Hl.
    case_decide; [discriminate|]. destruct (Hc c) as (Hs & _). rewrite Hs.
    apply Hreg. exact Hl.
Qed.

(** A connection comes back to the deque and the selector. *)
Lemma coherent_kept (w w' : Worker) (C : nat) (t : Z) :
  coherent w -> poller w !! conn_fd w C = None ->
  initialized (conns w C) = true -> (C < next_conn w)%nat ->
  _keep w' = _keep w ++ [C] ->
  poller w' = <[conn_fd w C := Readable C]> (poller w) ->
  (forall c, sock (conns w' c) = sock (conns w c) /\
             initialized (conns w' c) = initialized (conns w c)) ->
  (forall c, c <> C -> timeout (conns w' c) = timeout (conns w c)) ->
  timeout (conns w' C) = Some t ->
  next_conn w' = next_conn w ->
  coherent w'.
Proof.
  intros (Hnd & Hmem & Hreg) Hfree Hinit Hlt Hk Hp Hc Ht HtC Hn.
  assert (HnotC : C ∉ _keep w).
  { intros Hin. destruct (Hmem C Hin) as (_ & _ & Hpc). rewrite Hfree in Hpc.
    discriminate. }
  unfold coherent, deadline, conn_fd in *. rewrite Hk, Hn, Hp.
  split.
  { apply NoDup_app. split; [exact Hnd|]. split.
    - intros x Hx Hx'. apply list_elem_of_singleton in Hx'. subst x. contradiction.
    - apply NoDup_singleton. }
  split.
  - intros c Hin. destruct (Hc c) as [Hs Hi]. rewrite Hs, Hi.
    apply elem_of_app in Hin. destruct Hin as [Hin | Hin].
    + assert (Hne : c <> C) by (intros ->; contradiction).
      destruct (Hmem c Hin) as (Hd & Hi0 & Hpc). rewrite (Ht c Hne).
      split; [exact Hd|]. split; [exact Hi0|].
      rewrite lookup_insert_ne; [exact Hpc|].
      intros Heq. rewrite <- Heq, Hfree in Hpc. discriminate.
    + apply list_elem_of_singleton in Hin. subst c. rewrite HtC.
      split; [eexists; reflexivity|]. split; [exact Hinit|].
      apply lookup_insert_eq.
  - intros fd c Hl. destruct (Hc c) as [Hs _]. rewrite Hs.
    rewrite lookup_insert in Hl. case_decide as Hd.
    + inversion Hl; subst c. split; [exact Hd|exact Hlt].
    + apply Hreg. exact Hl.
Qed.

Ltac same_tac conn :=
  let c := fresh "c" in
  intros c; cbn -[insert delete lookup]; unfold heap_set, same_conn;
  cbn beta;
  destruct (Nat.eqb_spec c conn);
  [subst; rewrite ?Nat.eqb_refl|]; cbn; auto.

Ltac frame_one :=
  unfold dispatcher_frame, loop_frame; cbn -[insert delete lookup Z.add Z.sub];
  rewrite ?app_nil_r; repeat split; first [reflexivity | lia].

Ltac frame_tac :=
  unfold dispatcher_frame, loop_frame; cbn -[insert delete lookup Z.add Z.sub];
  rewrite <- ?app_assoc; repeat split; first [reflexivity | lia].

(** What a call of the acceptor does to the worker, on every outcome. *)
Lemma accept_summary (srv listener : nat) (w : Worker) :
  exists r w' evs,
    accept srv listener w = (r, w') /\ r <> OutOfFuel /\
    dispatcher_frame w w' evs /\ reapless evs = true /\
    nr_conns w <= nr_conns w' <= nr_conns w + 1 /\
    _keep w' = _keep w /\ poller w ⊆ poller w' /\
    (coherent w -> coherent w').
Proof.
  unfold accept, new_TConn. run.
  destruct (accept_result (env w) listener) as [e|[fd peer]] eqn:Hacc.
  - run.
    destruct (is_OSError e);
      [destruct (errno_in e [Errno.EAGAIN; Errno.ECONNABORTED; Errno.EWOULDBLOCK])|];
      run; do 3 eexists; (split; [reflexivity|]); (split; [discriminate|]);
      (split; [frame_tac|]); (split; [reflexivity|]); cbn -[insert delete lookup Z.add];
      (split; [lia|]); (split; [reflexivity|]); (split; [reflexivity|]);
      intros Hco; apply (coherent_same w); auto.
  - run.
    destruct (register_fault (env w) fd) as [e|] eqn:Hf.
    + run.
      destruct (is_OSError e);
        [destruct (errno_in e [Errno.EAGAIN; Errno.ECONNABORTED; Errno.EWOULDBLOCK])|];
        run; do 3 eexists; (split; [reflexivity|]); (split; [discriminate|]);
        (split; [frame_tac|]); (split; [reflexivity|]); cbn -[insert delete lookup Z.add];
        (split; [lia|]); (split; [reflexivity|]); (split; [reflexivity|]);
        intros Hco;
        apply (coherent_accepted w _ (mkTConn fd peer srv None false false false) Hco);
        try reflexivity; left; reflexivity.
    + destruct (poller w !! fd) as [cb|] eqn:Hp; run;
        do 3 eexists; (split; [reflexivity|]); (split; [discriminate|]);
        (split; [frame_tac|]); (split; [reflexivity|]); cbn -[insert delete lookup Z.add];
        (split; [lia|]); (split; [reflexivity|]).
      * split; [reflexivity|]. intros Hco.
        apply (coherent_accepted w _ (mkTConn fd peer srv None false false false) Hco);
          try reflexivity; left; reflexivity.
      * split; [apply insert_subseteq; exact Hp|]. intros Hco.
        apply (coherent_accepted w _ (mkTConn fd peer srv None false false false) Hco);
          try reflexivity. right. split; [exact Hp|reflexivity].
Qed.

Lemma NoDup_remove_first (c : nat) (l k : list nat) :
  NoDup l -> remove_first c l = Some k ->
  NoDup k /\ forall x, x ∈ k -> x ∈ l /\ x <> c.
Proof.
  intros Hnd Hrm. destruct (remove_first_Some _ _ _ Hrm) as (l1 & l2 & Hl & _ & Hk).
  subst l k. apply NoDup_app in Hnd. destruct Hnd as (H1 & H12 & H2).
  apply NoDup_cons in H2. destruct H2 as [Hc2 H2].
  split.
  - apply NoDup_app. split; [exact H1|]. split; [|exact H2].
    intros x Hx Hx'. apply (H12 x Hx). right. exact Hx'.
  - intros x Hx. apply elem_of_app in Hx. destruct Hx as [Hx|Hx].
    + split; [apply elem_of_app; left; exact Hx|].
      intros ->. apply (H12 c Hx). left.
    + split; [apply elem_of_app; right; right; exact Hx|].
      intros ->. contradiction.
Qed.

Lemma same_conn_refl (o : TConn) : same_conn o o.
Proof. unfold same_conn. auto. Qed.

(** What the wake-up path does to the worker, on every outcome. *)
Lemma readable_summary (conn fd : nat) (w : Worker) :
  exists r w' evs,
    on_client_socket_readable conn fd w = (r, w') /\ r <> OutOfFuel /\
    dispatcher_frame w w' evs /\ reapless evs = true /\
    nr_conns w' = nr_conns w /\
    (forall fd2, fd2 <> fd -> poller w' !! fd2 = poller w !! fd2) /\
    (coherent w ->
     poller w !! fd = None \/ poller w !! fd = Some (Readable conn) ->
     coherent w').
Proof.
  unfold on_client_socket_readable, keep_remove, enqueue_req, conn_init,
    tpool_submit, _wrap_future. run.
  destruct (unregister_fault (env w) fd) as [e|] eqn:Hf.
  { run. do 3 eexists. split; [reflexivity|]. split; [discriminate|].
    split; [frame_tac|]. split; [reflexivity|]. cbn -[insert delete lookup].
    split; [reflexivity|]. split; [reflexivity|].
    intros Hco _. apply (coherent_same w); auto. }
  destruct (poller w !! fd) as [cb|] eqn:Hp.
  2:{ run. do 3 eexists. split; [reflexivity|]. split; [discriminate|].
      split; [frame_tac|]. split; [reflexivity|]. cbn -[insert delete lookup].
      split; [reflexivity|]. split; [reflexivity|].
      intros Hco _. apply (coherent_same w); auto. }
  run.
  destruct (initialized (conns w conn)) eqn:Hini.
  - run. destruct (remove_first conn (_keep w)) as [k|] eqn:Hrm.
    + run. unfold heap_set at 1 2 3. rewrite ?Nat.eqb_refl. cbn.
      destruct (parser (conns w conn)) eqn:Hpar; run;
        do 3 eexists; (split; [reflexivity|]); (split; [discriminate|]);
        (split; [frame_tac|]); (split; [reflexivity|]); cbn -[insert delete lookup];
        (split; [reflexivity|]);
        (split; [intros fd2 Hne; apply lookup_delete_ne; congruence|]);
        intros Hco [Hk|Hk]; try discriminate; inversion Hk; subst cb;
        destruct (NoDup_remove_first conn _ k (proj1 Hco) Hrm) as [Hnd Hsub];
        apply (coherent_taken w _ conn fd Hco Hp); try reflexivity;
        try exact Hnd; try exact Hsub;
        same_tac conn.
    + run. do 3 eexists. split; [reflexivity|]. split; [discriminate|].
      split; [frame_tac|]. split; [reflexivity|]. cbn -[insert delete lookup].
      split; [reflexivity|].
      split; [intros fd2 Hne; apply lookup_delete_ne; congruence|].
      intros Hco [Hk|Hk]; [discriminate|]. inversion Hk; subst cb.
      apply remove_first_None in Hrm.
      apply (coherent_taken w _ conn fd Hco Hp); try reflexivity.
      * exact (proj1 Hco).
      * intros c Hc. split; [exact Hc|]. intros ->. contradiction.
      * intros c. apply same_conn_refl.
  - run. unfold heap_set at 1 2 3. rewrite ?Nat.eqb_refl. cbn.
    destruct (parser (conns w conn)) eqn:Hpar; run;
      do 3 eexists; (split; [reflexivity|]); (split; [discriminate|]);
      (split; [frame_tac|]); (split; [reflexivity|]); cbn -[insert delete lookup];
      (split; [reflexivity|]);
      (split; [intros fd2 Hne; apply lookup_delete_ne; congruence|]);
      intros Hco [Hk|Hk]; try discriminate; inversion Hk; subst cb;
      apply (coherent_taken w _ conn fd Hco Hp); try reflexivity;
      try exact (proj1 Hco);
      [intros c Hc; split; [exact Hc|]; intros ->;
       destruct Hco as (_ & Hmem & _); destruct (Hmem conn Hc) as (_ & Hi & _);
       congruence
      |same_tac conn
      |intros c Hc; split; [exact Hc|]; intros ->;
       destruct Hco as (_ & Hmem & _); destruct (Hmem conn Hc) as (_ & Hi & _);
       congruence
      |same_tac conn].
Qed.

Lemma calm_app (l1 l2 : list event) :
  calm l1 = true -> calm l2 = true -> calm (l1 ++ l2) = true.
Proof. unfold calm. intros H1 H2. rewrite forallb_app, H1, H2. reflexivity. Qed.

Lemma reapless_app (l1 l2 : list event) :
  reapless l1 = true -> reapless l2 = true -> reapless (l1 ++ l2) = true.
Proof. unfold reapless. intros H1 H2. rewrite forallb_app, H1, H2. reflexivity. Qed.

Lemma loop_frame_trans (w w1 w2 : Worker) (e1 e2 : list event) :
  loop_frame w w1 e1 -> loop_frame w1 w2 e2 -> loop_frame w w2 (e1 ++ e2).
Proof.
  unfold loop_frame.
  intros (A1 & A2 & A3 & A4 & A5 & A6 & A7 & A8) (B1 & B2 & B3 & B4 & B5 & B6 & B7 & B8).
  repeat split; try congruence; try lia.
  - rewrite B7, A7, app_assoc. reflexivity.
  - apply calm_app; assumption.
Qed.

Lemma dispatcher_frame_trans (w w1 w2 : Worker) (e1 e2 : list event) :
  dispatcher_frame w w1 e1 -> dispatcher_frame w1 w2 e2 ->
  dispatcher_frame w w2 (e1 ++ e2).
Proof.
  unfold dispatcher_frame. intros (A & A1 & A2) (B & B1 & B2).
  split; [eapply loop_frame_trans; eassumption|]. split; congruence.
Qed.

Lemma dispatcher_frame_refl (w : Worker) : dispatcher_frame w w [].
Proof.
  unfold dispatcher_frame, loop_frame. rewrite app_nil_r. repeat split; auto.
Qed.

(** What a turn of the reaper's loop does to the worker. *)
Lemma murder_body_frame now w :
  exists r w1 evs,
    murder_body now w = (r, w1) /\ dispatcher_frame w w1 evs /\
    nr_conns w1 <= nr_conns w.
Proof.
  destruct (_keep w) as [|c k] eqn:Hk.
  - rewrite (murder_body_empty now w Hk). do 3 eexists.
    split; [reflexivity|]. split; [frame_tac|]. cbn; lia.
  - destruct (timeout (conns w c)) as [t|] eqn:Ht.
    + destruct (Z_lt_le_dec now t) as [Hlt|Hle].
      * rewrite (murder_body_stop now w c k t Hk Ht Hlt). do 3 eexists.
        split; [reflexivity|]. split; [frame_tac|]. cbn; lia.
      * destruct (unregister_tolerated w (conn_fd w c)) eqn:Htol.
        -- rewrite (murder_body_reap now w c k t Hk Ht Hle Htol). do 3 eexists.
           split; [reflexivity|]. split; [frame_tac|]. cbn; lia.
        -- unfold unregister_tolerated in Htol.
           destruct (unregister_fault (env w) (conn_fd w c)) as [e|] eqn:Hf; [|discriminate].
           rewrite (murder_body_fatal now w c k t e Hk Ht Hle Hf Htol). do 3 eexists.
           split; [reflexivity|]. split; [frame_tac|]. cbn; lia.
    + rewrite (murder_body_untimed now w c k Hk Ht). do 3 eexists.
      split; [reflexivity|]. split; [frame_tac|]. cbn; lia.
Qed.

Lemma murder_loop_frame now (fuel : nat) :
  forall w : Worker,
    exists r w' evs,
      murder_loop fuel now w = (r, w') /\ dispatcher_frame w w' evs /\
      nr_conns w' <= nr_conns w /\ (coherent w -> coherent w').
Proof.
  induction fuel as [|k IH]; intros w.
  - exists OutOfFuel, w, []. split; [reflexivity|].
    split; [apply dispatcher_frame_refl|]. split; [lia|auto].
  - destruct (murder_body_frame now w) as (r1 & w1 & evs1 & Hstep & Hfr & Hn).
    pose proof (murder_body_coherent now w) as Hco1. rewrite Hstep in Hco1.
    cbn [snd] in Hco1.
    unfold murder_loop in *. cbn [while_true]. unfold bind at 1. rewrite Hstep.
    destruct r1 as [[|]|e|].
    + exists (Ret tt), w1, evs1. auto.
    + destruct (IH w1) as (r & w' & evs & Hrun & Hfr' & Hn' & Hco').
      exists r, w', (evs1 ++ evs). split; [exact Hrun|].
      split; [eapply dispatcher_frame_trans; eassumption|].
      split; [lia|auto].
    + exists (Raise e), w1, evs1. auto.
    + exists OutOfFuel, w1, evs1. auto.
Qed.

(** What the reaper does to the worker, on every outcome. *)
Lemma murder_keepalived_summary (w : Worker) :
  exists r w' evs,
    murder_keepalived w = (r, w') /\ r <> OutOfFuel /\
    dispatcher_frame w w' evs /\
    nr_conns w' <= nr_conns w /\ (coherent w -> coherent w').
Proof.
  destruct (murder_loop_frame (clock w) (S (length (_keep w))) w)
    as (r & w' & evs & Hrun & Hfr & Hn & Hco).
  destruct (murder_loop_total (clock w) (S (length (_keep w))) w)
    as (r2 & w2 & evs2 & Hrun2 & Hr2 & _); [lia|].
  rewrite murder_keepalived_unfold. exists r, w', evs.
  split; [exact Hrun|]. split; [|auto].
  rewrite Hrun in Hrun2. inversion Hrun2; subst. exact Hr2.
Qed.

(** What the completion callback does to the worker. *)
Lemma finish_request_summary (fs : Future) (w : Worker) :
  exists w' evs,
    finish_request fs w = (Ret tt, w') /\
    dispatcher_frame w w' evs /\
    nr_conns w - 1 <= nr_conns w' <= nr_conns w /\
    (coherent w ->
     (forall C, fut_state fs = Finished true C -> alive w = true ->
                register_fault (env w) (conn_fd w C) = None /\
                poller w !! conn_fd w C = None /\
                initialized (conns w C) = true /\ (C < next_conn w)%nat) ->
     coherent w').
Proof.
  unfold finish_request, conn_set_timeout.
  destruct (fut_state fs) as [|k C|e] eqn:Hst.
  - run. do 2 eexists. split; [reflexivity|]. split; [frame_tac|].
    cbn. split; [lia|]. intros Hco _. apply (coherent_same w); auto.
  - run. destruct (k && alive w) eqn:Hk.
    + apply andb_true_iff in Hk. destruct Hk as [-> Hal]. run.
      unfold conn_fd.
      destruct (register_fault (env w) (sock (conns w C))) as [e|] eqn:Hf;
        [|destruct (poller w !! sock (conns w C)) as [cb|] eqn:Hp];
        run; do 2 eexists; (split; [reflexivity|]); (split; [frame_tac|]);
        cbn -[insert delete lookup Z.add Z.sub]; (split; [lia|]);
        intros Hco Hpre; destruct (Hpre C eq_refl Hal) as (Hf' & Hp' & Hi & Hlt);
        unfold conn_fd in *; try congruence.
      eapply (coherent_kept w _ C); try eassumption; try reflexivity.
      * intros c. cbn. unfold heap_set.
        destruct (Nat.eqb_spec c C); [subst|]; cbn; auto.
      * intros c Hne. cbn. unfold heap_set.
        destruct (Nat.eqb_spec c C); [contradiction|reflexivity].
      * cbn. unfold heap_set. rewrite Nat.eqb_refl. reflexivity.
    + run. do 2 eexists. split; [reflexivity|]. split; [frame_tac|].
      cbn. split; [lia|]. intros Hco _. apply (coherent_same w); auto.
  - run. do 2 eexists. split; [reflexivity|]. split; [frame_tac|].
    cbn. split; [lia|]. intros Hco _. apply (coherent_same w); auto.
Qed.

(** What one ready key does to the worker. *)
Lemma dispatch_summary (key : nat * callback) (w : Worker) :
  exists r w' evs,
    dispatch key w = (r, w') /\ r <> OutOfFuel /\
    dispatcher_frame w w' evs /\ reapless evs = true /\
    nr_conns w <= nr_conns w' <=
      nr_conns w + (if is_acceptor key then 1 else 0) /\
    (forall fd2 cb, fd2 <> fst key -> poller w !! fd2 = Some cb ->
                    poller w' !! fd2 = Some cb) /\
    (coherent w -> poller w !! fst key = Some (snd key) -> coherent w').
Proof.
  destruct key as [fd [srv|conn]]; unfold dispatch, is_acceptor; cbn [fst snd].
  - destruct (accept_summary srv fd w)
      as (r & w' & evs & Hrun & Hr & Hfr & Hre & Hn & _ & Hsub & Hco).
    exists r, w', evs. split; [exact Hrun|]. split; [exact Hr|].
    split; [exact Hfr|]. split; [exact Hre|]. split; [lia|].
    split; [|intros Hc _; auto].
    intros fd2 cb _ Hl. eapply lookup_weaken; eassumption.
  - destruct (readable_summary conn fd w)
      as (r & w' & evs & Hrun & Hr & Hfr & Hre & Hn & Hp & Hco).
    exists r, w', evs. split; [exact Hrun|]. split; [exact Hr|].
    split; [exact Hfr|]. split; [exact Hre|]. split; [lia|].
    split; [|intros Hc Hk; auto].
    intros fd2 cb Hne Hl. rewrite (Hp fd2 Hne). exact Hl.
Qed.

(** The keys one [select] returned, served in turn. *)
Lemma foreach_dispatch_summary (keys : list (nat * callback)) :
  forall w : Worker,
    NoDup (map fst keys) ->
    Forall (fun key => poller w !! fst key = Some (snd key)) keys ->
    exists r w' evs,
      foreach keys dispatch w = (r, w') /\ r <> OutOfFuel /\
      dispatcher_frame w w' evs /\ reapless evs = true /\
      nr_conns w <= nr_conns w' <=
        nr_conns w + Z.of_nat (length (List.filter is_acceptor keys)) /\
      (coherent w -> coherent w').
Proof.
  induction keys as [|key keys IH]; intros w Hnd Hall.
  - exists (Ret tt), w, []. split; [reflexivity|]. split; [discriminate|].
    split; [apply dispatcher_frame_refl|]. split; [reflexivity|].
    cbn [List.filter length]. split; [lia|auto].
  - cbn [map] in Hnd. apply NoDup_cons in Hnd. destruct Hnd as [Hnin Hnd].
    apply Forall_cons in Hall. destruct Hall as [Hkey Hall].
    destruct (dispatch_summary key w)
      as (r1 & w1 & evs1 & Hrun1 & Hr1 & Hfr1 & Hre1 & Hn1 & Hp1 & Hco1).
    cbn [foreach]. unfold bind at 1. rewrite Hrun1.
    assert (Hlen : 0 <= Z.of_nat (length (List.filter is_acceptor keys))) by lia.
    destruct r1 as [[]|e|].
    + destruct (IH w1 Hnd) as (r & w' & evs & Hrun & Hr & Hfr & Hre & Hn & Hco).
      { apply Forall_forall. intros k Hk.
        rewrite Forall_forall in Hall. apply Hp1; [|apply Hall; exact Hk].
        intros Heq. apply Hnin. rewrite <- Heq.
        apply list_elem_of_In, in_map_iff. exists k.
        split; [reflexivity|apply list_elem_of_In; exact Hk]. }
      exists r, w', (evs1 ++ evs). split; [exact Hrun|]. split; [exact Hr|].
      split; [eapply dispatcher_frame_trans; eassumption|].
      split; [apply reapless_app; assumption|].
      split; [|auto]. cbn [List.filter]. destruct (is_acceptor key); cbn [length]; lia.
    + exists (Raise e), w1, evs1. split; [reflexivity|]. split; [discriminate|].
      split; [exact Hfr1|]. split; [exact Hre1|].
      split; [|auto]. cbn [List.filter]. destruct (is_acceptor key); cbn [length]; lia.
    + contradiction.
Qed.

Lemma selected_spec (w : Worker) (fds : list nat) :
  NoDup fds ->
  NoDup (map fst (selected w fds)) /\
  Forall (fun key => poller w !! fst key = Some (snd key)) (selected w fds).
Proof.
  unfold selected. induction fds as [|fd fds IH]; intros Hnd.
  - cbn. split; constructor.
  - apply NoDup_cons in Hnd. destruct Hnd as [Hnin Hnd].
    destruct (IH Hnd) as [IH1 IH2]. cbn [omap list_omap].
    destruct (poller w !! fd) as [cb|] eqn:Hp; [|auto].
    split.
    + cbn [map fst]. apply NoDup_cons. split; [|exact IH1].
      intros Hin. apply list_elem_of_In, in_map_iff in Hin.
      destruct Hin as ([fd' cb'] & Heq & Hin).
      cbn in Heq. subst fd'. apply list_elem_of_In, list_elem_of_omap in Hin.
      destruct Hin as (x & Hx & Hsome). destruct (poller w !! x); [|discriminate].
      inversion Hsome; subst. contradiction.
    + constructor; [exact Hp|exact IH2].
Qed.

Lemma foreach_futures_remove_frame (l : list nat) :
  forall w : Worker,
    exists r w',
      foreach l futures_remove w = (r, w') /\ r <> OutOfFuel /\
      dispatcher_frame w w' [] /\ nr_conns w' = nr_conns w /\
      _keep w' = _keep w /\ poller w' = poller w /\ conns w' = conns w /\
      next_conn w' = next_conn w.
Proof.
  induction l as [|f l IH]; intros w.
  - exists (Ret tt), w. split; [reflexivity|]. split; [discriminate|].
    split; [apply dispatcher_frame_refl|]. repeat split; reflexivity.
  - cbn [foreach]. unfold bind at 1. unfold futures_remove at 1.
    unfold bind at 1. unfold get at 1.
    destruct (remove_first f (futures w)) as [k|].
    + cbn [modify].
      destruct (IH (set_futures k w)) as (r & w' & Hrun & Hr & Hfr & H1 & H2 & H3 & H4 & H5).
      exists r, w'. split; [exact Hrun|]. split; [exact Hr|].
      split; [|cbn in *; repeat split; congruence].
      apply (dispatcher_frame_trans w (set_futures k w) w' [] []); [|exact Hfr].
      frame_one.
    + exists (Raise ValueError), w. split; [reflexivity|]. split; [discriminate|].
      split; [apply dispatcher_frame_refl|]. repeat split; reflexivity.
Qed.

Lemma coherent_set_world (e : Env) (now : Z) (w : Worker) :
  coherent w -> coherent (set_world e now w).
Proof. intros Hco. apply (coherent_same w); auto. Qed.

Lemma bind_run {A B} (m : M A) (k : A -> M B) (w w1 : Worker) (r : result A) :
  m w = (r, w1) ->
  bind m k w = match r with
               | Ret a => k a w1
               | Raise e => (Raise e, w1)
               | OutOfFuel => (OutOfFuel, w1)
               end.
Proof. intros H. unfold bind. rewrite H. destruct r; reflexivity. Qed.

(** The part of a turn that waits: [select] and the callbacks when there
    is room, then [futures.wait]. *)
Lemma waiting_summary (t : Tick) (w : Worker) :
  NoDup (ready t) ->
  exists r w' evs,
    (if nr_conns w <? worker_connections w then
       events <- poller_select 1 (ready t) ;;
       foreach events dispatch ;;
       futures_wait 0 true (completed t)
     else futures_wait 1 true (completed t)) w = (r, w') /\
    r <> OutOfFuel /\ dispatcher_frame w w' evs /\ reapless evs = true /\
    nr_conns w' <= nr_conns w +
      (if nr_conns w <? worker_connections w
       then Z.of_nat (ready_listeners w (ready t)) else 0) /\
    (coherent w -> coherent w').
Proof.
  intros Hnd. unfold ready_listeners.
  destruct (nr_conns w <? worker_connections w).
  - destruct (selected_spec w (ready t) Hnd) as [Hs1 Hs2].
    destruct (foreach_dispatch_summary (selected w (ready t))
                (set_trace (trace w ++ [EvSelect 1]) w) Hs1 Hs2)
      as (r & w' & evs & Hrun & Hr & Hfr & Hre & Hn & Hco).
    rewrite (bind_run (poller_select 1 (ready t)) _ w
               (set_trace (trace w ++ [EvSelect 1]) w)
               (Ret (selected w (ready t)))) by reflexivity.
    rewrite (bind_run _ _ _ _ _ Hrun).
    destruct r as [[]|e|]; [| |contradiction].
    + do 2 eexists. exists ([EvSelect 1] ++ evs ++ [EvWait 0 true]).
      split; [reflexivity|]. split; [discriminate|].
      split.
      { apply (dispatcher_frame_trans w
                 (set_trace (trace w ++ [EvSelect 1]) w) _
                 [EvSelect 1] (evs ++ [EvWait 0 true])).
        - frame_one.
        - apply (dispatcher_frame_trans _ w' _ evs [EvWait 0 true]); [exact Hfr|].
          frame_one. }
      split; [apply (reapless_app [EvSelect 1]); [reflexivity|];
              apply reapless_app; [exact Hre|reflexivity]|].
      cbn in Hn |- *. split; [lia|]. intros Hc.
      apply (coherent_same w'); auto; apply Hco; apply (coherent_same w); auto.
    + do 2 eexists. exists ([EvSelect 1] ++ evs).
      split; [reflexivity|]. split; [discriminate|].
      split.
      { apply (dispatcher_frame_trans w
                 (set_trace (trace w ++ [EvSelect 1]) w) _
                 [EvSelect 1] evs); [|exact Hfr].
        frame_one. }
      split; [apply (reapless_app [EvSelect 1]); [reflexivity|exact Hre]|].
      cbn in Hn |- *. split; [lia|]. intros Hc.
      apply Hco; apply (coherent_same w); auto.
  - do 2 eexists. exists [EvWait 1 true].
    split; [reflexivity|]. split; [discriminate|].
    split; [frame_one|].
    split; [reflexivity|]. cbn. split; [lia|].
    intros Hc. apply (coherent_same w); auto.
Qed.

(** What one turn of the loop does to the worker, on every outcome. *)
Lemma run_iteration_summary (t : Tick) (w : Worker) :
  NoDup (ready t) ->
  exists r w' evs,
    run_iteration t w = (r, w') /\ r <> OutOfFuel /\
    loop_frame w w' evs /\
    nr_conns w' <= nr_conns w +
      (if nr_conns w <? worker_connections w
       then Z.of_nat (ready_listeners w (ready t)) else 0) /\
    (coherent w -> coherent w') /\
    (ppid w <> getppid t -> r <> Ret Continue /\ reapless evs = true) /\
    (r = Ret Break ->
     exists pre, evs = pre ++ [EvLog Info "Parent changed, shutting down: %s"]).
Proof.
  intros Hnd.
  set (w0 := set_world (tick_env t) (tick_clock t) w).
  set (w00 := set_trace (trace w0 ++ [EvNotify]) w0).
  assert (Hfr0 : loop_frame w w00 [EvNotify]) by frame_one.
  assert (Hco0 : coherent w -> coherent w00).
  { intros Hco. apply (coherent_same w); auto. }
  destruct (waiting_summary t w00 Hnd)
    as (r1 & w1 & evs1 & Hrun1 & Hr1 & Hfr1 & Hre1 & Hn1 & Hco1).
  change (nr_conns w00) with (nr_conns w) in Hrun1, Hn1.
  change (worker_connections w00) with (worker_connections w) in Hrun1, Hn1.
  change (ready_listeners w00 (ready t)) with (ready_listeners w (ready t)) in Hn1.
  unfold run_iteration.
  rewrite (bind_run _ _ w w0 (Ret tt)) by reflexivity.
  rewrite (bind_run _ _ w0 w00 (Ret tt)) by reflexivity.
  rewrite (bind_run get _ w00 w00 (Ret w00)) by reflexivity.
  change (nr_conns w00) with (nr_conns w).
  change (worker_connections w00) with (worker_connections w).
  rewrite (bind_run _ _ _ _ _ Hrun1).
  clearbody w00. clear w0.
  destruct r1 as [done|e|]; [| |contradiction].
  2:{ exists (Raise e), w1, ([EvNotify] ++ evs1). split; [reflexivity|].
      split; [discriminate|].
      split; [eapply loop_frame_trans; [exact Hfr0|exact (proj1 Hfr1)]|].
      split; [exact Hn1|]. split; [auto|].
      split; [|discriminate].
      intros _. split; [discriminate|]. exact Hre1. }
  destruct (foreach_futures_remove_frame done w1)
    as (r2 & w2 & Hrun2 & Hr2 & Hfr2 & Hn2 & Hk2 & Hp2 & Hc2 & Hnc2).
  rewrite (bind_run _ _ _ _ _ Hrun2).
  assert (Hco2 : coherent w1 -> coherent w2).
  { intros Hc. apply (coherent_same w1); auto. }
  assert (Hfr02 : loop_frame w w2 ([EvNotify] ++ evs1 ++ [])).
  { eapply loop_frame_trans; [exact Hfr0|].
    eapply loop_frame_trans; [exact (proj1 Hfr1)|exact (proj1 Hfr2)]. }
  rewrite app_nil_r in Hfr02.
  assert (Hpp2 : ppid w2 = ppid w) by (destruct Hfr02 as (_ & _ & _ & H & _); exact H).
  destruct r2 as [[]|e|]; [| |contradiction].
  2:{ exists (Raise e), w2, ([EvNotify] ++ evs1). split; [reflexivity|].
      split; [discriminate|]. split; [exact Hfr02|].
      split; [lia|]. split; [auto|].
      split; [|discriminate].
      intros _. split; [discriminate|]. exact Hre1. }
  destruct (Nat.eqb_spec (ppid w) (getppid t)) as [Heq|Hne].
  - assert (Hpa : is_parent_alive t w2 = (Ret true, w2)).
    { unfold is_parent_alive, bind, get. rewrite Hpp2, Heq, Nat.eqb_refl.
      reflexivity. }
    rewrite (bind_run _ _ _ _ _ Hpa). cbn [negb].
    destruct (murder_keepalived_summary w2)
      as (r3 & w3 & evs3 & Hrun3 & Hr3 & Hfr3 & Hn3 & Hco3).
    rewrite (bind_run _ _ _ _ _ Hrun3).
    assert (Hfr03 : loop_frame w w3 (([EvNotify] ++ evs1) ++ evs3)).
    { eapply loop_frame_trans; [exact Hfr02|exact (proj1 Hfr3)]. }
    destruct r3 as [[]|e|]; [| |contradiction].
    + do 3 eexists. split; [reflexivity|]. split; [discriminate|].
      split; [exact Hfr03|]. split; [lia|]. split; [auto|].
      split; [|discriminate].
      intros Hne. contradiction.
    + do 3 eexists. split; [reflexivity|]. split; [discriminate|].
      split; [exact Hfr03|]. split; [lia|]. split; [auto|].
      split; [|discriminate].
      intros Hne. contradiction.
  - assert (Hpa : is_parent_alive t w2 =
                  (Ret false,
                   set_trace (trace w2 ++ [EvLog Info "Parent changed, shutting down: %s"]) w2)).
    { unfold is_parent_alive, bind, get. rewrite Hpp2.
      destruct (Nat.eqb_spec (ppid w) (getppid t)); [contradiction|].
      reflexivity. }
    rewrite (bind_run _ _ _ _ _ Hpa). cbn [negb]. unfold ret.
    do 2 eexists.
    exists (([EvNotify] ++ evs1) ++ [EvLog Info "Parent changed, shutting down: %s"]).
    split; [reflexivity|]. split; [discriminate|].
    split.
    { eapply loop_frame_trans; [exact Hfr02|]. frame_one. }
    cbn [nr_conns set_trace]. split; [lia|]. split.
    { intros Hc. apply (coherent_same w2); auto. }
    split; [|intros _; eexists; reflexivity].
    intros _. split; [discriminate|].
    apply reapless_app; [exact Hre1|reflexivity].
Qed.

(** The loop itself: whatever the ticks, only calm calls are made. *)
Lemma run_loop_summary (ticks : list Tick) :
  forall w : Worker,
    Forall (fun t => NoDup (ready t)) ticks ->
    exists r w' evs,
      run_loop ticks w = (r, w') /\ loop_frame w w' evs /\
      (coherent w -> coherent w').
Proof.
  induction ticks as [|t ts IH]; intros w Hall.
  - exists (if alive w then OutOfFuel else Ret tt), w, [].
    split; [cbn; destruct (alive w); reflexivity|].
    split; [apply dispatcher_frame_refl|auto].
  - apply Forall_cons in Hall. destruct Hall as [Ht Hall].
    cbn [run_loop]. destruct (alive w) eqn:Hal.
    2:{ exists (Ret tt), w, []. split; [reflexivity|].
        split; [apply dispatcher_frame_refl|auto]. }
    destruct (run_iteration_summary t w Ht)
      as (r1 & w1 & evs1 & Hrun1 & Hr1 & Hfr1 & _ & Hco1 & _).
    rewrite (bind_run _ _ _ _ _ Hrun1).
    destruct r1 as [[|]|e|]; [| | |contradiction].
    + exists (Ret tt), w1, evs1. split; [reflexivity|]. auto.
    + destruct (IH w1 Hall) as (r & w' & evs & Hrun & Hfr & Hco).
      exists r, w', (evs1 ++ evs). split; [exact Hrun|].
      split; [eapply loop_frame_trans; eassumption|auto].
    + exists (Raise e), w1, evs1. split; [reflexivity|]. auto.
Qed.

(** Setting up the listeners. *)
Lemma listeners_summary (socks : list nat) :
  forall w : Worker,
    exists r w' evs,
      foreach socks
        (fun s =>
           setblocking s false ;;
           w <- get ;;
           poller_register s (Acceptor (sockname (env w) s))) w = (r, w') /\
      r <> OutOfFuel /\ dispatcher_frame w w' evs.
Proof.
  induction socks as [|s socks IH]; intros w.
  - exists (Ret tt), w, []. split; [reflexivity|]. split; [discriminate|].
    apply dispatcher_frame_refl.
  - cbn [foreach].
    assert (Hstep : exists r1 w1 evs1,
              (setblocking s false ;;
               w <- get ;;
               poller_register s (Acceptor (sockname (env w) s))) w = (r1, w1) /\
              r1 <> OutOfFuel /\ dispatcher_frame w w1 evs1).
    { run. destruct (register_fault (env w) s) as [e|];
        [|destruct (poller w !! s) as [cb|]];
        do 3 eexists; (split; [reflexivity|]); (split; [discriminate|]); frame_tac. }
    destruct Hstep as (r1 & w1 & evs1 & Hrun1 & Hr1 & Hfr1).
    rewrite (bind_run _ _ _ _ _ Hrun1).
    destruct r1 as [[]|e|]; [| |contradiction].
    + destruct (IH w1) as (r & w' & evs & Hrun & Hr & Hfr).
      exists r, w', (evs1 ++ evs). split; [exact Hrun|]. split; [exact Hr|].
      eapply dispatcher_frame_trans; eassumption.
    + exists (Raise e), w1, evs1. split; [reflexivity|]. split; [discriminate|].
      exact Hfr1.
Qed.

Lemma foreach_emit {A} (f : A -> event) (l : list A) :
  forall w : Worker,
    foreach l (fun s => emit (f s)) w
    = (Ret tt, set_trace (trace w ++ map f l) w).
Proof.
  induction l as [|a l IH]; intros w.
  - cbn. rewrite app_nil_r. destruct w; reflexivity.
  - cbn [foreach].
    rewrite (bind_run _ _ w (set_trace (trace w ++ [f a]) w) (Ret tt)) by reflexivity.
    rewrite IH. cbn. rewrite <- app_assoc. reflexivity.
Qed.

(** [run] from start to end. *)
Lemma run_summary (ticks : list Tick) (w : Worker) :
  Forall (fun t => NoDup (ready t)) ticks ->
  exists r w' evs,
    run ticks w = (r, w') /\ calm evs = true /\
    trace w' = trace w ++ evs ++
               (match r with Ret _ => shutdown_events w | _ => [] end).
Proof.
  intros Hall. unfold run.
  rewrite (bind_run get _ w w (Ret w)) by reflexivity.
  destruct (listeners_summary (sockets w) w) as (r1 & w1 & evs1 & Hrun1 & Hr1 & Hfr1).
  rewrite (bind_run _ _ _ _ _ Hrun1).
  destruct Hfr1 as [Hfr1 _].
  destruct r1 as [[]|e|]; [| |contradiction].
  2:{ exists (Raise e), w1, evs1. split; [reflexivity|].
      destruct Hfr1 as (_ & _ & _ & _ & _ & _ & Htr & Hcalm).
      split; [exact Hcalm|]. rewrite app_nil_r. exact Htr. }
  destruct (run_loop_summary ticks w1 Hall) as (r2 & w2 & evs2 & Hrun2 & Hfr2 & _).
  rewrite (bind_run _ _ _ _ _ Hrun2).
  pose proof (loop_frame_trans _ _ _ _ _ Hfr1 Hfr2) as Hfr.
  destruct Hfr as (Hcfg & _ & Hsock & _ & _ & _ & Htr & Hcalm).
  destruct r2 as [[]|e|].
  - rewrite (bind_run _ _ w2 (set_trace (trace w2 ++ [EvPoolShutdown false]) w2) (Ret tt))
      by reflexivity.
    rewrite (bind_run _ _ _ (set_trace ((trace w2 ++ [EvPoolShutdown false]) ++ [EvPollerClose]) w2) (Ret tt))
      by reflexivity.
    rewrite (bind_run get _ _ _ (Ret (set_trace ((trace w2 ++ [EvPoolShutdown false]) ++ [EvPollerClose]) w2)))
      by reflexivity.
    rewrite (bind_run _ _ _ _ _ (foreach_emit EvListenerClose _ _)).
    unfold emit, modify.
    do 2 eexists. exists (evs1 ++ evs2). split; [reflexivity|].
    split; [exact Hcalm|].
    unfold shutdown_events. cbn -[app]. rewrite Htr, Hcfg, Hsock.
    rewrite <- !app_assoc. reflexivity.
  - exists (Raise e), w2, (evs1 ++ evs2). split; [reflexivity|].
    split; [exact Hcalm|]. rewrite app_nil_r. exact Htr.
  - exists OutOfFuel, w2, (evs1 ++ evs2). split; [reflexivity|].
    split; [exact Hcalm|]. rewrite app_nil_r. exact Htr.
Qed.

(** * The properties at the sample inputs: helpers *)

Lemma sample_worker_coherent : coherent sample_worker.
Proof.
  split; [|split].
  - refine (bool_decide_unpack _ _). reflexivity.
  - intros c Hc.
    repeat (apply elem_of_cons in Hc; destruct Hc as [->|Hc]);
      [| | |inversion Hc];
      (split; [eexists; reflexivity|split; reflexivity]).
  - intros fd c H. unfold sample_worker in H. cbn [poller] in H.
    repeat (apply lookup_insert_Some in H;
            destruct H as [[<- H]|[_ H]];
            [inversion H; subst; (split; [reflexivity|cbn; lia])|]).
    rewrite lookup_empty in H. discriminate.
Qed.

(** * Further properties *)

(** X1.  One turn of the dispatch loop keeps the keepalive deque and the
    selector in agreement, whatever the selector reports (each ready
    descriptor once), whatever [accept] and [unregister] do, and however
    the turn ends: afterwards every connection of the deque is still
    initialized, has a deadline and is registered under its own socket with
    its own wake-up callback, no connection is twice in the deque, and every
    wake-up callback in the selector is registered under the socket of its
    connection. *)
Theorem run_iteration_keeps_agreement (t : Tick) (w : Worker) :
  coherent w -> NoDup (ready t) ->
  exists r w',
    run_iteration t w = (r, w') /\ r <> OutOfFuel /\ coherent w'.
Proof.
  intros Hco Hnd.
  destruct (run_iteration_summary t w Hnd)
    as (r & w' & evs & Hrun & Hr & _ & _ & Hco' & _).
  exists r, w'. auto.
Qed.

Lemma run_iteration_keeps_agreement_witness :
  coherent sample_worker /\ NoDup (ready sample_tick) /\
  exists r w',
    run_iteration sample_tick sample_worker = (r, w') /\ r <> OutOfFuel /\
    coherent w'.
Proof.
  assert (Hnd : NoDup (ready sample_tick)).
  { refine (bool_decide_unpack _ _). reflexivity. }
  split; [exact sample_worker_coherent|]. split; [exact Hnd|].
  exact (run_iteration_keeps_agreement sample_tick sample_worker
           sample_worker_coherent Hnd).
Defined.

(** X2.  The completion callback keeps the deque and the selector in
    agreement: always when the connection is closed (a cancelled or failed
    task, a turn that did not ask for keepalive, a worker that is no longer
    alive), and, when the connection goes back to the deque, provided the
    registration goes through (the socket is not in the selector, as
    [on_client_socket_readable] left it, and [register] does not fail) and
    the connection is one the worker made and initialized. *)
Theorem finish_request_keeps_agreement (fs : Future) (w : Worker) :
  coherent w ->
  (forall C, fut_state fs = Finished true C -> alive w = true ->
             register_fault (env w) (conn_fd w C) = None /\
             poller w !! conn_fd w C = None /\
             initialized (conns w C) = true /\ (C < next_conn w)%nat) ->
  exists w',
    finish_request fs w = (Ret tt, w') /\ coherent w' /\
    nr_conns w - 1 <= nr_conns w' <= nr_conns w.
Proof.
  intros Hco Hpre.
  destruct (finish_request_summary fs w) as (w' & evs & Hrun & _ & Hn & Hco').
  exists w'. auto.
Qed.

Lemma finish_request_keeps_agreement_witness :
  coherent sample_worker /\
  exists w',
    finish_request keepalive_future sample_worker = (Ret tt, w') /\
    coherent w' /\ _keep w' = [1; 2; 3; 0]%nat.
Proof.
  split; [exact sample_worker_coherent|].
  destruct (finish_request_keeps_agreement keepalive_future sample_worker
              sample_worker_coherent) as (w' & Hrun & Hco & _).
  { intros C HC _. inversion HC; subst C.
    split; [reflexivity|]. split; [reflexivity|]. split; [reflexivity|cbn; lia]. }
  exists w'. split; [exact Hrun|]. split; [exact Hco|].
  assert (Hw : w' = snd (finish_request keepalive_future sample_worker))
    by (rewrite Hrun; reflexivity).
  rewrite Hw. reflexivity.
Defined.

Lemma heap_set_sock (C : nat) (w : Worker) (t : option Z) :
  sock (heap_set C (mkTConn (sock (conns w C)) (client (conns w C))
                      (server (conns w C)) t (parser (conns w C))
                      (initialized (conns w C)) (ssl_wrapped (conns w C)))
          (conns w) C)
  = sock (conns w C).
Proof. unfold heap_set. rewrite Nat.eqb_refl. reflexivity. Qed.

(** The world a failed registration leaves. *)
Lemma register_failure_world (f C : nat) (w : Worker) :
  alive w = true ->
  register_fault (env w) (conn_fd w C) <> None \/
  poller w !! conn_fd w C <> None ->
  exists w' evs,
    finish_request (mkFuture f C (Finished true C)) w = (Ret tt, w') /\
    _keep w' = _keep w ++ [C] /\ poller w' = poller w /\
    nr_conns w' = nr_conns w - 1 /\
    trace w' = trace w ++ evs /\ closed_fds evs = [conn_fd w C] /\
    cfg w' = cfg w /\
    (forall c, sock (conns w' c) = sock (conns w c)) /\
    timeout (conns w' C) = Some (clock w + cfg_keepalive (cfg w)).
Proof.
  intros Hal Hfail.
  unfold finish_request, conn_set_timeout, conn_fd in *. cbn [fut_state fut_conn].
  run. rewrite Hal. run.
  assert (Hall : forall (t : option Z) c,
            sock (heap_set C (mkTConn (sock (conns w C)) (client (conns w C))
                                (server (conns w C)) t (parser (conns w C))
                                (initialized (conns w C))
                                (ssl_wrapped (conns w C))) (conns w) c)
            = sock (conns w c)).
  { intros t c. unfold heap_set. destruct (Nat.eqb_spec c C); [subst|]; reflexivity. }
  assert (Htime : forall t,
            timeout (heap_set C (mkTConn (sock (conns w C)) (client (conns w C))
                                (server (conns w C)) t (parser (conns w C))
                                (initialized (conns w C))
                                (ssl_wrapped (conns w C))) (conns w) C) = t).
  { intros t. unfold heap_set. rewrite Nat.eqb_refl. reflexivity. }
  destruct (register_fault (env w) (sock (conns w C))) as [e|] eqn:Hf.
  - run. do 2 eexists. split; [reflexivity|].
    cbn -[insert delete lookup Z.add Z.sub heap_set].
    split; [reflexivity|]. split; [reflexivity|]. split; [lia|].
    split; [rewrite <- !app_assoc; reflexivity|].
    split; [cbn -[heap_set]; rewrite Hall; reflexivity|].
    split; [reflexivity|]. split; [apply Hall|apply Htime].
  - destruct Hfail as [Hfail|Hfail]; [contradiction|].
    destruct (poller w !! sock (conns w C)) as [cb|] eqn:Hp; [|contradiction].
    run. do 2 eexists. split; [reflexivity|].
    cbn -[insert delete lookup Z.add Z.sub heap_set].
    split; [reflexivity|]. split; [reflexivity|]. split; [lia|].
    split; [rewrite <- !app_assoc; reflexivity|].
    split; [cbn -[heap_set]; rewrite Hall; reflexivity|].
    split; [reflexivity|]. split; [apply Hall|apply Htime].
Qed.

(** X3.  When the registration of a connection that goes back to the
    deque fails ([register] raises, or the socket is already in the
    selector), the completion callback swallows the exception, lowers
    [nr_conns] and closes the socket, but the connection stays in the
    keepalive deque, which [append] had already changed: the deque then
    holds a closed connection that the selector does not watch. *)
Theorem finish_request_register_failure (f C : nat) (w : Worker) :
  alive w = true ->
  register_fault (env w) (conn_fd w C) <> None \/
  poller w !! conn_fd w C <> None ->
  exists w',
    finish_request (mkFuture f C (Finished true C)) w = (Ret tt, w') /\
    _keep w' = _keep w ++ [C] /\ poller w' = poller w /\
    nr_conns w' = nr_conns w - 1 /\
    closed_fds (new_events w w') = [conn_fd w C] /\
    (poller w !! conn_fd w C = None -> ~ coherent w').
Proof.
  intros Hal Hfail.
  destruct (register_failure_world f C w Hal Hfail)
    as (w' & evs & Hrun & Hk & Hp & Hn & Htr & Hcl & _ & Hsock & _).
  exists w'. split; [exact Hrun|]. split; [exact Hk|]. split; [exact Hp|].
  split; [exact Hn|]. split; [rewrite (new_events_app _ _ _ Htr); exact Hcl|].
  intros Hnone (_ & Hmem & _).
  destruct (Hmem C) as (_ & _ & Hreg).
  { rewrite Hk. apply elem_of_app. right. left. }
  unfold conn_fd in *. rewrite Hp, Hsock in Hreg. congruence.
Qed.

Lemma finish_request_register_failure_witness :
  alive faulty_worker = true /\
  exists w',
    finish_request keepalive_future faulty_worker = (Ret tt, w') /\
    _keep w' = [0%nat] /\ poller w' = ∅ /\ nr_conns w' = 0 /\
    closed_fds (new_events faulty_worker w') = [100%nat] /\
    ~ coherent w'.
Proof.
  split; [reflexivity|].
  destruct (finish_request_register_failure 0 0 faulty_worker eq_refl)
    as (w' & Hrun & Hk & Hp & Hn & Hc & Hco).
  { left. discriminate. }
  exists w'. split; [exact Hrun|]. split; [exact Hk|]. split; [exact Hp|].
  split; [exact Hn|]. split; [exact Hc|]. apply Hco. reflexivity.
Defined.

Lemma closed_fds_app (l1 l2 : list event) :
  closed_fds (l1 ++ l2) = closed_fds l1 ++ closed_fds l2.
Proof. unfold closed_fds. apply omap_app. Qed.

(** X4.  A connection whose registration failed is counted out twice.
    The completion callback lowers [nr_conns] and closes the socket but
    leaves the connection in the deque (X3); once its deadline has passed
    the reaper pops it, lowers [nr_conns] again and closes the socket a
    second time.  With an empty deque before: two decrements and two closes
    for one connection. *)
Theorem failed_registration_counted_twice (f C : nat) (w : Worker) (e : Env)
    (now : Z) :
  alive w = true -> _keep w = [] ->
  register_fault (env w) (conn_fd w C) <> None \/
  poller w !! conn_fd w C <> None ->
  clock w + cfg_keepalive (cfg w) <= now ->
  unregister_fault e (conn_fd w C) = None ->
  exists w1 w2,
    finish_request (mkFuture f C (Finished true C)) w = (Ret tt, w1) /\
    murder_keepalived (set_world e now w1) = (Ret tt, w2) /\
    _keep w2 = [] /\ nr_conns w2 = nr_conns w - 2 /\
    closed_fds (new_events w w2) = [conn_fd w C; conn_fd w C].
Proof.
  intros Hal Hempty Hfail Hlate Hun.
  destruct (register_failure_world f C w Hal Hfail)
    as (w1 & evs1 & Hrun1 & Hk1 & _ & Hn1 & Htr1 & Hcl1 & Hcfg & Hsock & Htime).
  rewrite Hempty in Hk1. cbn [app] in Hk1.
  set (w1' := set_world e now w1).
  assert (Hfd : conn_fd w1' C = conn_fd w C) by (unfold conn_fd; cbn; apply Hsock).
  destruct (murder_keepalived_ok w1' [C] []) as (w2 & Hrun2 & Hk2 & Hn2 & _ & Hev2).
  - exact Hk1.
  - constructor; [|constructor]. unfold expired, deadline, w1'.
    cbn [conns set_world clock]. rewrite Htime. apply Z.leb_le. exact Hlate.
  - constructor; [|constructor]. unfold unregister_tolerated. rewrite Hfd.
    unfold w1'. cbn [env set_world]. rewrite Hun. reflexivity.
  - exact I.
  - exists w1, w2. split; [exact Hrun1|]. split; [exact Hrun2|].
    split; [exact Hk2|].
    split; [unfold w1' in Hn2; cbn [nr_conns set_world length] in Hn2; lia|].
    destruct (murder_keepalived_summary w1')
      as (r & w2' & evs2 & Hrun2' & _ & Hfr & _).
    rewrite Hrun2 in Hrun2'. inversion Hrun2'; subst r w2'.
    destruct Hfr as ((_ & _ & _ & _ & _ & _ & Htr2 & _) & _).
    assert (Hev : new_events w1' w2 = evs2) by (apply new_events_app; exact Htr2).
    rewrite Hev in Hev2. unfold w1' in Htr2. cbn [trace set_world] in Htr2.
    rewrite (new_events_app w w2 (evs1 ++ evs2))
      by (rewrite Htr2, Htr1, app_assoc; reflexivity).
    rewrite closed_fds_app, Hcl1, Hev2. cbn. rewrite Hfd. reflexivity.
Qed.

Lemma failed_registration_counted_twice_witness :
  alive faulty_worker = true /\ _keep faulty_worker = [] /\
  nr_conns faulty_worker = 1 /\
  exists w1 w2,
    finish_request keepalive_future faulty_worker = (Ret tt, w1) /\
    murder_keepalived (set_world sample_env 30 w1) = (Ret tt, w2) /\
    _keep w2 = [] /\ nr_conns w2 = -1 /\
    closed_fds (new_events faulty_worker w2) = [100%nat; 100%nat].
Proof.
  split; [reflexivity|]. split; [reflexivity|]. split; [reflexivity|].
  destruct (failed_registration_counted_twice 0 0 faulty_worker sample_env 30
              eq_refl eq_refl)
    as (w1 & w2 & Hrun1 & Hrun2 & Hk & Hn & Hc).
  { left. discriminate. }
  { cbn. lia. }
  { reflexivity. }
  exists w1, w2. split; [exact Hrun1|]. split; [exact Hrun2|].
  split; [exact Hk|]. split; [exact Hn|exact Hc].
Defined.

Lemma remove_first_last (c : nat) (l : list nat) :
  c ∉ l -> remove_first c (l ++ [c]) = Some l.
Proof.
  induction l as [|x l IH]; intros Hnin; cbn.
  - rewrite Nat.eqb_refl. reflexivity.
  - destruct (Nat.eqb_spec x c) as [->|Hne].
    + exfalso. apply Hnin. left.
    + rewrite IH; [reflexivity|]. intros Hin. apply Hnin. right. exact Hin.
Qed.

(** X5.  Keepalive round trip.  A connection that the completion callback
    puts back (deque and selector) and that then becomes readable is taken
    out again by the wake-up path: the deque and the selector's table are
    what they were before the two calls, [nr_conns] has not moved, and the
    connection has been submitted to the pool exactly once, as one new
    handle at the end of [futures]. *)
Theorem keepalive_round_trip (f C : nat) (w : Worker) (e : Env) (now : Z) :
  alive w = true -> initialized (conns w C) = true -> C ∉ _keep w ->
  register_fault (env w) (conn_fd w C) = None ->
  poller w !! conn_fd w C = None ->
  unregister_fault e (conn_fd w C) = None ->
  exists w1 w2,
    finish_request (mkFuture f C (Finished true C)) w = (Ret tt, w1) /\
    on_client_socket_readable C (conn_fd w C) (set_world e now w1)
    = (Ret tt, w2) /\
    _keep w1 = _keep w ++ [C] /\
    poller w1 = <[conn_fd w C := Readable C]> (poller w) /\
    _keep w2 = _keep w /\ poller w2 = poller w /\
    nr_conns w2 = nr_conns w /\
    submitted_conns (new_events w1 w2) = [C] /\
    futures w2 = futures w ++ [next_future w].
Proof.
  intros Hal Hini Hnin Hreg Hp Hun.
  unfold conn_fd in *.
  assert (Hrun1 : exists w1,
            finish_request (mkFuture f C (Finished true C)) w = (Ret tt, w1) /\
            _keep w1 = _keep w ++ [C] /\
            poller w1 = <[sock (conns w C) := Readable C]> (poller w) /\
            nr_conns w1 = nr_conns w /\ futures w1 = futures w /\
            next_future w1 = next_future w /\
            sock (conns w1 C) = sock (conns w C) /\
            initialized (conns w1 C) = true).
  { unfold finish_request, conn_set_timeout. cbn [fut_state fut_conn].
    run. rewrite Hal. run. rewrite Hreg, Hp. run.
    eexists. split; [reflexivity|].
    cbn -[insert delete lookup Z.add Z.sub heap_set].
    repeat (split; [reflexivity|]).
    unfold heap_set. rewrite Nat.eqb_refl. cbn. auto. }
  destruct Hrun1 as (w1 & Hrun1 & Hk1 & Hp1 & Hn1 & Hf1 & Hnf1 & Hs1 & Hi1).
  exists w1.
  assert (Hrun2 : exists w2,
            on_client_socket_readable C (sock (conns w C)) (set_world e now w1)
            = (Ret tt, w2) /\
            _keep w2 = _keep w /\ poller w2 = delete (sock (conns w C)) (poller w1) /\
            nr_conns w2 = nr_conns w1 /\
            (exists pre post, trace w2 = trace w1 ++ pre ++ EvSubmit C :: post /\
                              submitted_conns pre = [] /\ submitted_conns post = []) /\
            futures w2 = futures w1 ++ [next_future w1]).
  { unfold on_client_socket_readable, keep_remove, enqueue_req, conn_init,
      tpool_submit, _wrap_future. run. rewrite Hun, Hp1, lookup_insert_eq. run.
    rewrite Hi1. run. rewrite Hk1, (remove_first_last C _ Hnin). run.
    unfold heap_set at 1 2 3. rewrite ?Nat.eqb_refl. cbn.
    destruct (parser (conns w1 C)); run;
      eexists; (split; [reflexivity|]);
      cbn -[insert delete lookup Z.add Z.sub heap_set];
      (split; [reflexivity|]); (split; [reflexivity|]);
      (split; [reflexivity|]);
      (split; [|reflexivity]);
      rewrite <- !app_assoc; cbn [app];
      match goal with
      | |- exists pre post, trace w1 ++ ?a :: ?b :: ?c :: ?d :: ?e :: ?rest = _ /\ _ =>
          exists [a; b; c; d; e], []
      end; cbn; auto. }
  destruct Hrun2 as (w2 & Hrun2 & Hk2 & Hp2 & Hn2 & (pre & post & Htr & Hpre & Hpost) & Hf2).
  exists w2. split; [exact Hrun1|]. split; [exact Hrun2|].
  split; [exact Hk1|]. split; [exact Hp1|]. split; [exact Hk2|].
  split; [rewrite Hp2, Hp1; apply delete_insert_id; exact Hp|].
  split; [lia|].
  split.
  - rewrite (new_events_app _ _ _ Htr). unfold submitted_conns in *.
    rewrite omap_app, Hpre. cbn. fold (submitted_conns post). 
    unfold submitted_conns. rewrite Hpost. reflexivity.
  - rewrite Hf2, Hf1, Hnf1. reflexivity.
Qed.

Lemma keepalive_round_trip_witness :
  alive sample_worker = true /\ (0%nat ∉ _keep sample_worker) /\
  exists w1 w2,
    finish_request keepalive_future sample_worker = (Ret tt, w1) /\
    on_client_socket_readable 0 100 (set_world sample_env 26 w1) = (Ret tt, w2) /\
    _keep w1 = [1; 2; 3; 0]%nat /\
    _keep w2 = [1; 2; 3]%nat /\ poller w2 = poller sample_worker /\
    submitted_conns (new_events w1 w2) = [0%nat].
Proof.
  assert (Hnin : 0%nat ∉ _keep sample_worker).
  { intros Hin. repeat (apply elem_of_cons in Hin; destruct Hin as [Hin|Hin];
                        [discriminate|]). inversion Hin. }
  split; [reflexivity|]. split; [exact Hnin|].
  destruct (keepalive_round_trip 0 0 sample_worker sample_env 26
              eq_refl eq_refl Hnin eq_refl eq_refl eq_refl)
    as (w1 & w2 & Hrun1 & Hrun2 & Hk1 & _ & Hk2 & Hp2 & _ & Hs & _).
  exists w1, w2. split; [exact Hrun1|]. split; [exact Hrun2|].
  split; [exact Hk1|]. split; [exact Hk2|]. split; [exact Hp2|exact Hs].
Defined.

(** X6.  Admission bound.  One turn of the loop raises [nr_conns] by at
    most the number of listening sockets the selector reported ready, and
    not at all when the worker was saturated at the start of the turn.
    The test against [worker_connections] is made once per turn, not once
    per accepted connection: with at most one ready listener a worker at or
    below its cap stays at or below it. *)
Theorem run_iteration_admission_bound (t : Tick) (w : Worker) :
  NoDup (ready t) ->
  exists r w',
    run_iteration t w = (r, w') /\
    worker_connections w' = worker_connections w /\
    nr_conns w' <= nr_conns w +
      (if nr_conns w <? worker_connections w
       then Z.of_nat (ready_listeners w (ready t)) else 0) /\
    (nr_conns w <= worker_connections w ->
     (ready_listeners w (ready t) <= 1)%nat ->
     nr_conns w' <= worker_connections w').
Proof.
  intros Hnd.
  destruct (run_iteration_summary t w Hnd)
    as (r & w' & evs & Hrun & _ & Hfr & Hn & _).
  destruct Hfr as (_ & Hwc & _).
  exists r, w'. split; [exact Hrun|]. split; [exact Hwc|]. split; [exact Hn|].
  intros Hcap Hone. rewrite Hwc.
  destruct (Z.ltb_spec (nr_conns w) (worker_connections w)); lia.
Qed.

Lemma run_iteration_admission_bound_witness :
  NoDup (ready sample_tick) /\
  ready_listeners sample_worker (ready sample_tick) = 1%nat /\
  exists r w',
    run_iteration sample_tick sample_worker = (r, w') /\
    nr_conns w' <= nr_conns sample_worker + 1 /\
    nr_conns w' <= worker_connections w'.
Proof.
  assert (Hnd : NoDup (ready sample_tick)).
  { refine (bool_decide_unpack _ _). reflexivity. }
  split; [exact Hnd|]. split; [reflexivity|].
  destruct (run_iteration_admission_bound sample_tick sample_worker Hnd)
    as (r & w' & Hrun & _ & Hn & Hcap).
  exists r, w'. split; [exact Hrun|]. split; [exact Hn|].
  apply Hcap; [cbn; lia|]. apply Nat.le_refl.
Defined.

(** X7.  A turn in which the parent process has changed
    ([os.getppid()] differs from the recorded [ppid]) never goes on to the
    next turn: it ends the loop (or leaves with an exception of a callback),
    and the keepalive reaper is not run in it, so no connection of the
    deque is popped or closed, expired or not.  When the turn ends the loop
    its last call is the log of the change. *)
Theorem orphaned_turn (t : Tick) (w : Worker) :
  NoDup (ready t) -> ppid w <> getppid t ->
  exists r w',
    run_iteration t w = (r, w') /\ r <> Ret Continue /\ r <> OutOfFuel /\
    reapless (new_events w w') = true /\
    (r = Ret Break ->
     exists pre, new_events w w'
                 = pre ++ [EvLog Info "Parent changed, shutting down: %s"]).
Proof.
  intros Hnd Hpp.
  destruct (run_iteration_summary t w Hnd)
    as (r & w' & evs & Hrun & Hr & Hfr & _ & _ & Horph & Hlast).
  destruct (Horph Hpp) as [Hnc Hre].
  destruct Hfr as (_ & _ & _ & _ & _ & _ & Htr & _).
  exists r, w'. split; [exact Hrun|]. split; [exact Hnc|]. split; [exact Hr|].
  rewrite (new_events_app _ _ _ Htr). split; [exact Hre|exact Hlast].
Qed.

Lemma orphaned_turn_witness :
  NoDup (ready orphan_tick) /\ ppid sample_worker <> getppid orphan_tick /\
  expired 25 sample_worker 1 = true /\
  exists w',
    run_iteration orphan_tick sample_worker = (Ret Break, w') /\
    reapless (new_events sample_worker w') = true /\
    _keep w' = [1; 2; 3]%nat.
Proof.
  assert (Hnd : NoDup (ready orphan_tick)).
  { refine (bool_decide_unpack _ _). reflexivity. }
  assert (Hpp : ppid sample_worker <> getppid orphan_tick) by discriminate.
  split; [exact Hnd|]. split; [exact Hpp|]. split; [reflexivity|].
  destruct (orphaned_turn orphan_tick sample_worker Hnd Hpp)
    as (r & w' & Hrun & _ & _ & Hre & _).
  assert (Hr : r = fst (run_iteration orphan_tick sample_worker))
    by (rewrite Hrun; reflexivity).
  assert (Hw : w' = snd (run_iteration orphan_tick sample_worker))
    by (rewrite Hrun; reflexivity).
  exists w'. split; [rewrite Hrun, Hr; reflexivity|]. split; [exact Hre|].
  rewrite Hw. reflexivity.
Defined.

(** X8.  [run] from start to end.  When [run] returns, the last calls it
    made are the shutdown sequence, in this order: [tpool.shutdown(False)],
    [poller.close()], [close] on every listening socket, and
    [futures.wait] with the graceful timeout; none of these calls is made
    before.  When an exception leaves [run] (from the listener set-up, a
    callback, [futures.remove] or the reaper) none of them is made at all:
    the pool, the selector and the listeners are left as they are. *)
Theorem run_shutdown (ticks : list Tick) (w : Worker) :
  Forall (fun t => NoDup (ready t)) ticks ->
  exists r w' evs,
    run ticks w = (r, w') /\
    new_events w w' =
      evs ++ match r with Ret _ => shutdown_events w | _ => [] end /\
    calm evs = true.
Proof.
  intros Hall.
  destruct (run_summary ticks w Hall) as (r & w' & evs & Hrun & Hcalm & Htr).
  exists r, w', evs. split; [exact Hrun|].
  split; [apply new_events_app; exact Htr|exact Hcalm].
Qed.

Lemma run_shutdown_witness :
  Forall (fun t => NoDup (ready t)) [sample_tick; orphan_tick] /\
  exists w' evs,
    run [sample_tick; orphan_tick] fresh_worker = (Ret tt, w') /\
    new_events fresh_worker w' =
      evs ++ [EvPoolShutdown false; EvPollerClose; EvListenerClose 5;
              EvWait 30 false] /\
    calm evs = true.
Proof.
  assert (Hall : Forall (fun t => NoDup (ready t)) [sample_tick; orphan_tick]).
  { repeat constructor; refine (bool_decide_unpack _ _); reflexivity. }
  split; [exact Hall|].
  destruct (run_shutdown [sample_tick; orphan_tick] fresh_worker Hall)
    as (r & w' & evs & Hrun & Hev & Hcalm).
  assert (Hr : r = fst (run [sample_tick; orphan_tick] fresh_worker))
    by (rewrite Hrun; reflexivity).
  assert (Hret : r = Ret tt) by (rewrite Hr; reflexivity).
  subst r. exists w', evs. split; [exact Hrun|]. split; [exact Hev|exact Hcalm].
Defined.



(** What [TConn.init] leaves. *)
Lemma conn_init_world (c : nat) (w : Worker) :
  exists w1,
    conn_init c w = (Ret tt, w1) /\
    trace w1 = trace w ++ [EvSetBlocking (sock (conns w c)) true] /\
    conns w1 c =
      mkTConn (sock (conns w c)) (client (conns w c)) (server (conns w c))
        (timeout (conns w c)) true true
        (ssl_wrapped (conns w c)
         || (negb (parser (conns w c)) && cfg_is_ssl (cfg w))) /\
    (forall c', c' <> c -> conns w1 c' = conns w c') /\
    cfg w1 = cfg w /\ _keep w1 = _keep w /\ next_conn w1 = next_conn w /\
    clock w1 = clock w.
Proof.
  unfold conn_init. run. unfold heap_set at 1 2 3. rewrite ?Nat.eqb_refl. cbn.
  destruct (parser (conns w c)) eqn:Hpar; run;
    eexists; (split; [reflexivity|]); cbn -[heap_set];
    unfold heap_set; rewrite ?Nat.eqb_refl; cbn;
    rewrite ?orb_false_r; (split; [reflexivity|]).
  - split; [reflexivity|]. split; [|auto].
    intros c' Hne. destruct (Nat.eqb_spec c' c); [contradiction|reflexivity].
  - split; [reflexivity|]. split; [|auto].
    intros c' Hne. destruct (Nat.eqb_spec c' c); [contradiction|].
    destruct (Nat.eqb_spec c' c); [contradiction|reflexivity].
Qed.

(** X10.  [TConn.init] is idempotent on the connection: after one call
    the connection is initialized and has its parser, with the same socket
    descriptor and deadline; the socket is wrapped for TLS only on the call
    that builds the parser; and a second call changes no connection object
    (it only sets the socket blocking again). *)
Theorem conn_init_idempotent (c : nat) (w : Worker) :
  exists w1 w2,
    conn_init c w = (Ret tt, w1) /\ conn_init c w1 = (Ret tt, w2) /\
    initialized (conns w1 c) = true /\ parser (conns w1 c) = true /\
    sock (conns w1 c) = sock (conns w c) /\
    timeout (conns w1 c) = timeout (conns w c) /\
    ssl_wrapped (conns w1 c)
    = ssl_wrapped (conns w c) || (negb (parser (conns w c)) && cfg_is_ssl (cfg w)) /\
    (forall c', c' <> c -> conns w1 c' = conns w c') /\
    (forall c', conns w2 c' = conns w1 c') /\
    new_events w1 w2 = [EvSetBlocking (sock (conns w c)) true].
Proof.
  destruct (conn_init_world c w) as (w1 & Hrun1 & Htr1 & Hc1 & Hother1 & Hcfg1 & _).
  destruct (conn_init_world c w1) as (w2 & Hrun2 & Htr2 & Hc2 & Hother2 & _).
  exists w1, w2. split; [exact Hrun1|]. split; [exact Hrun2|].
  rewrite Hc1 in Hc2, Htr2. cbn in Hc2, Htr2. rewrite orb_false_r in Hc2.
  rewrite Hc1. cbn. repeat (split; [reflexivity|]).
  split; [exact Hother1|]. split.
  - intros c'. destruct (Nat.eq_dec c' c) as [->|Hne].
    + rewrite Hc2, Hc1. reflexivity.
    + apply Hother2. exact Hne.
  - apply new_events_app. exact Htr2.
Qed.

(** X16.  A request turn leaves alone what the dispatcher owns.  Whatever
    the parser, the hooks, the application and the writes do, [handle] and
    [handle_request] do not write the keepalive deque, the selector, the
    connection objects, the task handles or [nr_conns]: they are after the
    turn what they were before it, on every outcome.  [nr] has grown by one
    at most, a worker that was not alive is not alive after, and a value
    that [handle] returns is [(keepalive, conn)] for the connection it was
    given.  (Nothing is said here of whether [handle] returns.) *)
Theorem handle_leaves_dispatcher_state (t : Turn) (conn : nat) (w : Worker) :
  let r := fst (handle t conn w) in
  let w' := snd (handle t conn w) in
  nr_conns w' = nr_conns w /\ _keep w' = _keep w /\ futures w' = futures w /\
  poller w' = poller w /\ conns w' = conns w /\
  nr w <= nr w' <= nr w + 1 /\
  (alive w = false -> alive w' = false) /\
  (forall v, r = Ret v -> snd v = conn).
Proof.
  destruct (handle_total t conn w) as (b & w' & Hrun & Hfr & _).
  destruct Hfr as (_ & _ & _ & _ & Hn & Hk & Hf & Hp & Hc & _ & Hal & Hnr).
  rewrite Hrun. cbn [fst snd].
  split; [exact Hn|]. split; [exact Hk|]. split; [exact Hf|].
  split; [exact Hp|]. split; [exact Hc|]. split; [exact Hnr|]. split.
  - intros Hdead. destruct (alive w') eqn:Hal'; [|reflexivity].
    rewrite (Hal eq_refl) in Hdead. discriminate.
  - intros v Hv. inversion Hv. reflexivity.
Qed.

(** ** The deque stays ordered by deadline *)

Lemma same_conn_trans (a b c : TConn) :
  same_conn a b -> same_conn b c -> same_conn a c.
Proof.
  unfold same_conn. intros (A1 & A2 & A3) (B1 & B2 & B3).
  repeat split; try congruence. auto.
Qed.

Lemma settled_refl (w : Worker) : settled w w.
Proof.
  unfold settled. split; [reflexivity|]. split; [lia|].
  split; [intros; apply same_conn_refl|auto].
Qed.

Lemma settled_trans (w w1 w2 : Worker) :
  settled w w1 -> settled w1 w2 -> settled w w2.
Proof.
  intros (A1 & A2 & A3 & A4 & A5) (B1 & B2 & B3 & B4 & B5).
  split; [etransitivity; eassumption|]. split; [lia|].
  split; [|split; congruence].
  intros c Hc. eapply same_conn_trans; [apply A3; exact Hc|apply B3; lia].
Qed.

(** Only fields that [settled] does not read changed. *)
Lemma settled_same (w w' : Worker) :
  sublist (_keep w') (_keep w) -> next_conn w' = next_conn w ->
  conns w' = conns w -> cfg w' = cfg w -> clock w' = clock w -> settled w w'.
Proof.
  intros H1 H2 H3 H4 H5. unfold settled. rewrite H2, H3.
  split; [exact H1|]. split; [lia|].
  split; [intros; apply same_conn_refl|auto].
Qed.

Create HintDb keeps.

Lemma keeps_ret {A} (a : A) : keeps (ret a).
Proof. intros w. apply settled_refl. Qed.

Lemma keeps_raise {A} (e : exn) : keeps (@raise A e).
Proof. intros w. apply settled_refl. Qed.

Lemma keeps_get : keeps get.
Proof. intros w. apply settled_refl. Qed.

Lemma keeps_bind {A B} (m : M A) (k : A -> M B) :
  keeps m -> (forall a, keeps (k a)) -> keeps (bind m k).
Proof.
  intros Hm Hk w. unfold bind. specialize (Hm w).
  destruct (m w) as [[a|e|] w1]; cbn [snd] in *; auto.
  eapply settled_trans; [exact Hm|apply Hk].
Qed.

Lemma keeps_try_except {A} (m : M A) (h : exn -> M A) :
  keeps m -> (forall e, keeps (h e)) -> keeps (try_except m h).
Proof.
  intros Hm Hh w. unfold try_except. specialize (Hm w).
  destruct (m w) as [[a|e|] w1]; cbn [snd] in *; auto.
  eapply settled_trans; [exact Hm|apply Hh].
Qed.

Lemma keeps_try_finally {A} (m : M A) (f : M unit) :
  keeps m -> keeps f -> keeps (try_finally m f).
Proof.
  intros Hm Hf w. unfold try_finally. specialize (Hm w).
  destruct (m w) as [[a|e|] w1]; cbn [snd] in *; auto;
    specialize (Hf w1); destruct (f w1) as [[[]|e'|] w2]; cbn [snd] in *;
    eapply settled_trans; eassumption.
Qed.

Lemma keeps_modify (f : Worker -> Worker) :
  (forall w, settled w (f w)) -> keeps (modify f).
Proof. intros H w. apply H. Qed.

Lemma keeps_emit (e : event) : keeps (emit e).
Proof. apply keeps_modify. intros w. apply settled_same; reflexivity. Qed.

Lemma keeps_with_lock {A} (m : M A) : keeps m -> keeps (with_lock m).
Proof.
  intros Hm. unfold with_lock. apply keeps_bind; [apply keeps_emit|].
  intros _. apply keeps_try_finally; [exact Hm|apply keeps_emit].
Qed.

Lemma keeps_foreach {A} (l : list A) (f : A -> M unit) :
  (forall a, keeps (f a)) -> keeps (foreach l f).
Proof.
  intros Hf. induction l as [|a l IH]; cbn [foreach].
  - apply keeps_ret.
  - apply keeps_bind; [apply Hf|intros _; exact IH].
Qed.

#[local] Hint Resolve keeps_ret keeps_raise keeps_get keeps_emit
  keeps_with_lock keeps_foreach : keeps.

Ltac keeps_step :=
  first
    [ apply keeps_bind; [|intro]
    | apply keeps_try_except; [|intro]
    | apply keeps_with_lock
    | apply keeps_emit | apply keeps_ret | apply keeps_raise | apply keeps_get
    | match goal with
      | |- keeps (match ?x with _ => _ end) => destruct x
      | |- keeps (if ?b then _ else _) => destruct b
      end ].

Ltac keeps_tac := repeat keeps_step; auto with keeps.

Lemma keeps_get_bind {B} (k : Worker -> M B) :
  (forall w, settled w (snd (k w w))) -> keeps (bind get k).
Proof. intros H w. apply H. Qed.

Ltac keeps_field :=
  try (apply keeps_modify; intros ?; apply settled_same; reflexivity).

Lemma keeps_setblocking (fd : nat) (b : bool) : keeps (setblocking fd b).
Proof. unfold setblocking. keeps_tac. Qed.

Lemma keeps_add_nr_conns (d : Z) : keeps (add_nr_conns d).
Proof. unfold add_nr_conns. keeps_tac; keeps_field. Qed.

Lemma keeps_poller_register (fd : nat) (cb : callback) :
  keeps (poller_register fd cb).
Proof. unfold poller_register. keeps_tac; keeps_field. Qed.

Lemma keeps_poller_unregister (fd : nat) : keeps (poller_unregister fd).
Proof. unfold poller_unregister. keeps_tac; keeps_field. Qed.

Lemma sublist_remove_first (c : nat) (l k : list nat) :
  remove_first c l = Some k -> sublist k l.
Proof.
  intros H. destruct (remove_first_Some _ _ _ H) as (l1 & l2 & Hl & _ & Hk).
  subst. apply sublist_app; [reflexivity|]. apply sublist_cons. reflexivity.
Qed.

Lemma keeps_keep_remove (c : nat) : keeps (keep_remove c).
Proof.
  unfold keep_remove. apply keeps_get_bind. intros w.
  destruct (remove_first c (_keep w)) as [k|] eqn:Hrm.
  - unfold bind, emit, modify. cbn.
    apply settled_same; try reflexivity.
    apply (sublist_remove_first c). exact Hrm.
  - unfold bind, emit, modify, raise. cbn. apply settled_same; reflexivity.
Qed.

Lemma keeps_new_TConn (fd peer srv : nat) : keeps (new_TConn fd peer srv).
Proof.
  unfold new_TConn. apply keeps_get_bind. intros w.
  unfold bind, modify, setblocking, emit, modify, ret. cbn. unfold settled. cbn.
  split; [reflexivity|]. split; [lia|]. split; [|auto].
  intros c Hc. unfold heap_set.
  destruct (Nat.eqb_spec c (next_conn w)); [lia|apply same_conn_refl].
Qed.

Lemma keeps_conn_init (c : nat) : keeps (conn_init c).
Proof.
  intros w.
  destruct (conn_init_world c w)
    as (w1 & Hrun & _ & Hc & Hother & Hcfg & Hk & Hn & Hcl).
  rewrite Hrun. cbn [snd]. unfold settled. rewrite Hk, Hn.
  split; [reflexivity|]. split; [lia|]. split; [|auto].
  intros c' _. destruct (Nat.eq_dec c' c) as [->|Hne].
  - rewrite Hc. unfold same_conn. cbn. auto.
  - rewrite (Hother c' Hne). apply same_conn_refl.
Qed.

Lemma keeps_enqueue_req (c : nat) : keeps (enqueue_req c).
Proof.
  unfold enqueue_req, tpool_submit, _wrap_future.
  apply keeps_bind; [apply keeps_conn_init|]. intros _.
  keeps_tac; keeps_field.
Qed.

Lemma keeps_accept (srv listener : nat) : keeps (accept srv listener).
Proof.
  unfold accept. apply keeps_try_except.
  - apply keeps_bind; [apply keeps_emit|]. intros _.
    apply keeps_bind; [apply keeps_get|]. intros w.
    destruct (accept_result (env w) listener) as [e|[fd peer]];
      [apply keeps_raise|].
    apply keeps_bind; [apply keeps_new_TConn|]. intros conn.
    apply keeps_bind; [apply keeps_add_nr_conns|]. intros _.
    apply keeps_with_lock. apply keeps_poller_register.
  - intros e. keeps_tac.
Qed.

Lemma keeps_on_client_socket_readable (conn fd : nat) :
  keeps (on_client_socket_readable conn fd).
Proof.
  unfold on_client_socket_readable.
  apply keeps_bind.
  - apply keeps_with_lock.
    apply keeps_bind; [apply keeps_poller_unregister|]. intros _.
    apply keeps_bind; [apply keeps_get|]. intros w.
    destruct (initialized (conns w conn)); [|apply keeps_ret].
    apply keeps_try_except.
    + apply keeps_bind; [apply keeps_keep_remove|]. intros _. apply keeps_ret.
    + intros e. destruct e; first [apply keeps_ret | apply keeps_raise].
  - intros [|]; [apply keeps_enqueue_req|apply keeps_ret].
Qed.

Lemma keeps_dispatch (key : nat * callback) : keeps (dispatch key).
Proof.
  unfold dispatch. destruct (snd key);
    [apply keeps_accept|apply keeps_on_client_socket_readable].
Qed.

Lemma keeps_murder_body (now : Z) : keeps (murder_body now).
Proof.
  intros w.
  assert (Htail : forall c k w', _keep w = c :: k -> _keep w' = k ->
            next_conn w' = next_conn w -> conns w' = conns w ->
            cfg w' = cfg w -> clock w' = clock w -> settled w w').
  { intros c k w' Hk Hk' Hn Hc Hcfg Hcl. apply settled_same; auto.
    rewrite Hk, Hk'. apply sublist_cons. reflexivity. }
  destruct (_keep w) as [|c k] eqn:Hk.
  - rewrite (murder_body_empty now w Hk). apply settled_same; reflexivity.
  - destruct (timeout (conns w c)) as [t|] eqn:Ht.
    + destruct (Z_lt_le_dec now t) as [Hlt|Hle].
      * rewrite (murder_body_stop now w c k t Hk Ht Hlt).
        apply settled_same; reflexivity.
      * destruct (unregister_tolerated w (conn_fd w c)) eqn:Htol.
        -- rewrite (murder_body_reap now w c k t Hk Ht Hle Htol).
           apply (Htail c k); reflexivity.
        -- unfold unregister_tolerated in Htol.
           destruct (unregister_fault (env w) (conn_fd w c)) as [e|] eqn:Hf;
             [|discriminate].
           rewrite (murder_body_fatal now w c k t e Hk Ht Hle Hf Htol).
           apply (Htail c k); reflexivity.
    + rewrite (murder_body_untimed now w c k Hk Ht).
      apply (Htail c k); reflexivity.
Qed.

Lemma keeps_while_true (fuel : nat) (body : M ctl) :
  keeps body -> keeps (while_true fuel body).
Proof.
  intros Hb. induction fuel as [|n IH]; cbn [while_true].
  - intros w. apply settled_refl.
  - apply keeps_bind; [exact Hb|]. intros [|]; [apply keeps_ret|exact IH].
Qed.

Lemma keeps_murder_keepalived : keeps murder_keepalived.
Proof.
  unfold murder_keepalived, time_time.
  apply keeps_bind; [keeps_tac|]. intros now.
  apply keeps_bind; [apply keeps_get|]. intros w.
  apply keeps_while_true. apply keeps_murder_body.
Qed.

Lemma keeps_futures_remove (fut : nat) : keeps (futures_remove fut).
Proof. unfold futures_remove. keeps_tac; keeps_field. Qed.

(** One turn of the loop, after the clock has moved. *)
Lemma run_iteration_settled (t : Tick) (w : Worker) :
  settled (set_world (tick_env t) (tick_clock t) w) (snd (run_iteration t w)).
Proof.
  assert (H : keeps
    (emit EvNotify ;;
     w <- get ;;
     result <- (if nr_conns w <? worker_connections w then
                  events <- poller_select 1 (ready t) ;;
                  foreach events dispatch ;;
                  futures_wait 0 true (completed t)
                else
                  futures_wait 1 true (completed t)) ;;
     foreach result futures_remove ;;
     parent <- is_parent_alive t ;;
     if negb parent then ret Break
     else
       murder_keepalived ;;
       ret Continue)).
  { apply keeps_bind; [apply keeps_emit|]. intros _.
    apply keeps_bind; [apply keeps_get|]. intros w0.
    apply keeps_bind.
    - unfold poller_select, futures_wait.
      destruct (nr_conns w0 <? worker_connections w0).
      + apply keeps_bind; [keeps_tac|]. intros events.
        apply keeps_bind; [apply keeps_foreach; apply keeps_dispatch|].
        intros _. keeps_tac.
      + keeps_tac.
    - intros result.
      apply keeps_bind; [apply keeps_foreach; apply keeps_futures_remove|].
      intros _. apply keeps_bind.
      + unfold is_parent_alive, log. keeps_tac.
      + intros parent. destruct (negb parent); [apply keeps_ret|].
        apply keeps_bind; [apply keeps_murder_keepalived|]. intros _.
        apply keeps_ret. }
  exact (H (set_world (tick_env t) (tick_clock t) w)).
Qed.

Lemma Forall_sublist {A} (P : A -> Prop) (l1 l2 : list A) :
  sublist l1 l2 -> Forall P l2 -> Forall P l1.
Proof.
  induction 1 as [|x l1 l2 _ IH|x l1 l2 _ IH]; intros H.
  - constructor.
  - apply Forall_cons in H. destruct H as [Hx H]. constructor; auto.
  - apply Forall_cons in H. destruct H as [_ H]. auto.
Qed.

Lemma StronglySorted_sublist {A} (R : A -> A -> Prop) (l1 l2 : list A) :
  sublist l1 l2 -> StronglySorted R l2 -> StronglySorted R l1.
Proof.
  induction 1 as [|x l1 l2 Hs IH|x l1 l2 _ IH]; intros H.
  - constructor.
  - inversion H; subst. constructor; [auto|].
    eapply Forall_sublist; eassumption.
  - inversion H; subst. auto.
Qed.

Lemma Sorted_le_sublist (l1 l2 : list Z) :
  sublist l1 l2 -> Sorted Z.le l2 -> Sorted Z.le l1.
Proof.
  intros Hs H. apply StronglySorted_Sorted.
  apply (StronglySorted_sublist _ l1 l2 Hs).
  apply Sorted_StronglySorted; [|exact H].
  intros x y z. apply Z.le_trans.
Qed.

Lemma sublist_omap {A B} (f : A -> option B) (l1 l2 : list A) :
  sublist l1 l2 -> sublist (omap f l1) (omap f l2).
Proof.
  induction 1 as [|x l1 l2 _ IH|x l1 l2 _ IH]; cbn.
  - constructor.
  - destruct (f x); [constructor|]; exact IH.
  - destruct (f x); [apply sublist_cons|]; exact IH.
Qed.

Lemma deadlines_ext (w w' : Worker) (l : list nat) :
  (forall c, c ∈ l -> deadline w' c = deadline w c) ->
  deadlines w' l = deadlines w l.
Proof.
  unfold deadlines. induction l as [|c l IH]; intros H; cbn; [reflexivity|].
  rewrite (H c) by left. rewrite IH; [reflexivity|].
  intros c' Hc'. apply H. right. exact Hc'.
Qed.

(** An ordered deque stays ordered through settled calls. *)
Lemma timeline_settled (w w' : Worker) :
  timeline w -> (forall c, c ∈ _keep w -> (c < next_conn w)%nat) ->
  settled w w' -> timeline w'.
Proof.
  intros (Htimed & Hsorted & Hbound) Hmem (Hsub & _ & Hsame & Hcfg & Hcl).
  assert (Hdl : forall c, c ∈ _keep w' -> deadline w' c = deadline w c).
  { intros c Hc. unfold deadline.
    destruct (Hsame c) as (_ & Ht & _); [|exact Ht].
    apply Hmem. eapply elem_of_sublist; eassumption. }
  assert (Hdls : sublist (deadlines w' (_keep w')) (deadlines w (_keep w))).
  { rewrite (deadlines_ext w w' _ Hdl). apply sublist_omap. exact Hsub. }
  split; [|split].
  - unfold keep_timed in *. apply Forall_forall. intros c Hc.
    rewrite (Hdl c Hc). rewrite Forall_forall in Htimed. apply Htimed.
    eapply elem_of_sublist; eassumption.
  - eapply Sorted_le_sublist; eassumption.
  - rewrite Hcfg, Hcl. eapply Forall_sublist; eassumption.
Qed.

(** Time moves forward. *)
Lemma timeline_set_world (e : Env) (now : Z) (w : Worker) :
  timeline w -> clock w <= now -> timeline (set_world e now w).
Proof.
  intros (Htimed & Hsorted & Hbound) Hle. split; [exact Htimed|].
  split; [exact Hsorted|].
  change (deadlines (set_world e now w) (_keep (set_world e now w)))
    with (deadlines w (_keep w)).
  cbn [clock cfg set_world]. eapply Forall_impl; [exact Hbound|].
  cbn beta. intros d Hd. lia.
Qed.

Lemma sample_worker_timeline : timeline sample_worker.
Proof.
  split; [|split].
  - unfold keep_timed. cbn. repeat constructor; eexists; reflexivity.
  - cbn. repeat constructor; lia.
  - cbn. repeat constructor; lia.
Qed.

(** X11.  For a worker whose deque and selector are in agreement (X1):
    one turn of the dispatch loop never adds to the keepalive deque and
    never reorders it (the deque after the turn is a subsequence of the
    deque before), and it leaves the deadline of every connection that is
    still in it.  So a deque that is ordered by deadline, with no deadline
    later than [now + keepalive], is still so after the turn, however the
    turn ends, as long as the clock does not go back. *)
Theorem run_iteration_keeps_order (t : Tick) (w : Worker) :
  coherent w -> timeline w -> clock w <= tick_clock t ->
  exists r w',
    run_iteration t w = (r, w') /\
    sublist (_keep w') (_keep w) /\
    (forall c, c ∈ _keep w' -> deadline w' c = deadline w c) /\
    timeline w'.
Proof.
  intros Hco Htl Hclock.
  destruct (run_iteration t w) as [r w'] eqn:Hrun.
  pose proof (run_iteration_settled t w) as Hset. rewrite Hrun in Hset.
  cbn [snd] in Hset.
  assert (Hmem : forall c, c ∈ _keep w -> (c < next_conn w)%nat).
  { intros c Hc. destruct Hco as (_ & Hreg & Hback).
    destruct (Hreg c Hc) as (_ & _ & Hp). apply (Hback _ _ Hp). }
  exists r, w'. split; [reflexivity|].
  destruct Hset as (Hsub & Hnc & Hsame & Hcfg & Hcl).
  split; [exact Hsub|]. split.
  - intros c Hc. unfold deadline.
    destruct (Hsame c) as (_ & Ht & _); [|exact Ht].
    apply Hmem. eapply elem_of_sublist; [exact Hc|exact Hsub].
  - apply (timeline_settled (set_world (tick_env t) (tick_clock t) w)).
    + apply timeline_set_world; assumption.
    + exact Hmem.
    + exact (conj Hsub (conj Hnc (conj Hsame (conj Hcfg Hcl)))).
Qed.

Lemma run_iteration_keeps_order_witness :
  coherent sample_worker /\ timeline sample_worker /\
  clock sample_worker <= tick_clock sample_tick /\
  exists r w',
    run_iteration sample_tick sample_worker = (r, w') /\
    _keep w' = [3%nat] /\ timeline w'.
Proof.
  assert (Hclock : clock sample_worker <= tick_clock sample_tick) by (cbn; lia).
  split; [exact sample_worker_coherent|]. split; [exact sample_worker_timeline|].
  split; [exact Hclock|].
  destruct (run_iteration_keeps_order sample_tick sample_worker
              sample_worker_coherent sample_worker_timeline Hclock)
    as (r & w' & Hrun & _ & _ & Htl).
  exists r, w'. split; [exact Hrun|]. split; [|exact Htl].
  assert (Hw : w' = snd (run_iteration sample_tick sample_worker))
    by (rewrite Hrun; reflexivity).
  rewrite Hw. reflexivity.
Defined.





(** ** The beacon's constructor when a call fails *)

Section BeaconFailures.
Import WorkerTmp.

Ltac trun :=
  unfold open_beacon, util_chown, util_unlink, os_fdopen, os_close, call,
    traise_if, tbind, tret, traise;
  cbn [os_umask os_euid os_egid os_files os_fds os_calls].

(** The [try] block on a failing platform. *)
Lemma open_beacon_fails (cfg : TmpCfg) (env : TmpEnv) (fd : nat)
    (name : string) (x : OS) (e : exn) :
  (needs_chown cfg x = true -> chown_res env = None) ->
  (IS_CYGWIN env = false /\ unlink_res env = Some e) \/
  ((IS_CYGWIN env = true \/ unlink_res env = None) /\ fdopen_res env = Some e) ->
  exists x',
    open_beacon cfg env fd name x = (Raise e, x') /\
    os_umask x' = os_umask x /\
    os_fds x' = List.filter (fun y => negb (Nat.eqb y fd)) (os_fds x) /\
    os_calls x' =
      os_calls x ++ chown_calls cfg x name
      ++ (if IS_CYGWIN env then [] else [SysUnlink name])
      ++ (if IS_CYGWIN env then [SysFdopen fd "w+b" 0]
          else match unlink_res env with
               | Some _ => []
               | None => [SysFdopen fd "w+b" 0]
               end)
      ++ [SysClose fd] /\
    (IS_CYGWIN env = false -> unlink_res env = Some e ->
     os_files x !! name <> None -> os_files x' !! name <> None).
Proof.
  intros Hch Hfail. unfold chown_calls, needs_chown in *. trun.
  destruct (negb (uid cfg =? os_euid x) || negb (gid cfg =? os_egid x)) eqn:Hneed.
  - rewrite (Hch eq_refl). trun.
    destruct Hfail as [[Hcyg Hun]|[Hcu Hfd]].
    + rewrite Hcyg, Hun. trun. eexists. split; [reflexivity|].
      cbn [os_umask os_calls os_fds os_files]. split; [reflexivity|].
      split; [reflexivity|]. split; [rewrite <- !app_assoc; reflexivity|].
      intros _ _ Hsome. rewrite lookup_alter_eq.
      destruct (os_files x !! name); [cbn; discriminate|contradiction].
    + rewrite Hfd. destruct (IS_CYGWIN env) eqn:Hcyg.
      * trun. eexists. split; [reflexivity|].
        cbn [os_umask os_calls os_fds os_files]. split; [reflexivity|].
        split; [reflexivity|]. split; [rewrite <- !app_assoc; reflexivity|].
        intros H1. discriminate.
      * destruct Hcu as [Hcu|Hcu]; [discriminate|]. rewrite Hcu. trun.
        eexists. split; [reflexivity|].
        cbn [os_umask os_calls os_fds os_files]. split; [reflexivity|].
        split; [reflexivity|]. split; [rewrite <- !app_assoc; reflexivity|].
        intros _ H2. discriminate.
  - trun.
    destruct Hfail as [[Hcyg Hun]|[Hcu Hfd]].
    + rewrite Hcyg, Hun. trun. eexists. split; [reflexivity|].
      cbn [os_umask os_calls os_fds os_files]. split; [reflexivity|].
      split; [reflexivity|]. split; [rewrite <- !app_assoc; reflexivity|].
      intros _ _ Hsome. exact Hsome.
    + rewrite Hfd. destruct (IS_CYGWIN env) eqn:Hcyg.
      * trun. eexists. split; [reflexivity|].
        cbn [os_umask os_calls os_fds os_files]. split; [reflexivity|].
        split; [reflexivity|]. split; [rewrite <- !app_assoc; reflexivity|].
        intros H1. discriminate.
      * destruct Hcu as [Hcu|Hcu]; [discriminate|]. rewrite Hcu. trun.
        eexists. split; [reflexivity|].
        cbn [os_umask os_calls os_fds os_files]. split; [reflexivity|].
        split; [reflexivity|]. split; [rewrite <- !app_assoc; reflexivity|].
        intros _ H2. discriminate.
Qed.

(** X13.  An exception in the [try] block of the constructor (from
    [unlink], or from [fdopen]) closes the descriptor before it is raised
    again: the last call is [os.close(fd)], the descriptor is no longer
    open, and the process umask has its old value.  When it is [unlink]
    that failed, [fdopen] was not tried and the file is still in the
    directory. *)
Theorem beacon_init_closes_on_failure (cfg : TmpCfg) (env : TmpEnv) (s : OS)
    (fd : nat) (rnd : string) (e : exn) :
  0 <= os_umask s <= 511 -> dir_ok cfg env -> mkstemp_res env = inr (fd, rnd) ->
  (needs_chown cfg s = true -> chown_res env = None) ->
  (IS_CYGWIN env = false /\ unlink_res env = Some e) \/
  ((IS_CYGWIN env = true \/ unlink_res env = None) /\ fdopen_res env = Some e) ->
  let path := tmp_path cfg env rnd in
  let made :=
    [SysUmask (umask cfg)] ++ isdir_calls cfg
    ++ [SysMkstemp (tmp_dir cfg env) ("wgunicorn-" ++ rnd)%string (tmp_mode cfg);
        SysUmask (os_umask s)]
    ++ chown_calls cfg s path in
  let tried :=
    (if IS_CYGWIN env then [] else [SysUnlink path])
    ++ (if IS_CYGWIN env then [SysFdopen fd "w+b" 0]
        else match unlink_res env with
             | Some _ => []
             | None => [SysFdopen fd "w+b" 0]
             end) in
  exists s',
    __init__ cfg env s = (Raise e, s') /\
    os_umask s' = os_umask s /\
    os_calls s' = os_calls s ++ made ++ tried ++ [SysClose fd] /\
    (fd ∉ os_fds s') /\
    (IS_CYGWIN env = false -> unlink_res env = Some e ->
     os_files s' !! path <> None).
Proof.
  intros Hum Hdir Hmk Hch Hfail path made tried.
  rewrite (init_created cfg env s fd rnd Hum Hdir Hmk). fold path.
  destruct (open_beacon_fails cfg env fd path (created cfg env fd rnd s) e Hch Hfail)
    as (s' & Hrun & Hu & Hfds & Hcalls & Hleak).
  exists s'. split; [exact Hrun|]. split; [exact Hu|]. split.
  - rewrite Hcalls. subst made tried. unfold created. cbn [os_calls].
    rewrite <- !app_assoc. reflexivity.
  - split.
    + rewrite Hfds. intros Hin. apply list_elem_of_In, filter_In in Hin.
      destruct Hin as [_ Hin]. rewrite Nat.eqb_refl in Hin. discriminate.
    + intros Hcyg Hun. apply (Hleak Hcyg Hun). unfold created. cbn [os_files].
      subst path. rewrite lookup_insert_eq. discriminate.
Qed.

Lemma beacon_init_closes_on_failure_witness :
  0 <= os_umask beacon_os <= 511 /\ dir_ok beacon_cfg beacon_env_unlink /\
  exists s',
    __init__ beacon_cfg beacon_env_unlink beacon_os = (Raise (OSError 13), s') /\
    os_umask s' = 2 /\
    os_calls s' =
      [SysUmask 18; SysIsdir "/run/gunicorn";
       SysMkstemp "/run/gunicorn" "wgunicorn-k3x9" 384; SysUmask 2;
       SysChown "/run/gunicorn/wgunicorn-k3x9" 33 33;
       SysUnlink "/run/gunicorn/wgunicorn-k3x9"; SysClose 7] /\
    (7%nat ∉ os_fds s') /\
    os_files s' !! "/run/gunicorn/wgunicorn-k3x9" <> None.
Proof.
  assert (H1 : 0 <= os_umask beacon_os <= 511) by (cbn; lia).
  assert (H2 : dir_ok beacon_cfg beacon_env_unlink) by (intros d _ _; reflexivity).
  split; [exact H1|]. split; [exact H2|].
  destruct (beacon_init_closes_on_failure beacon_cfg beacon_env_unlink beacon_os
              7 "k3x9" (OSError 13) H1 H2 eq_refl (fun _ => eq_refl)
              (or_introl (conj eq_refl eq_refl)))
    as (s' & Hrun & Hu & Hc & Hfd & Hleak).
  exists s'. split; [exact Hrun|]. split; [exact Hu|]. split; [exact Hc|].
  split; [exact Hfd|]. apply Hleak; reflexivity.
Defined.

(** X14.  The change of owner is made before the [try] block: when
    [util.chown] raises, the exception leaves the constructor with the
    descriptor still open and the file still in the directory; neither
    [unlink] nor [os.close] is called. *)
Theorem beacon_init_chown_failure (cfg : TmpCfg) (env : TmpEnv) (s : OS)
    (fd : nat) (rnd : string) (e : exn) :
  0 <= os_umask s <= 511 -> dir_ok cfg env -> mkstemp_res env = inr (fd, rnd) ->
  needs_chown cfg s = true -> chown_res env = Some e ->
  let path := tmp_path cfg env rnd in
  exists s',
    __init__ cfg env s = (Raise e, s') /\
    os_umask s' = os_umask s /\
    os_fds s' = fd :: os_fds s /\
    os_files s' !! path = Some (mkInode (tmp_mode cfg) (os_euid s) (os_egid s)) /\
    os_calls s' =
      os_calls s ++ [SysUmask (umask cfg)] ++ isdir_calls cfg
      ++ [SysMkstemp (tmp_dir cfg env) ("wgunicorn-" ++ rnd)%string (tmp_mode cfg);
          SysUmask (os_umask s); SysChown path (uid cfg) (gid cfg)].
Proof.
  intros Hum Hdir Hmk Hneed Hch path.
  rewrite (init_created cfg env s fd rnd Hum Hdir Hmk). fold path.
  unfold needs_chown in Hneed. unfold created. trun. rewrite Hneed, Hch. trun.
  eexists. split; [reflexivity|].
  cbn [os_umask os_calls os_fds os_files]. split; [reflexivity|].
  split; [reflexivity|]. split; [apply lookup_insert_eq|].
  rewrite <- !app_assoc. reflexivity.
Qed.

Lemma beacon_init_chown_failure_witness :
  0 <= os_umask beacon_os <= 511 /\ dir_ok beacon_cfg beacon_env_chown /\
  needs_chown beacon_cfg beacon_os = true /\
  exists s',
    __init__ beacon_cfg beacon_env_chown beacon_os = (Raise (OSError 1), s') /\
    os_fds s' = [7%nat] /\
    os_files s' !! "/run/gunicorn/wgunicorn-k3x9" = Some (mkInode 384 0 0) /\
    os_calls s' =
      [SysUmask 18; SysIsdir "/run/gunicorn";
       SysMkstemp "/run/gunicorn" "wgunicorn-k3x9" 384; SysUmask 2;
       SysChown "/run/gunicorn/wgunicorn-k3x9" 33 33].
Proof.
  assert (H1 : 0 <= os_umask beacon_os <= 511) by (cbn; lia).
  assert (H2 : dir_ok beacon_cfg beacon_env_chown) by (intros d _ _; reflexivity).
  split; [exact H1|]. split; [exact H2|]. split; [reflexivity|].
  destruct (beacon_init_chown_failure beacon_cfg beacon_env_chown beacon_os
              7 "k3x9" (OSError 1) H1 H2 eq_refl eq_refl eq_refl)
    as (s' & Hrun & _ & Hfd & Hfile & Hc).
  exists s'. split; [exact Hrun|]. split; [exact Hfd|].
  split; [exact Hfile|exact Hc].
Defined.

(** X15.  When the constructor fails before the file exists (the
    configured directory is missing, or [mkstemp] raises), the exception
    leaves it right there: nothing was created or opened, and
    [os.umask(old_umask)] is not reached, so the process umask stays at the
    configured one. *)
Theorem beacon_init_early_failure (cfg : TmpCfg) (env : TmpEnv) (s : OS)
    (e : exn) :
  (exists d, worker_tmp_dir cfg = Some d /\ truthy (Some d) = true /\
             isdir env d = false /\ e = RuntimeError) \/
  (dir_ok cfg env /\ mkstemp_res env = inl e) ->
  exists s',
    __init__ cfg env s = (Raise e, s') /\
    os_umask s' = Z.land (umask cfg) 511 /\
    os_files s' = os_files s /\ os_fds s' = os_fds s /\
    os_calls s' = os_calls s ++ [SysUmask (umask cfg)] ++ isdir_calls cfg.
Proof.
  intros [(d & Hd & Htr & Hdir & ->)|[Hdir Hmk]];
    unfold __init__, isdir_calls.
  - unfold tbind at 1. unfold os_umask_set at 1.
    unfold tbind at 1. rewrite Hd, Htr.
    unfold tbind at 1. unfold call at 1. rewrite Hdir.
    eexists. split; [reflexivity|]. cbn. rewrite <- app_assoc. auto.
  - unfold tbind at 1. unfold os_umask_set at 1. unfold tbind at 1.
    unfold dir_ok in Hdir.
    destruct (worker_tmp_dir cfg) as [d|] eqn:Hd.
    + destruct (truthy (Some d)) eqn:Htr.
      * unfold tbind at 1. unfold call at 1. rewrite (Hdir d eq_refl Htr).
        unfold tret at 1. unfold tbind at 1. unfold mkstemp. rewrite Hmk.
        eexists. split; [reflexivity|].
        cbn [os_umask os_euid os_egid os_files os_fds os_calls].
        rewrite <- !app_assoc. auto.
      * unfold tret at 1. unfold tbind at 1. unfold mkstemp. rewrite Hmk.
        eexists. split; [reflexivity|].
        cbn [os_umask os_euid os_egid os_files os_fds os_calls].
        rewrite app_nil_r. auto.
    + unfold tret at 1. unfold tbind at 1. unfold mkstemp. rewrite Hmk.
      eexists. split; [reflexivity|].
      cbn [os_umask os_euid os_egid os_files os_fds os_calls].
      rewrite app_nil_r. auto.
Qed.

Lemma beacon_init_early_failure_witness :
  dir_ok beacon_cfg beacon_env_nofile /\
  os_umask beacon_os = 2 /\
  exists s',
    __init__ beacon_cfg beacon_env_nofile beacon_os = (Raise (OSError 13), s') /\
    os_umask s' = 18 /\ os_files s' = ∅ /\ os_fds s' = [] /\
    os_calls s' = [SysUmask 18; SysIsdir "/run/gunicorn"].
Proof.
  assert (H2 : dir_ok beacon_cfg beacon_env_nofile) by (intros d _ _; reflexivity).
  split; [exact H2|]. split; [reflexivity|].
  exact (beacon_init_early_failure beacon_cfg beacon_env_nofile beacon_os
           (OSError 13) (or_intror (conj H2 eq_refl))).
Defined.

End BeaconFailures.
